(** * interact.js: the interaction session and its dispatcher

    A shallow embedding of [src/Interaction.js] (class [Interaction]) and of
    [src/interactions.js] ([doOnInteractions], [getInteraction],
    [newInteraction]), with the properties of the specification stated over it.

    Conventions of the embedding.
    - A JavaScript array is a list of slots, [None] being a hole; writing past
      the end extends the array with holes, as JavaScript does.
    - Coordinates and time stamps are integers (CSS pixels, milliseconds); the
      velocity fields of [pointerDelta], which are floating-point quotients of
      the differences kept here, are not represented.
    - The signal bus ([utils/Signals]) is not part of the two source files.  A
      call [signals.fire(name, arg)] is recorded in a log together with the
      session as the listeners see it, and its result is read from the
      environment of the call: [false] when a listener returned the [false]
      sentinel.  Listeners are observers: what a listener does by calling back
      into the session is a call of its own.
    - The class [InteractEvent] is not part of the two source files either.
      A lifecycle event is the record of what its constructor is given, and
      whether the constructor returns or throws is read from the environment
      of the call.
    - An exception (the constructor of [InteractEvent] throwing,
      [this.target.fire] on a [null] target, a method that does not exist)
      ends the running operation and keeps the mutations done so far. *)

From stdpp Require Import base numbers list strings option.
From Stdlib Require Import ZArith Lia Ascii Reals Lra.

Open Scope Z_scope.

(** ** JavaScript arrays *)

Abbreviation jsarray A := (list (option A)).

(** [a[i] = v] *)
Definition array_set {A : Type} (i : nat) (v : A) (a : jsarray A) : jsarray A :=
  if decide (i < length a)%nat
  then <[i := Some v]> a
  else a ++ replicate (i - length a) None ++ [Some v].

(** [a.splice(i, 1)] for [i >= 0] *)
Definition splice1 {A : Type} (i : nat) (a : jsarray A) : jsarray A :=
  delete i a.

(** [a[i]], [undefined] being [None] *)
Definition array_get {A : Type} (i : nat) (a : jsarray A) : option A :=
  mjoin (a !! i).

(** [a.indexOf(v)]: holes never match *)
Definition indexOf {A : Type} `{EqDecision A} (a : jsarray A) (v : A) : Z :=
  match list_find (fun slot => slot = Some v) a with
  | Some (i, _) => Z.of_nat i
  | None => -1
  end.

(** ** Strings: the three regular expressions of the source *)

Definition lower_ascii (c : ascii) : ascii :=
  let n := nat_of_ascii c in
  if ((65 <=? n)%nat && (n <=? 90)%nat)%bool then ascii_of_nat (n + 32) else c.

Fixpoint lower (s : string) : string :=
  match s with
  | EmptyString => EmptyString
  | String c r => String (lower_ascii c) (lower r)
  end.

(** [true] when [suf] is a suffix of [s] *)
Fixpoint has_suffix (suf s : string) : bool :=
  if String.eqb suf s then true
  else match s with
       | EmptyString => false
       | String _ r => has_suffix suf r
       end.

(** [true] when [pat] occurs in [s] *)
Fixpoint contains (pat s : string) : bool :=
  if String.prefix pat s then true
  else match s with
       | EmptyString => false
       | String _ r => contains pat r
       end.

(** [/cancel$/i.test(type)] *)
Definition is_cancel (type : string) : bool := has_suffix "cancel" (lower type).

(** [/(down|start)$/i.test(type)] *)
Definition is_down_or_start (type : string) : bool :=
  (has_suffix "down" (lower type) || has_suffix "start" (lower type))%bool.

(** [/touch/.test(type)] and [/mouse/.test(type)] *)
Definition is_touch_type (type : string) : bool := contains "touch" type.
Definition is_mouse_type (type : string) : bool := contains "mouse" type.

(** ** Data *)

Definition Target := Z.       (* handle of an Interactable *)
Definition Element := Z.      (* handle of a DOM node *)
Definition EventTarget := option Element.   (* a node or [null] *)
Definition PointerId := Z.    (* what [utils.pointer.getPointerId] returns *)

Inductive PointerType := mouse | pen | touch.

#[global] Instance PointerType_eq_dec : EqDecision PointerType.
Proof. solve_decision. Defined.

Record XY := mkXY { x : Z; y : Z }.

(** [prevCoords], [curCoords], [startCoords]; [pointerDelta] has the same shape
    once its velocities are left out. *)
Record Coords := mkCoords { page : XY; client : XY; timeStamp : Z }.

Record Pointer := mkPointer {
  pointerId : PointerId;
  pageXY : XY;
  clientXY : XY
}.

Record Event := mkEvent {
  ev_type : string;
  ev_timeStamp : Z;
  ev_pointerType : PointerType;     (* [pointerUtils.getPointerType(event)] *)
  ev_target : EventTarget;          (* [pointerUtils.getEventTargets(event)] *)
  ev_currentTarget : EventTarget;
  ev_pointer : Pointer;             (* the event read as a pointer *)
  changedTouches : list Pointer
}.

Record Edges := mkEdges { left : bool; right : bool; top : bool; bottom : bool }.

(** The shape shared by [prepared] and by the [action] given to [start]. *)
Record Action := mkAction {
  name : option string;
  axis : option string;
  edges : option Edges
}.

(** What [new InteractEvent(interaction, event, actionName, phase, element,
    null, preEnd)] is given.  [event] is a raw event or an earlier
    [InteractEvent] ([prevEvent]). *)
Inductive AnyEvent :=
  | RawEvent (e : Event)
  | ActionEvent (i : InteractEvent)
with InteractEvent :=
  | mkInteractEvent (ie_event : option AnyEvent) (ie_actionName : option string)
      (ie_phase : string) (ie_element : option Element) (ie_preEnd : option bool).

Definition ie_actionName (i : InteractEvent) : option string :=
  match i with mkInteractEvent _ a _ _ _ => a end.
Definition ie_phase (i : InteractEvent) : string :=
  match i with mkInteractEvent _ _ p _ _ => p end.

Record Interaction := mkInteraction {
  target : option Target;
  element : option Element;
  prepared : Action;
  pointers : jsarray Pointer;
  pointerIds : jsarray PointerId;
  downTargets : jsarray EventTarget;
  downTimes : jsarray Z;
  prevCoords : Coords;
  curCoords : Coords;
  startCoords : Coords;
  pointerDelta : Coords;
  downEvent : option Event;
  downPointer : option Pointer;
  _eventTarget : EventTarget;
  _curEventTarget : EventTarget;
  prevEvent : option InteractEvent;
  pointerIsDown : bool;
  pointerWasMoved : bool;
  _interacting : bool;
  _ending : bool;
  pointerType : PointerType;
  simulation : bool
}.

Definition set_target (v : option Target) (s : Interaction) : Interaction :=
  {| target := v; element := element s; prepared := prepared s; pointers :=
  pointers s; pointerIds := pointerIds s; downTargets := downTargets s;
  downTimes := downTimes s; prevCoords := prevCoords s; curCoords := curCoords
  s; startCoords := startCoords s; pointerDelta := pointerDelta s; downEvent
  := downEvent s; downPointer := downPointer s; _eventTarget := _eventTarget
  s; _curEventTarget := _curEventTarget s; prevEvent := prevEvent s;
  pointerIsDown := pointerIsDown s; pointerWasMoved := pointerWasMoved s;
  _interacting := _interacting s; _ending := _ending s; pointerType :=
  pointerType s; simulation := simulation s |}.

Definition set_element (v : option Element) (s : Interaction) : Interaction :=
  {| target := target s; element := v; prepared := prepared s; pointers :=
  pointers s; pointerIds := pointerIds s; downTargets := downTargets s;
  downTimes := downTimes s; prevCoords := prevCoords s; curCoords := curCoords
  s; startCoords := startCoords s; pointerDelta := pointerDelta s; downEvent
  := downEvent s; downPointer := downPointer s; _eventTarget := _eventTarget
  s; _curEventTarget := _curEventTarget s; prevEvent := prevEvent s;
  pointerIsDown := pointerIsDown s; pointerWasMoved := pointerWasMoved s;
  _interacting := _interacting s; _ending := _ending s; pointerType :=
  pointerType s; simulation := simulation s |}.

Definition set_prepared (v : Action) (s : Interaction) : Interaction :=
  {| target := target s; element := element s; prepared := v; pointers :=
  pointers s; pointerIds := pointerIds s; downTargets := downTargets s;
  downTimes := downTimes s; prevCoords := prevCoords s; curCoords := curCoords
  s; startCoords := startCoords s; pointerDelta := pointerDelta s; downEvent
  := downEvent s; downPointer := downPointer s; _eventTarget := _eventTarget
  s; _curEventTarget := _curEventTarget s; prevEvent := prevEvent s;
  pointerIsDown := pointerIsDown s; pointerWasMoved := pointerWasMoved s;
  _interacting := _interacting s; _ending := _ending s; pointerType :=
  pointerType s; simulation := simulation s |}.

Definition set_pointers (v : jsarray Pointer) (s : Interaction) : Interaction :=
  {| target := target s; element := element s; prepared := prepared s;
  pointers := v; pointerIds := pointerIds s; downTargets := downTargets s;
  downTimes := downTimes s; prevCoords := prevCoords s; curCoords := curCoords
  s; startCoords := startCoords s; pointerDelta := pointerDelta s; downEvent
  := downEvent s; downPointer := downPointer s; _eventTarget := _eventTarget
  s; _curEventTarget := _curEventTarget s; prevEvent := prevEvent s;
  pointerIsDown := pointerIsDown s; pointerWasMoved := pointerWasMoved s;
  _interacting := _interacting s; _ending := _ending s; pointerType :=
  pointerType s; simulation := simulation s |}.

Definition set_pointerIds (v : jsarray PointerId) (s : Interaction) : Interaction :=
  {| target := target s; element := element s; prepared := prepared s;
  pointers := pointers s; pointerIds := v; downTargets := downTargets s;
  downTimes := downTimes s; prevCoords := prevCoords s; curCoords := curCoords
  s; startCoords := startCoords s; pointerDelta := pointerDelta s; downEvent
  := downEvent s; downPointer := downPointer s; _eventTarget := _eventTarget
  s; _curEventTarget := _curEventTarget s; prevEvent := prevEvent s;
  pointerIsDown := pointerIsDown s; pointerWasMoved := pointerWasMoved s;
  _interacting := _interacting s; _ending := _ending s; pointerType :=
  pointerType s; simulation := simulation s |}.

Definition set_downTargets (v : jsarray EventTarget) (s : Interaction) : Interaction :=
  {| target := target s; element := element s; prepared := prepared s;
  pointers := pointers s; pointerIds := pointerIds s; downTargets := v;
  downTimes := downTimes s; prevCoords := prevCoords s; curCoords := curCoords
  s; startCoords := startCoords s; pointerDelta := pointerDelta s; downEvent
  := downEvent s; downPointer := downPointer s; _eventTarget := _eventTarget
  s; _curEventTarget := _curEventTarget s; prevEvent := prevEvent s;
  pointerIsDown := pointerIsDown s; pointerWasMoved := pointerWasMoved s;
  _interacting := _interacting s; _ending := _ending s; pointerType :=
  pointerType s; simulation := simulation s |}.

Definition set_downTimes (v : jsarray Z) (s : Interaction) : Interaction :=
  {| target := target s; element := element s; prepared := prepared s;
  pointers := pointers s; pointerIds := pointerIds s; downTargets :=
  downTargets s; downTimes := v; prevCoords := prevCoords s; curCoords :=
  curCoords s; startCoords := startCoords s; pointerDelta := pointerDelta s;
  downEvent := downEvent s; downPointer := downPointer s; _eventTarget :=
  _eventTarget s; _curEventTarget := _curEventTarget s; prevEvent := prevEvent
  s; pointerIsDown := pointerIsDown s; pointerWasMoved := pointerWasMoved s;
  _interacting := _interacting s; _ending := _ending s; pointerType :=
  pointerType s; simulation := simulation s |}.

Definition set_prevCoords (v : Coords) (s : Interaction) : Interaction :=
  {| target := target s; element := element s; prepared := prepared s;
  pointers := pointers s; pointerIds := pointerIds s; downTargets :=
  downTargets s; downTimes := downTimes s; prevCoords := v; curCoords :=
  curCoords s; startCoords := startCoords s; pointerDelta := pointerDelta s;
  downEvent := downEvent s; downPointer := downPointer s; _eventTarget :=
  _eventTarget s; _curEventTarget := _curEventTarget s; prevEvent := prevEvent
  s; pointerIsDown := pointerIsDown s; pointerWasMoved := pointerWasMoved s;
  _interacting := _interacting s; _ending := _ending s; pointerType :=
  pointerType s; simulation := simulation s |}.

Definition set_curCoords (v : Coords) (s : Interaction) : Interaction :=
  {| target := target s; element := element s; prepared := prepared s;
  pointers := pointers s; pointerIds := pointerIds s; downTargets :=
  downTargets s; downTimes := downTimes s; prevCoords := prevCoords s;
  curCoords := v; startCoords := startCoords s; pointerDelta := pointerDelta
  s; downEvent := downEvent s; downPointer := downPointer s; _eventTarget :=
  _eventTarget s; _curEventTarget := _curEventTarget s; prevEvent := prevEvent
  s; pointerIsDown := pointerIsDown s; pointerWasMoved := pointerWasMoved s;
  _interacting := _interacting s; _ending := _ending s; pointerType :=
  pointerType s; simulation := simulation s |}.

Definition set_startCoords (v : Coords) (s : Interaction) : Interaction :=
  {| target := target s; element := element s; prepared := prepared s;
  pointers := pointers s; pointerIds := pointerIds s; downTargets :=
  downTargets s; downTimes := downTimes s; prevCoords := prevCoords s;
  curCoords := curCoords s; startCoords := v; pointerDelta := pointerDelta s;
  downEvent := downEvent s; downPointer := downPointer s; _eventTarget :=
  _eventTarget s; _curEventTarget := _curEventTarget s; prevEvent := prevEvent
  s; pointerIsDown := pointerIsDown s; pointerWasMoved := pointerWasMoved s;
  _interacting := _interacting s; _ending := _ending s; pointerType :=
  pointerType s; simulation := simulation s |}.

Definition set_pointerDelta (v : Coords) (s : Interaction) : Interaction :=
  {| target := target s; element := element s; prepared := prepared s;
  pointers := pointers s; pointerIds := pointerIds s; downTargets :=
  downTargets s; downTimes := downTimes s; prevCoords := prevCoords s;
  curCoords := curCoords s; startCoords := startCoords s; pointerDelta := v;
  downEvent := downEvent s; downPointer := downPointer s; _eventTarget :=
  _eventTarget s; _curEventTarget := _curEventTarget s; prevEvent := prevEvent
  s; pointerIsDown := pointerIsDown s; pointerWasMoved := pointerWasMoved s;
  _interacting := _interacting s; _ending := _ending s; pointerType :=
  pointerType s; simulation := simulation s |}.

Definition set_downEvent (v : option Event) (s : Interaction) : Interaction :=
  {| target := target s; element := element s; prepared := prepared s;
  pointers := pointers s; pointerIds := pointerIds s; downTargets :=
  downTargets s; downTimes := downTimes s; prevCoords := prevCoords s;
  curCoords := curCoords s; startCoords := startCoords s; pointerDelta :=
  pointerDelta s; downEvent := v; downPointer := downPointer s; _eventTarget
  := _eventTarget s; _curEventTarget := _curEventTarget s; prevEvent :=
  prevEvent s; pointerIsDown := pointerIsDown s; pointerWasMoved :=
  pointerWasMoved s; _interacting := _interacting s; _ending := _ending s;
  pointerType := pointerType s; simulation := simulation s |}.

Definition set_downPointer (v : option Pointer) (s : Interaction) : Interaction :=
  {| target := target s; element := element s; prepared := prepared s;
  pointers := pointers s; pointerIds := pointerIds s; downTargets :=
  downTargets s; downTimes := downTimes s; prevCoords := prevCoords s;
  curCoords := curCoords s; startCoords := startCoords s; pointerDelta :=
  pointerDelta s; downEvent := downEvent s; downPointer := v; _eventTarget :=
  _eventTarget s; _curEventTarget := _curEventTarget s; prevEvent := prevEvent
  s; pointerIsDown := pointerIsDown s; pointerWasMoved := pointerWasMoved s;
  _interacting := _interacting s; _ending := _ending s; pointerType :=
  pointerType s; simulation := simulation s |}.

Definition set_eventTarget (v : EventTarget) (s : Interaction) : Interaction :=
  {| target := target s; element := element s; prepared := prepared s;
  pointers := pointers s; pointerIds := pointerIds s; downTargets :=
  downTargets s; downTimes := downTimes s; prevCoords := prevCoords s;
  curCoords := curCoords s; startCoords := startCoords s; pointerDelta :=
  pointerDelta s; downEvent := downEvent s; downPointer := downPointer s;
  _eventTarget := v; _curEventTarget := _curEventTarget s; prevEvent :=
  prevEvent s; pointerIsDown := pointerIsDown s; pointerWasMoved :=
  pointerWasMoved s; _interacting := _interacting s; _ending := _ending s;
  pointerType := pointerType s; simulation := simulation s |}.

Definition set_curEventTarget (v : EventTarget) (s : Interaction) : Interaction :=
  {| target := target s; element := element s; prepared := prepared s;
  pointers := pointers s; pointerIds := pointerIds s; downTargets :=
  downTargets s; downTimes := downTimes s; prevCoords := prevCoords s;
  curCoords := curCoords s; startCoords := startCoords s; pointerDelta :=
  pointerDelta s; downEvent := downEvent s; downPointer := downPointer s;
  _eventTarget := _eventTarget s; _curEventTarget := v; prevEvent := prevEvent
  s; pointerIsDown := pointerIsDown s; pointerWasMoved := pointerWasMoved s;
  _interacting := _interacting s; _ending := _ending s; pointerType :=
  pointerType s; simulation := simulation s |}.

Definition set_prevEvent (v : option InteractEvent) (s : Interaction) : Interaction :=
  {| target := target s; element := element s; prepared := prepared s;
  pointers := pointers s; pointerIds := pointerIds s; downTargets :=
  downTargets s; downTimes := downTimes s; prevCoords := prevCoords s;
  curCoords := curCoords s; startCoords := startCoords s; pointerDelta :=
  pointerDelta s; downEvent := downEvent s; downPointer := downPointer s;
  _eventTarget := _eventTarget s; _curEventTarget := _curEventTarget s;
  prevEvent := v; pointerIsDown := pointerIsDown s; pointerWasMoved :=
  pointerWasMoved s; _interacting := _interacting s; _ending := _ending s;
  pointerType := pointerType s; simulation := simulation s |}.

Definition set_pointerIsDown (v : bool) (s : Interaction) : Interaction :=
  {| target := target s; element := element s; prepared := prepared s;
  pointers := pointers s; pointerIds := pointerIds s; downTargets :=
  downTargets s; downTimes := downTimes s; prevCoords := prevCoords s;
  curCoords := curCoords s; startCoords := startCoords s; pointerDelta :=
  pointerDelta s; downEvent := downEvent s; downPointer := downPointer s;
  _eventTarget := _eventTarget s; _curEventTarget := _curEventTarget s;
  prevEvent := prevEvent s; pointerIsDown := v; pointerWasMoved :=
  pointerWasMoved s; _interacting := _interacting s; _ending := _ending s;
  pointerType := pointerType s; simulation := simulation s |}.

Definition set_pointerWasMoved (v : bool) (s : Interaction) : Interaction :=
  {| target := target s; element := element s; prepared := prepared s;
  pointers := pointers s; pointerIds := pointerIds s; downTargets :=
  downTargets s; downTimes := downTimes s; prevCoords := prevCoords s;
  curCoords := curCoords s; startCoords := startCoords s; pointerDelta :=
  pointerDelta s; downEvent := downEvent s; downPointer := downPointer s;
  _eventTarget := _eventTarget s; _curEventTarget := _curEventTarget s;
  prevEvent := prevEvent s; pointerIsDown := pointerIsDown s; pointerWasMoved
  := v; _interacting := _interacting s; _ending := _ending s; pointerType :=
  pointerType s; simulation := simulation s |}.

Definition set_interacting (v : bool) (s : Interaction) : Interaction :=
  {| target := target s; element := element s; prepared := prepared s;
  pointers := pointers s; pointerIds := pointerIds s; downTargets :=
  downTargets s; downTimes := downTimes s; prevCoords := prevCoords s;
  curCoords := curCoords s; startCoords := startCoords s; pointerDelta :=
  pointerDelta s; downEvent := downEvent s; downPointer := downPointer s;
  _eventTarget := _eventTarget s; _curEventTarget := _curEventTarget s;
  prevEvent := prevEvent s; pointerIsDown := pointerIsDown s; pointerWasMoved
  := pointerWasMoved s; _interacting := v; _ending := _ending s; pointerType
  := pointerType s; simulation := simulation s |}.

Definition set_ending (v : bool) (s : Interaction) : Interaction :=
  {| target := target s; element := element s; prepared := prepared s;
  pointers := pointers s; pointerIds := pointerIds s; downTargets :=
  downTargets s; downTimes := downTimes s; prevCoords := prevCoords s;
  curCoords := curCoords s; startCoords := startCoords s; pointerDelta :=
  pointerDelta s; downEvent := downEvent s; downPointer := downPointer s;
  _eventTarget := _eventTarget s; _curEventTarget := _curEventTarget s;
  prevEvent := prevEvent s; pointerIsDown := pointerIsDown s; pointerWasMoved
  := pointerWasMoved s; _interacting := _interacting s; _ending := v;
  pointerType := pointerType s; simulation := simulation s |}.

Definition set_simulation (v : bool) (s : Interaction) : Interaction :=
  {| target := target s; element := element s; prepared := prepared s;
  pointers := pointers s; pointerIds := pointerIds s; downTargets :=
  downTargets s; downTimes := downTimes s; prevCoords := prevCoords s;
  curCoords := curCoords s; startCoords := startCoords s; pointerDelta :=
  pointerDelta s; downEvent := downEvent s; downPointer := downPointer s;
  _eventTarget := _eventTarget s; _curEventTarget := _curEventTarget s;
  prevEvent := prevEvent s; pointerIsDown := pointerIsDown s; pointerWasMoved
  := pointerWasMoved s; _interacting := _interacting s; _ending := _ending s;
  pointerType := pointerType s; simulation := v |}.

(** ** Signals, the log and the environment of a call *)

(** The payload of a signal.  A field is [None] when the property is absent
    (or [undefined]); [interaction: this] is the session kept with the log
    entry. *)
Record SignalArg := mkSignalArg {
  sa_pointer : option (option Pointer);
  sa_pointerIndex : option Z;
  sa_event : option (option AnyEvent);
  sa_eventTarget : option EventTarget;
  sa_curEventTarget : option EventTarget;
  sa_dx : option Z;
  sa_dy : option Z;
  sa_duplicate : option bool;
  sa_interactingBeforeMove : option bool;
  sa_iEvent : option InteractEvent;
  sa_down : option bool;
  sa_pointerId : option PointerId;
  sa_preEnd : option bool
}.

Definition noArg : SignalArg :=
  mkSignalArg None None None None None None None None None None None None None.

(** The argument of [finder.search] (its [scope] is the pool at hand). *)
Record SearchDetails := mkSearchDetails {
  sd_pointer : Pointer;
  sd_pointerId : PointerId;
  sd_pointerType : PointerType;
  sd_eventType : string;
  sd_eventTarget : EventTarget
}.

Inductive LogEntry :=
  | Signal (signal : string) (arg : SignalArg) (self : Interaction)
  | TargetFire (t : Target) (iEvent : InteractEvent)
  | Find (found : option nat) (details : SearchDetails).

Definition signal_name (e : LogEntry) : option string :=
  match e with
  | Signal n _ _ => Some n
  | TargetFire _ _ => None
  | Find _ _ => Some "find"
  end.

(** [fired n l]: a signal named [n] is in the log [l]. *)
Definition fired (n : string) (l : list LogEntry) : Prop :=
  Some n ∈ signal_name <$> l.

(** What the session calls but does not define. *)
Record Env := mkEnv {
  (** [false] when [signals.fire(name, arg)] returned [false] *)
  fire_result : string -> SignalArg -> Interaction -> bool;
  (** [utils.pointer.setCoords(targetObj, pointers)]: the new [targetObj],
      computed from the held pointers and the clock *)
  setCoords : Coords -> jsarray Pointer -> Coords;
  (** [new InteractEvent(interaction, event, actionName, phase, element, null,
      preEnd)]: the class is not among the source files; [constructs s e] is
      [false] when the constructor throws on the session [s] and the
      arguments recorded in [e] *)
  constructs : Interaction -> InteractEvent -> bool
}.

(** Modelled from the spec: [utils.pointer.setCoordDeltas] is not among the
    source files; section 4.1 gives [dx = current.x - previous.x], [dy]
    likewise in each space, and the difference of the time stamps.  Every
    field of the first argument is overwritten. *)
Definition setCoordDeltas (targetObj prev cur : Coords) : Coords :=
  {| page := {| x := x (page cur) - x (page prev);
                y := y (page cur) - y (page prev) |};
     client := {| x := x (client cur) - x (client prev);
                  y := y (client cur) - y (client prev) |};
     timeStamp := timeStamp cur - timeStamp prev |}.

(** Modelled from the spec: [utils.pointer.copyCoords(dest, src)] copies the
    snapshot [src] into [dest]. *)
Definition copyCoords (dest src : Coords) : Coords := src.

(** Modelled from the spec: [utils.copyAction(dest, src)] copies the requested
    action descriptor into [prepared]. *)
Definition copyAction (dest src : Action) : Action :=
  {| name := name src; axis := axis src; edges := edges src |}.

(** Modelled from the spec: [utils.pointer.pointerExtend(dest, source)]
    snapshots the pointer as [downPointer]. *)
Definition pointerExtend (dest : option Pointer) (source : Pointer) : option Pointer :=
  Some source.

(** [utils.extend(dest, source)]: the properties of [source] written over
    those of [dest]. *)
Definition over {A : Type} (source dest : option A) : option A :=
  match source with Some v => Some v | None => dest end.

Definition extend (dest source : SignalArg) : SignalArg :=
  {| sa_pointer := over (sa_pointer source) (sa_pointer dest);
     sa_pointerIndex := over (sa_pointerIndex source) (sa_pointerIndex dest);
     sa_event := over (sa_event source) (sa_event dest);
     sa_eventTarget := over (sa_eventTarget source) (sa_eventTarget dest);
     sa_curEventTarget := over (sa_curEventTarget source) (sa_curEventTarget dest);
     sa_dx := over (sa_dx source) (sa_dx dest);
     sa_dy := over (sa_dy source) (sa_dy dest);
     sa_duplicate := over (sa_duplicate source) (sa_duplicate dest);
     sa_interactingBeforeMove :=
       over (sa_interactingBeforeMove source) (sa_interactingBeforeMove dest);
     sa_iEvent := over (sa_iEvent source) (sa_iEvent dest);
     sa_down := over (sa_down source) (sa_down dest);
     sa_pointerId := over (sa_pointerId source) (sa_pointerId dest);
     sa_preEnd := over (sa_preEnd source) (sa_preEnd dest) |}.

Definition with_iEvent (i : InteractEvent) (a : SignalArg) : SignalArg :=
  {| sa_pointer := sa_pointer a; sa_pointerIndex := sa_pointerIndex a;
     sa_event := sa_event a; sa_eventTarget := sa_eventTarget a;
     sa_curEventTarget := sa_curEventTarget a; sa_dx := sa_dx a; sa_dy := sa_dy a;
     sa_duplicate := sa_duplicate a;
     sa_interactingBeforeMove := sa_interactingBeforeMove a;
     sa_iEvent := Some i; sa_down := sa_down a; sa_pointerId := sa_pointerId a;
     sa_preEnd := sa_preEnd a |}.

(** [Interaction.pointerMoveTolerance = 1] *)
Definition pointerMoveTolerance : Z := 1.

(** Modelled from the spec: [utils.hypot] is not among the source files; the
    specification measures [hypot(dx, dy)], the length of the vector. *)
Definition hypot (dx dy : Z) : R :=
  sqrt (IZR dx * IZR dx + IZR dy * IZR dy).

(** [utils.hypot(dx, dy) > tol], decided on the squares. *)
Definition hypot_gt (dx dy tol : Z) : bool :=
  if tol <? 0 then true else tol * tol <? dx * dx + dy * dy.

(** ** A state monad with exceptions *)

Inductive Res (S A : Type) :=
  | Ret (a : A) (s : S)
  | Throw (s : S).
Arguments Ret {S A} a s.
Arguments Throw {S A} s.

Definition M (S A : Type) : Type := S -> Res S A.

Definition ret {S A : Type} (a : A) : M S A := fun s => Ret a s.

Definition bind {S A B : Type} (c : M S A) (k : A -> M S B) : M S B :=
  fun s => match c s with
           | Ret a s' => k a s'
           | Throw s' => Throw s'
           end.

Definition throw {S A : Type} : M S A := fun s => Throw s.

Declare Scope session_scope.
Notation "v <- c ;; k" := (bind c (fun v => k))
  (at level 100, c at next level, k at level 200, right associativity) : session_scope.
Notation "c ;; k" := (bind c (fun _ => k))
  (at level 100, k at level 200, right associativity) : session_scope.
Open Scope session_scope.

(** The state a computation leaves, whether it returned or threw. *)
Definition state_of {S A : Type} (r : Res S A) : S :=
  match r with Ret _ s => s | Throw s => s end.

Definition returned {S A : Type} (r : Res S A) : bool :=
  match r with Ret _ _ => true | Throw _ => false end.

(** A session together with the log of the bus it fires on. *)
Record World := mkWorld { ia : Interaction; log : list LogEntry }.

Definition get : M World Interaction := fun w => Ret (ia w) w.

Definition modify (f : Interaction -> Interaction) : M World unit :=
  fun w => Ret tt {| ia := f (ia w); log := log w |}.

Definition when {S : Type} (b : bool) (c : M S unit) : M S unit :=
  if b then c else ret tt.

(** [this._signals.fire(name, arg)] *)
Definition fire (env : Env) (signal : string) (arg : SignalArg) : M World bool :=
  fun w => Ret (fire_result env signal arg (ia w))
               {| ia := ia w; log := log w ++ [Signal signal arg (ia w)] |}.

(** ** The session: [class Interaction] *)

(** [new Interaction({ pointerType, signals })] before it fires ['new'] *)
Definition zeroCoords : Coords := mkCoords (mkXY 0 0) (mkXY 0 0) 0.

Definition newSession (pt : PointerType) : Interaction :=
  {| target := None; element := None;
     prepared := {| name := None; axis := None; edges := None |};
     pointers := []; pointerIds := []; downTargets := []; downTimes := [];
     prevCoords := zeroCoords; curCoords := zeroCoords; startCoords := zeroCoords;
     pointerDelta := zeroCoords;
     downEvent := None; downPointer := None;
     _eventTarget := None; _curEventTarget := None;
     prevEvent := None;
     pointerIsDown := false; pointerWasMoved := false;
     _interacting := false; _ending := false;
     pointerType := pt; simulation := false |}.

Definition constructor (pt : PointerType) (bus : list LogEntry) : World :=
  {| ia := newSession pt; log := bus ++ [Signal "new" noArg (newSession pt)] |}.

Definition interacting (s : Interaction) : bool := _interacting s.

Definition currentAction (s : Interaction) : option string :=
  if _interacting s then name (prepared s) else None.

Definition getPointerIndex (s : Interaction) (pointer : Pointer) : Z :=
  match pointerType s with
  | mouse | pen => 0
  | touch => indexOf (pointerIds s) (pointerId pointer)
  end.

Definition _updateEventTargets (tgt currentTarget : EventTarget) : M World unit :=
  modify (set_eventTarget tgt) ;;
  modify (set_curEventTarget currentTarget).

(** The lifecycle event [_createPreparedEvent] asks for: the arguments it
    gives the constructor. *)
Definition prepared_event (s : Interaction) (event : option AnyEvent)
    (phase : string) (preEnd : option bool) : InteractEvent :=
  let actionName := name (prepared s) in
  mkInteractEvent event actionName phase (element s) preEnd.

(** [return new InteractEvent(this, event, actionName, phase, this.element,
    null, preEnd)]: the constructor may throw. *)
Definition _createPreparedEvent (env : Env) (event : option AnyEvent)
    (phase : string) (preEnd : option bool) : M World InteractEvent :=
  s <- get ;;
  let iEvent := prepared_event s event phase preEnd in
  if constructs env s iEvent then ret iEvent else throw.

(** [this.target.fire(iEvent)] is a [TypeError] when [target] is [null]. *)
Definition _fireEvent (iEvent : InteractEvent) : M World unit :=
  fun w =>
    match target (ia w) with
    | None => Throw w
    | Some t =>
        Ret tt {| ia := set_prevEvent (Some iEvent) (ia w);
                  log := log w ++ [TargetFire t iEvent] |}
    end.

(** The default of the parameter [down]: [event && /(down|start)$/i.test(event.type)] *)
Definition down_default (event : option Event) : bool :=
  match event with
  | Some e => is_down_or_start (ev_type e)
  | None => false
  end.

Definition updatePointer (env : Env) (pointer : Pointer) (event : option Event)
    (eventTarget : EventTarget) (down : option bool) : M World nat :=
  let down := default (down_default event) down in
  let id := pointerId pointer in
  s <- get ;;
  index <- (if getPointerIndex s pointer =? -1
            then
              let index := length (pointerIds s) in
              modify (fun s => set_pointerIds (array_set index id (pointerIds s)) s) ;;
              ret index
            else ret (Z.to_nat (getPointerIndex s pointer))) ;;
  when down
    (modify (fun s => set_pointerIds (array_set index id (pointerIds s)) s) ;;
     modify (fun s => set_pointers (array_set index pointer (pointers s)) s) ;;
     modify (set_pointerIsDown true) ;;
     s <- get ;;
     when (negb (interacting s))
       (modify (fun s => set_startCoords (setCoords env (startCoords s) (pointers s)) s) ;;
        modify (fun s => set_curCoords (copyCoords (curCoords s) (startCoords s)) s) ;;
        modify (fun s => set_prevCoords (copyCoords (prevCoords s) (startCoords s)) s) ;;
        modify (set_downEvent event) ;;
        modify (fun s =>
                  set_downTimes (array_set index (timeStamp (curCoords s)) (downTimes s)) s) ;;
        modify (fun s => set_downTargets (array_set index eventTarget (downTargets s)) s) ;;
        modify (set_pointerWasMoved false) ;;
        modify (fun s => set_downPointer (pointerExtend (downPointer s) pointer) s)) ;;
     fire env "update-pointer-down"
       {| sa_pointer := Some (Some pointer); sa_pointerIndex := Some (Z.of_nat index);
          sa_event := Some (RawEvent <$> event); sa_eventTarget := Some eventTarget;
          sa_curEventTarget := None; sa_dx := None; sa_dy := None;
          sa_duplicate := None; sa_interactingBeforeMove := None; sa_iEvent := None;
          sa_down := Some down; sa_pointerId := Some id; sa_preEnd := None |} ;;
     ret tt) ;;
  modify (fun s => set_pointers (array_set index pointer (pointers s)) s) ;;
  ret index.

Definition pointerDown (env : Env) (pointer : Pointer) (event : Event)
    (eventTarget : EventTarget) : M World unit :=
  pointerIndex <- updatePointer env pointer (Some event) eventTarget (Some true) ;;
  fire env "down"
    {| sa_pointer := Some (Some pointer); sa_pointerIndex := Some (Z.of_nat pointerIndex);
       sa_event := Some (Some (RawEvent event)); sa_eventTarget := Some eventTarget;
       sa_curEventTarget := None; sa_dx := None; sa_dy := None;
       sa_duplicate := None; sa_interactingBeforeMove := None; sa_iEvent := None;
       sa_down := None; sa_pointerId := None; sa_preEnd := None |} ;;
  ret tt.

Definition is_gesture (action : Action) : bool :=
  match name action with
  | Some n => String.eqb n "gesture"
  | None => false
  end.

Definition start (env : Env) (action : Action) (tgt : option Target)
    (elt : option Element) : M World unit :=
  s <- get ;;
  if (interacting s
      || negb (pointerIsDown s)
      || (Z.of_nat (length (pointerIds s)) <? (if is_gesture action then 2 else 1)))%bool
  then ret tt
  else
    modify (fun s => set_prepared (copyAction (prepared s) action) s) ;;
    modify (set_target tgt) ;;
    modify (set_element elt) ;;
    modify (set_interacting true) ;;
    s <- get ;;
    startEvent <- _createPreparedEvent env (RawEvent <$> downEvent s) "start" (Some false) ;;
    let signalArg :=
      {| sa_pointer := None; sa_pointerIndex := None;
         sa_event := Some (RawEvent <$> downEvent s); sa_eventTarget := None;
         sa_curEventTarget := None; sa_dx := None; sa_dy := None;
         sa_duplicate := None; sa_interactingBeforeMove := None;
         sa_iEvent := Some startEvent;
         sa_down := None; sa_pointerId := None; sa_preEnd := None |} in
    fire env "action-start" signalArg ;;
    _fireEvent startEvent ;;
    fire env "after-action-start" signalArg ;;
    ret tt.

Definition doMove (env : Env) (signalArg : option SignalArg) : M World unit :=
  s <- get ;;
  let signalArg :=
    extend {| sa_pointer := Some (array_get 0 (pointers s)); sa_pointerIndex := None;
              sa_event := Some (ActionEvent <$> prevEvent s);
              sa_eventTarget := Some (_eventTarget s);
              sa_curEventTarget := None; sa_dx := None; sa_dy := None;
              sa_duplicate := None; sa_interactingBeforeMove := None;
              sa_iEvent := None; sa_down := None; sa_pointerId := None;
              sa_preEnd := None |}
           (default noArg signalArg) in
  beforeMoveResult <- fire env "before-action-move" signalArg ;;
  when beforeMoveResult
    (moveEvent <-
       _createPreparedEvent env (mjoin (sa_event signalArg)) "move" (sa_preEnd signalArg) ;;
     let signalArg := with_iEvent moveEvent signalArg in
     fire env "action-move" signalArg ;;
     _fireEvent moveEvent ;;
     fire env "after-action-move" signalArg ;;
     ret tt).

(** [duplicateMove] of [pointerMove] *)
Definition duplicate_coords (cur prev : Coords) : bool :=
  ((x (page cur) =? x (page prev)) && (y (page cur) =? y (page prev))
   && (x (client cur) =? x (client prev)) && (y (client cur) =? y (client prev)))%bool.

(** The opening of [pointerMove]: unless a simulation runs, the contact and
    [curCoords] are brought up to date. *)
Definition take_sample (env : Env) (pointer : Pointer) (event : Event)
    (eventTarget : EventTarget) : M World unit :=
  s <- get ;;
  when (negb (simulation s))
    (updatePointer env pointer (Some event) eventTarget (Some false) ;;
     modify (fun s => set_curCoords (setCoords env (curCoords s) (pointers s)) s)).

Definition pointerMove (env : Env) (pointer : Pointer) (event : Event)
    (eventTarget : EventTarget) : M World unit :=
  take_sample env pointer event eventTarget ;;
  s <- get ;;
  let duplicateMove := duplicate_coords (curCoords s) (prevCoords s) in
  dxy <- (if (pointerIsDown s && negb (pointerWasMoved s))%bool
          then
            let dx := x (client (curCoords s)) - x (client (startCoords s)) in
            let dy := y (client (curCoords s)) - y (client (startCoords s)) in
            modify (set_pointerWasMoved (hypot_gt dx dy pointerMoveTolerance)) ;;
            ret (Some dx, Some dy)
          else ret (None, None)) ;;
  s <- get ;;
  let signalArg :=
    {| sa_pointer := Some (Some pointer);
       sa_pointerIndex := Some (getPointerIndex s pointer);
       sa_event := Some (Some (RawEvent event)); sa_eventTarget := Some eventTarget;
       sa_curEventTarget := None; sa_dx := fst dxy; sa_dy := snd dxy;
       sa_duplicate := Some duplicateMove;
       sa_interactingBeforeMove := Some (interacting s);
       sa_iEvent := None; sa_down := None; sa_pointerId := None; sa_preEnd := None |} in
  when (negb duplicateMove)
    (modify (fun s =>
       set_pointerDelta (setCoordDeltas (pointerDelta s) (prevCoords s) (curCoords s)) s)) ;;
  fire env "move" signalArg ;;
  when (negb duplicateMove)
    (s <- get ;;
     when (interacting s) (doMove env (Some signalArg)) ;;
     s <- get ;;
     when (pointerWasMoved s)
       (modify (fun s => set_prevCoords (copyCoords (prevCoords s) (curCoords s)) s))).

Definition stop (env : Env) : M World unit :=
  fire env "stop" noArg ;;
  modify (set_element None) ;;
  modify (set_target None) ;;
  modify (set_interacting false) ;;
  modify (set_prevEvent None) ;;
  modify (fun s => set_prepared {| name := None; axis := axis (prepared s);
                                   edges := edges (prepared s) |} s).

(** [event = event || this.prevEvent] of [end] *)
Definition end_event (s : Interaction) (event : option Event) : option AnyEvent :=
  match event with
  | Some e => Some (RawEvent e)
  | None => ActionEvent <$> prevEvent s
  end.

(** [signalArg] of [end] *)
Definition end_signalArg (s : Interaction) (event : option Event) : SignalArg :=
  {| sa_pointer := None; sa_pointerIndex := None;
     sa_event := Some (end_event s event); sa_eventTarget := None;
     sa_curEventTarget := None; sa_dx := None; sa_dy := None;
     sa_duplicate := None; sa_interactingBeforeMove := None;
     sa_iEvent := Some (prepared_event s (end_event s event) "end" (Some false));
     sa_down := None; sa_pointerId := None; sa_preEnd := None |}.

Definition end_ (env : Env) (event : option Event) : M World unit :=
  modify (set_ending true) ;;
  s <- get ;;
  let finish := modify (set_ending false) ;; stop env in
  if interacting s
  then
    endEvent <- _createPreparedEvent env (end_event s event) "end" (Some false) ;;
    let signalArg := end_signalArg s event in
    beforeEndResult <- fire env "before-action-end" signalArg ;;
    if negb beforeEndResult
    then modify (set_ending false)
    else
      fire env "action-end" signalArg ;;
      _fireEvent endEvent ;;
      fire env "after-action-end" signalArg ;;
      finish
  else finish.

(** The payload of ['remove-pointer'] *)
Definition remove_signalArg (pointer : Pointer) (event : option Event) (index : Z)
    : SignalArg :=
  {| sa_pointer := Some (Some pointer); sa_pointerIndex := Some index;
     sa_event := Some (RawEvent <$> event); sa_eventTarget := None;
     sa_curEventTarget := None; sa_dx := None; sa_dy := None;
     sa_duplicate := None; sa_interactingBeforeMove := None; sa_iEvent := None;
     sa_down := None; sa_pointerId := None; sa_preEnd := None |}.

Definition removePointer (env : Env) (pointer : Pointer) (event : option Event)
    : M World unit :=
  s <- get ;;
  let index := getPointerIndex s pointer in
  if index =? -1
  then ret tt
  else
    fire env "remove-pointer" (remove_signalArg pointer event index) ;;
    modify (fun s => set_pointers (splice1 (Z.to_nat index) (pointers s)) s) ;;
    modify (fun s => set_pointerIds (splice1 (Z.to_nat index) (pointerIds s)) s) ;;
    modify (fun s => set_downTargets (splice1 (Z.to_nat index) (downTargets s)) s) ;;
    modify (fun s => set_downTimes (splice1 (Z.to_nat index) (downTimes s)) s).

(** The payload of ['up'] and ['cancel'] *)
Definition up_signalArg (s : Interaction) (pointer : Pointer) (event : Event)
    (eventTarget curEventTarget : EventTarget) : SignalArg :=
  {| sa_pointer := Some (Some pointer);
     sa_pointerIndex := Some (getPointerIndex s pointer);
     sa_event := Some (Some (RawEvent event)); sa_eventTarget := Some eventTarget;
     sa_curEventTarget := Some curEventTarget; sa_dx := None; sa_dy := None;
     sa_duplicate := None; sa_interactingBeforeMove := None; sa_iEvent := None;
     sa_down := None; sa_pointerId := None; sa_preEnd := None |}.

Definition pointerUp (env : Env) (pointer : Pointer) (event : Event)
    (eventTarget curEventTarget : EventTarget) : M World unit :=
  s <- get ;;
  fire env (if is_cancel (ev_type event) then "cancel" else "up")
    (up_signalArg s pointer event eventTarget curEventTarget) ;;
  s <- get ;;
  when (negb (simulation s)) (end_ env (Some event)) ;;
  modify (set_pointerIsDown false) ;;
  removePointer env pointer (Some event).

Definition documentBlur (env : Env) (event : Event) : M World unit :=
  end_ env (Some event) ;;
  fire env "blur"
    {| sa_pointer := None; sa_pointerIndex := None;
       sa_event := Some (Some (RawEvent event)); sa_eventTarget := None;
       sa_curEventTarget := None; sa_dx := None; sa_dy := None;
       sa_duplicate := None; sa_interactingBeforeMove := None; sa_iEvent := None;
       sa_down := None; sa_pointerId := None; sa_preEnd := None |} ;;
  ret tt.

(** ** Sequences of calls on one session *)

Inductive Op :=
  | OpPointerDown (pointer : Pointer) (event : Event) (eventTarget : EventTarget)
  | OpStart (action : Action) (tgt : option Target) (elt : option Element)
  | OpPointerMove (pointer : Pointer) (event : Event) (eventTarget : EventTarget)
  | OpDoMove (signalArg : option SignalArg)
  | OpPointerUp (pointer : Pointer) (event : Event) (eventTarget curEventTarget : EventTarget)
  | OpDocumentBlur (event : Event)
  | OpEnd (event : option Event)
  | OpStop
  | OpUpdatePointer (pointer : Pointer) (event : option Event) (eventTarget : EventTarget)
      (down : option bool)
  | OpRemovePointer (pointer : Pointer) (event : option Event)
  (** an extension assigns [interaction.simulation], which the class only reads *)
  | OpSetSimulation (active : bool).

Definition call (env : Env) (op : Op) : M World unit :=
  match op with
  | OpPointerDown p e t => pointerDown env p e t
  | OpStart a t e => start env a t e
  | OpPointerMove p e t => pointerMove env p e t
  | OpDoMove a => doMove env a
  | OpPointerUp p e t c => pointerUp env p e t c
  | OpDocumentBlur e => documentBlur env e
  | OpEnd e => end_ env e
  | OpStop => stop env
  | OpUpdatePointer p e t d => updatePointer env p e t d ;; ret tt
  | OpRemovePointer p e => removePointer env p e
  | OpSetSimulation b => modify (set_simulation b)
  end.

(** One call, with the state it leaves whether it returned or threw. *)
Definition step (c : Env * Op) (w : World) : World :=
  state_of (call (fst c) (snd c) w).

(** A sequence of calls, each with the listeners and the clock of its time. *)
Definition run (cs : list (Env * Op)) (w : World) : World :=
  fold_left (fun w c => step c w) cs w.

(** The states a session can be in: a new session driven by calls. *)
Definition reachable (w : World) : Prop :=
  exists pt bus cs, w = run cs (constructor pt bus).

(** ** The dispatcher: [interactions.js] *)

Record Browser := mkBrowser { supportsTouch : bool; supportsPointerEvent : bool }.

(** [scope]: the pool of sessions, the time of the last touch event, and the
    bus shared by the dispatcher and every session.  A session is referred to
    by its index in the pool. *)
Record Scope := mkScope {
  interactions : list Interaction;
  prevTouchTime : Z;
  signals : list LogEntry
}.

(** What the dispatcher calls but does not define. *)
Record Platform := mkPlatform {
  browser : Browser;
  (** [new Date().getTime()] *)
  now : Z;
  (** [finder.search(searchDetails)] *)
  finder_search : SearchDetails -> list Interaction -> option nat;
  (** [signalArg.interaction] once the listeners of ['find'] have run *)
  find_listeners : option nat -> SearchDetails -> list Interaction -> option nat;
  session_env : Env
}.

Definition get_state {S : Type} : M S S := fun s => Ret s s.
Definition modify_state {S : Type} (f : S -> S) : M S unit := fun s => Ret tt (f s).

(** [scope.interactions = []], [scope.prevTouchTime = 0] of [init] *)
Definition init_scope : Scope :=
  {| interactions := []; prevTouchTime := 0; signals := [] |}.

Definition newInteraction (pt : PointerType) : M Scope nat :=
  sc <- get_state ;;
  let w := constructor pt (signals sc) in
  modify_state (fun sc => {| interactions := interactions sc ++ [ia w];
                             prevTouchTime := prevTouchTime sc;
                             signals := log w |}) ;;
  ret (length (interactions sc)).

Definition getInteraction (pf : Platform) (searchDetails : SearchDetails) : M Scope nat :=
  sc <- get_state ;;
  let foundInteraction := finder_search pf searchDetails (interactions sc) in
  modify_state (fun sc => {| interactions := interactions sc;
                             prevTouchTime := prevTouchTime sc;
                             signals := signals sc ++ [Find foundInteraction searchDetails] |}) ;;
  match find_listeners pf foundInteraction searchDetails (interactions sc) with
  | Some i => ret i
  | None => newInteraction (sd_pointerType searchDetails)
  end.

Inductive Method :=
  | m_pointerDown | m_pointerMove | m_pointerUp
  | m_updatePointer | m_removePointer | m_windowBlur.

Definition methodNames : list Method :=
  [m_pointerDown; m_pointerMove; m_pointerUp; m_updatePointer; m_removePointer; m_windowBlur].

(** [interaction[method](pointer, event, eventTarget, curEventTarget)]: the
    class has no [windowBlur]; [updatePointer] takes the fourth argument as
    its [down]. *)
Definition apply_method (env : Env) (method : Method) (pointer : Pointer) (event : Event)
    (eventTarget curEventTarget : EventTarget) : M World unit :=
  match method with
  | m_pointerDown => pointerDown env pointer event eventTarget
  | m_pointerMove => pointerMove env pointer event eventTarget
  | m_pointerUp => pointerUp env pointer event eventTarget curEventTarget
  | m_updatePointer =>
      updatePointer env pointer (Some event) eventTarget
        (Some (bool_decide (is_Some curEventTarget))) ;;
      ret tt
  | m_removePointer => removePointer env pointer (Some event)
  | m_windowBlur => throw
  end.

(** Run a session computation on the session at index [i] of the pool. *)
Definition on_session (i : nat) (c : M World unit) : M Scope unit :=
  fun sc =>
    match interactions sc !! i with
    | None => Ret tt sc
    | Some s =>
        let put w := {| interactions := <[i := ia w]> (interactions sc);
                        prevTouchTime := prevTouchTime sc;
                        signals := log w |} in
        match c {| ia := s; log := signals sc |} with
        | Ret _ w => Ret tt (put w)
        | Throw w => Throw (put w)
        end
    end.

Fixpoint for_each {S A : Type} (l : list A) (body : A -> M S unit) : M S unit :=
  match l with
  | [] => ret tt
  | a :: r => body a ;; for_each r body
  end.

Fixpoint map_each {S A B : Type} (l : list A) (body : A -> M S B) : M S (list B) :=
  match l with
  | [] => ret []
  | a :: r => b <- body a ;; bs <- map_each r body ;; ret (b :: bs)
  end.

(** [for (let i = 0; i < interactions.length && !invalidPointer; i++)
      invalidPointer = interactions[i].pointerType !== 'mouse'
                       && interactions[i].pointerIsDown] *)
Fixpoint touch_active (l : list Interaction) (invalidPointer : bool) : bool :=
  match l with
  | [] => invalidPointer
  | i :: r =>
      if invalidPointer then invalidPointer
      else touch_active r (bool_decide (pointerType i <> mouse) && pointerIsDown i)
  end.

Definition searchDetails_of (event : Event) (pointer : Pointer) : SearchDetails :=
  {| sd_pointer := pointer; sd_pointerId := pointerId pointer;
     sd_pointerType := ev_pointerType event; sd_eventType := ev_type event;
     sd_eventTarget := ev_target event |}.

(** The first half of the listener: the list [matches]. *)
Definition collect_matches (pf : Platform) (event : Event) : M Scope (list (Pointer * nat)) :=
  if (supportsTouch (browser pf) && is_touch_type (ev_type event))%bool
  then
    modify_state (fun sc => {| interactions := interactions sc;
                               prevTouchTime := now pf;
                               signals := signals sc |}) ;;
    map_each (changedTouches event)
      (fun pointer =>
         interaction <- getInteraction pf (searchDetails_of event pointer) ;;
         ret (pointer, interaction))
  else
    sc <- get_state ;;
    let invalidPointer :=
      if (negb (supportsPointerEvent (browser pf)) && is_mouse_type (ev_type event))%bool
      then (touch_active (interactions sc) false
            || (now pf - prevTouchTime sc <? 500)
            || (ev_timeStamp event =? 0))%bool
      else false in
    if negb invalidPointer
    then
      interaction <- getInteraction pf (searchDetails_of event (ev_pointer event)) ;;
      ret [(ev_pointer event, interaction)]
    else ret [].

Definition doOnInteractions (pf : Platform) (method : Method) (event : Event) : M Scope unit :=
  let eventTarget := ev_target event in
  let curEventTarget := ev_currentTarget event in
  matches <- collect_matches pf event ;;
  for_each matches
    (fun m =>
       on_session (snd m)
         (_updateEventTargets eventTarget curEventTarget ;;
          apply_method (session_env pf) method (fst m) event eventTarget curEventTarget)).

(** ** Concrete environments and inputs, for the examples *)

Definition pointer_at (id px py : Z) : Pointer :=
  {| pointerId := id; pageXY := mkXY px py; clientXY := mkXY px py |}.

(** One held contact gives its own coordinates; several give their sum
    divided by their number; the clock reads [clock]. *)
Definition held (ps : jsarray Pointer) : list Pointer := omap (fun slot => slot) ps.

Definition sum_xy (f : Pointer -> XY) (ps : list Pointer) : XY :=
  fold_right (fun p acc => mkXY (x (f p) + x acc) (y (f p) + y acc)) (mkXY 0 0) ps.

Definition mean_xy (f : Pointer -> XY) (ps : list Pointer) : XY :=
  let n := Z.of_nat (length ps) in
  mkXY (x (sum_xy f ps) / n) (y (sum_xy f ps) / n).

Definition setCoords_at (clock : Z) (targetObj : Coords) (ps : jsarray Pointer) : Coords :=
  {| page := mean_xy pageXY (held ps); client := mean_xy clientXY (held ps);
     timeStamp := clock |}.

(** A constructor of lifecycle events that needs the target of the session
    and the event it is given, and throws for want of either. *)
Definition constructs_bound (s : Interaction) (e : InteractEvent) : bool :=
  match target s, e with
  | Some _, mkInteractEvent (Some _) _ _ _ _ => true
  | _, _ => false
  end.

(** No listener vetoes. *)
Definition quiet (clock : Z) : Env :=
  {| fire_result := fun _ _ _ => true; setCoords := setCoords_at clock;
     constructs := constructs_bound |}.

(** A listener of [signal] returns [false]. *)
Definition vetoing (signal : string) (clock : Z) : Env :=
  {| fire_result := fun n _ _ => negb (String.eqb n signal);
     setCoords := setCoords_at clock; constructs := constructs_bound |}.

Definition event_at (type : string) (pt : PointerType) (id px py t : Z) : Event :=
  {| ev_type := type; ev_timeStamp := t; ev_pointerType := pt;
     ev_target := Some 7; ev_currentTarget := Some 8;
     ev_pointer := pointer_at id px py; changedTouches := [] |}.

Definition drag : Action := {| name := Some "drag"; axis := None; edges := None |}.
Definition gesture : Action := {| name := Some "gesture"; axis := None; edges := None |}.
Definition unnamed : Action := {| name := None; axis := None; edges := None |}.

(** ** The handler of [blur] in [init] *)

(** [eventMap.blur]: [for (const interaction of scope.interactions)
    interaction.documentBlur(event)] *)
Definition blur_listener (pf : Platform) (event : Event) : M Scope unit :=
  sc <- get_state ;;
  for_each (seq 0 (length (interactions sc)))
    (fun i => on_session i (documentBlur (session_env pf) event)).

(** * The vocabulary of the statements *)

(** ** [start] and [end] *)

(** The number of held contacts [start] asks for. *)
Definition required_contacts (action : Action) : nat :=
  if decide (name action = Some "gesture") then 2%nat else 1%nat.

(** The lifecycle event [end] asks the constructor for, on the session [s]
    it reads once [_ending] is set. *)
Definition end_iEvent (s : Interaction) (event : option Event) : InteractEvent :=
  prepared_event s (end_event s event) "end" (Some false).

(** The five entries a completed [end] of an interacting session adds. *)
Definition end_entries (s : Interaction) (event : option Event) (t : Target)
    : list LogEntry :=
  let s1 := set_ending true s in
  let endEvent := prepared_event s1 (end_event s1 event) "end" (Some false) in
  let s2 := set_prevEvent (Some endEvent) s1 in
  [ Signal "before-action-end" (end_signalArg s1 event) s1;
    Signal "action-end" (end_signalArg s1 event) s1;
    TargetFire t endEvent;
    Signal "after-action-end" (end_signalArg s1 event) s2;
    Signal "stop" noArg (set_ending false s2) ].

(** ** The sample of a [pointerMove] *)

(** The session as [pointerMove] sees it once the sample is taken. *)
Definition sample_of (env : Env) (pointer : Pointer) (event : Event)
    (eventTarget : EventTarget) (w : World) : Interaction :=
  ia (state_of (take_sample env pointer event eventTarget w)).

(** The four equalities that make a sample a duplicate. *)
Definition is_duplicate (s : Interaction) : Prop :=
  x (page (curCoords s)) = x (page (prevCoords s))
  /\ y (page (curCoords s)) = y (page (prevCoords s))
  /\ x (client (curCoords s)) = x (client (prevCoords s))
  /\ y (client (curCoords s)) = y (client (prevCoords s)).

(** [pointerWasMoved] once the tolerance check of [pointerMove] has run on the
    sample [s]. *)
Definition moved_after_check (s : Interaction) : bool :=
  if (pointerIsDown s && negb (pointerWasMoved s))%bool
  then hypot_gt (x (client (curCoords s)) - x (client (startCoords s)))
                (y (client (curCoords s)) - y (client (startCoords s)))
                pointerMoveTolerance
  else pointerWasMoved s.

(** ** Frames and groups of fields *)

(** [preserves P c]: whatever [c] does, and whether it returns or throws, a
    session satisfying [P] still satisfies it afterwards. *)
Definition preserves {B : Type} (P : Interaction -> Prop) (c : M World B) : Prop :=
  forall w, P (ia w) -> P (ia (state_of (c w))).

(** The fields of the movement bookkeeping, of the action and of the contact
    registry. *)
Definition motion (s : Interaction) : bool * Coords * Coords :=
  (pointerWasMoved s, prevCoords s, startCoords s).

Definition action_state (s : Interaction) : bool * Action * option Target * option Element :=
  (_interacting s, prepared s, target s, element s).

Definition registry (s : Interaction)
    : jsarray Pointer * jsarray PointerId * jsarray EventTarget * jsarray Z
      * PointerType * bool :=
  (pointers s, pointerIds s, downTargets s, downTimes s, pointerType s, pointerIsDown s).

(** ** Transitions of [pointerWasMoved] *)

(** A pointer-down that reaches a session which is not interacting:
    [pointerDown], or [updatePointer] with a true [down]. *)
Definition is_first_down (op : Op) (s : Interaction) : bool :=
  match op with
  | OpPointerDown _ _ _ => negb (_interacting s)
  | OpUpdatePointer _ ev _ d => default (down_default ev) d && negb (_interacting s)
  | _ => false
  end.

(** Along a sequence of calls: how often [pointerWasMoved] goes from [false]
    to [true], and how many first downs there are. *)
Fixpoint rises (cs : list (Env * Op)) (w : World) : nat :=
  match cs with
  | [] => 0
  | c :: r =>
      ((if (negb (pointerWasMoved (ia w)) && pointerWasMoved (ia (step c w)))%bool
        then 1 else 0)
       + rises r (step c w))%nat
  end.

Fixpoint first_downs (cs : list (Env * Op)) (w : World) : nat :=
  match cs with
  | [] => 0
  | c :: r =>
      ((if is_first_down (snd c) (ia w) then 1 else 0) + first_downs r (step c w))%nat
  end.

(** ** Invariants of the action *)

(** An interacting session has a prepared action name. *)
Definition named_when_interacting (s : Interaction) : Prop :=
  _interacting s = true -> name (prepared s) <> None.

(** [start] is given an action that has a name. *)
Definition named_start (op : Op) : Prop :=
  match op with
  | OpStart a _ _ => name a <> None
  | _ => True
  end.

(** [start] is given an Interactable, as its documentation asks. *)
Definition bound_start (op : Op) : Prop :=
  match op with
  | OpStart _ t _ => t <> None
  | _ => True
  end.

(** An interacting session has a target. *)
Definition bound_when_interacting (s : Interaction) : Prop :=
  _interacting s = true -> target s <> None.

(** ** The contact registry *)

(** Which slots of an array are filled. *)
Definition filled {A : Type} (slot : option A) : bool :=
  match slot with Some _ => true | None => false end.

Definition shape {A : Type} (a : jsarray A) : list bool := filled <$> a.


(** What the code keeps: [downTimes] and [downTargets] have the same slots
    filled, and no more slots than [pointerIds], which has no more than
    [pointers]; on a touch session slot [i] of [pointerIds] is the identifier
    of slot [i] of [pointers]. *)
Definition registry_ok (s : Interaction) : Prop :=
  shape (downTimes s) = shape (downTargets s)
  /\ (length (downTimes s) <= length (pointerIds s))%nat
  /\ (length (pointerIds s) <= length (pointers s))%nat
  /\ (pointerType s = touch ->
      pointerIds s = (fmap (M := option) pointerId <$> pointers s)).

(** ** The previous snapshot *)

(** Until the pointer has moved, the previous snapshot is the start one. *)
Definition at_start_until_moved (s : Interaction) : Prop :=
  pointerWasMoved s = false -> prevCoords s = startCoords s.

(** ** The cancel pattern, letter by letter *)





(** ** What the listeners of [pointerUp] and [removePointer] see *)



(** The session once slot [i] is spliced out of the four arrays. *)
Definition spliced (i : nat) (s : Interaction) : Interaction :=
  set_downTimes (splice1 i (downTimes s))
    (set_downTargets (splice1 i (downTargets s))
       (set_pointerIds (splice1 i (pointerIds s))
          (set_pointers (splice1 i (pointers s)) s))).

(** ** The dispatcher *)

(** A session that is not a mouse session has a pointer down; or the event
    comes less than 500 ms after the last touch event; or its time stamp is 0. *)
Definition is_dropped (pf : Platform) (event : Event) (sc : Scope) : Prop :=
  (exists s, s ∈ interactions sc /\ pointerType s <> mouse /\ pointerIsDown s = true)
  \/ now pf - prevTouchTime sc < 500
  \/ ev_timeStamp event = 0.

(** The scope after [getInteraction], and the session it gives. *)
Definition resolved (pf : Platform) (event : Event) (sc : Scope) : nat * Scope :=
  let details := searchDetails_of event (ev_pointer event) in
  let found := finder_search pf details (interactions sc) in
  match find_listeners pf found details (interactions sc) with
  | Some i =>
      (i, {| interactions := interactions sc; prevTouchTime := prevTouchTime sc;
             signals := signals sc ++ [Find found details] |})
  | None =>
      (length (interactions sc),
       {| interactions := interactions sc ++ [newSession (ev_pointerType event)];
          prevTouchTime := prevTouchTime sc;
          signals := signals sc ++ [Find found details;
                                    Signal "new" noArg (newSession (ev_pointerType event))] |})
  end.

(** ** Sessions and pools for the examples *)

Definition mousedown_at_origin : Event := event_at "mousedown" mouse 1 0 0 10.
Definition mousemove_far : Event := event_at "mousemove" mouse 1 5 5 20.
Definition mouseup_far : Event := event_at "mouseup" mouse 1 5 5 30.
Definition touchstart_a : Event := event_at "touchstart" touch 11 0 0 10.

(** A mouse session with the button down at the origin. *)
Definition mouse_pressed : World :=
  run [(quiet 10, OpPointerDown (ev_pointer mousedown_at_origin) mousedown_at_origin (Some 7))]
      (constructor mouse []).

(** The same session once a drag is started on it. *)
Definition mouse_dragging : World :=
  run [(quiet 11, OpStart drag (Some 3) (Some 7))] mouse_pressed.

(** A touch session holding one contact. *)
Definition one_touch : World :=
  run [(quiet 10, OpPointerDown (ev_pointer touchstart_a) touchstart_a (Some 7))]
      (constructor touch []).

(** Press, then start a drag. *)
Definition press_then_drag : list (Env * Op) :=
  [(quiet 10, OpPointerDown (ev_pointer mousedown_at_origin) mousedown_at_origin (Some 7));
   (quiet 11, OpStart drag (Some 3) (Some 7))].


(** A phone browser: touch events, no pointer events; the finder finds nothing
    and no listener of ['find'] supplies a session. *)
Definition phone (clock : Z) : Platform :=
  {| browser := {| supportsTouch := true; supportsPointerEvent := false |};
     now := clock;
     finder_search := fun _ _ => None;
     find_listeners := fun found _ _ => found;
     session_env := quiet clock |}.

(** The pool after a touch start at time 1000. *)
Definition after_touchstart : Scope :=
  state_of (doOnInteractions (phone 1000) m_pointerDown
              {| ev_type := "touchstart"; ev_timeStamp := 1000; ev_pointerType := touch;
                 ev_target := Some 7; ev_currentTarget := Some 8;
                 ev_pointer := pointer_at 0 0 0;
                 changedTouches := [pointer_at 11 0 0] |}
              init_scope).

(** ** Starting, moving and ending an action *)

(** The event [start] builds and delivers. *)
Definition start_event (s : Interaction) (action : Action) (elt : option Element)
    : InteractEvent :=
  mkInteractEvent (RawEvent <$> downEvent s) (name action) "start" elt (Some false).

(** [signalArg] of [start] *)
Definition start_signalArg (s : Interaction) (action : Action) (elt : option Element)
    : SignalArg :=
  {| sa_pointer := None; sa_pointerIndex := None;
     sa_event := Some (RawEvent <$> downEvent s); sa_eventTarget := None;
     sa_curEventTarget := None; sa_dx := None; sa_dy := None;
     sa_duplicate := None; sa_interactingBeforeMove := None;
     sa_iEvent := Some (start_event s action elt);
     sa_down := None; sa_pointerId := None; sa_preEnd := None |}.

(** The session once [start] has bound the action, the target and the
    element. *)
Definition started (s : Interaction) (action : Action) (t : Target)
    (elt : option Element) : Interaction :=
  set_interacting true
    (set_element elt
       (set_target (Some t) (set_prepared (copyAction (prepared s) action) s))).

(** [signalArg] of [doMove] once [utils.extend] has merged the argument over
    the defaults. *)
Definition doMove_signalArg (s : Interaction) (signalArg : option SignalArg) : SignalArg :=
  extend {| sa_pointer := Some (array_get 0 (pointers s)); sa_pointerIndex := None;
            sa_event := Some (ActionEvent <$> prevEvent s);
            sa_eventTarget := Some (_eventTarget s);
            sa_curEventTarget := None; sa_dx := None; sa_dy := None;
            sa_duplicate := None; sa_interactingBeforeMove := None;
            sa_iEvent := None; sa_down := None; sa_pointerId := None;
            sa_preEnd := None |}
         (default noArg signalArg).

(** The event [doMove] builds and delivers. *)
Definition move_event (s : Interaction) (signalArg : option SignalArg) : InteractEvent :=
  mkInteractEvent (mjoin (sa_event (doMove_signalArg s signalArg))) (name (prepared s))
    "move" (element s) (sa_preEnd (doMove_signalArg s signalArg)).

(** The session [stop] leaves. *)
Definition stopped (s : Interaction) : Interaction :=
  set_prepared {| name := None; axis := axis (prepared s); edges := edges (prepared s) |}
    (set_prevEvent None (set_interacting false (set_target None (set_element None s)))).

(** The payload of ['blur'] *)
Definition blur_signalArg (event : Event) : SignalArg :=
  {| sa_pointer := None; sa_pointerIndex := None;
     sa_event := Some (Some (RawEvent event)); sa_eventTarget := None;
     sa_curEventTarget := None; sa_dx := None; sa_dy := None;
     sa_duplicate := None; sa_interactingBeforeMove := None; sa_iEvent := None;
     sa_down := None; sa_pointerId := None; sa_preEnd := None |}.

(** ** What every call does and does not do *)

(** [log_grows c]: [c] only appends to the log. *)
Definition log_grows {B : Type} (c : M World B) : Prop :=
  forall w, exists rest, log (state_of (c w)) = log w ++ rest.

(** ** The registry, slot by slot *)

(** No hole, no identifier twice, and what [registry_ok] says; a mouse or pen
    session has at most one slot in each array. *)
Definition registry_tight (s : Interaction) : Prop :=
  registry_ok s
  /\ Forall is_Some (pointerIds s)
  /\ Forall is_Some (pointers s)
  /\ NoDup (pointerIds s)
  /\ (pointerType s <> touch ->
      (length (pointers s) <= 1)%nat /\ (length (downTimes s) <= 1)%nat).

(** A pointer-down for each element of [ds], in order. *)
Definition downs (ds : list (Env * Pointer * Event * EventTarget)) : list (Env * Op) :=
  (fun d => (d.1.1.1, OpPointerDown d.1.1.2 d.1.2 d.2)) <$> ds.

Definition down_pointers (ds : list (Env * Pointer * Event * EventTarget)) : list Pointer :=
  (fun d => d.1.1.2) <$> ds.

(** The value of [down] in [updatePointer]. *)
Definition is_down (event : option Event) (down : option bool) : bool :=
  default (down_default event) down.

(** What a first down records. *)
Definition down_record (s : Interaction)
    : Coords * Coords * Coords * bool * option Event * jsarray Z * jsarray EventTarget
      * option Pointer :=
  (startCoords s, curCoords s, prevCoords s, pointerWasMoved s, downEvent s,
   downTimes s, downTargets s, downPointer s).

(** The payload of ['update-pointer-down'] *)
Definition update_signalArg (pointer : Pointer) (event : option Event)
    (eventTarget : EventTarget) (index : nat) : SignalArg :=
  {| sa_pointer := Some (Some pointer); sa_pointerIndex := Some (Z.of_nat index);
     sa_event := Some (RawEvent <$> event); sa_eventTarget := Some eventTarget;
     sa_curEventTarget := None; sa_dx := None; sa_dy := None;
     sa_duplicate := None; sa_interactingBeforeMove := None; sa_iEvent := None;
     sa_down := Some true; sa_pointerId := Some (pointerId pointer); sa_preEnd := None |}.

(** ** The life cycle, as the target sees it *)

Definition ie_element (i : InteractEvent) : option Element :=
  match i with mkInteractEvent _ _ _ e _ => e end.

Definition ie_event (i : InteractEvent) : option AnyEvent :=
  match i with mkInteractEvent e _ _ _ _ => e end.

(** The constructor of lifecycle events returns whenever the session has a
    target and it is given an event. *)
Definition builds_when_bound (env : Env) : Prop :=
  forall s e, target s <> None -> ie_event e <> None -> constructs env s e = true.

(** The call has the event its lifecycle event is built from: [start] the
    down event, [doMove] the event of its argument or else the previous
    lifecycle event, [end] without an event the previous lifecycle event.
    [doMove] is called on a session that is interacting. *)
Definition event_given (op : Op) (s : Interaction) : Prop :=
  match op with
  | OpStart _ _ _ => downEvent s <> None
  | OpDoMove a => _interacting s = true /\ ie_event (move_event s a) <> None
  | OpEnd None => _interacting s = true -> prevEvent s <> None
  | _ => True
  end.

(** Every call of the sequence returns. *)
Fixpoint returns_all (cs : list (Env * Op)) (w : World) : Prop :=
  match cs with
  | [] => True
  | c :: r => returned (call c.1 c.2 w) = true /\ returns_all r (step c w)
  end.

(** The action in progress, read off the log: none, or the target and the
    last event delivered to it. *)
Definition Cycle : Type := option (Target * InteractEvent).

(** One entry of the log.  A ['start'] event opens a cycle and is delivered
    only when none is open; a ['move'] or ['end'] event is delivered only in
    an open cycle, to its target, with its action name and element, and not
    after an ['end'] event; ['stop'] closes the cycle.  [None] when the entry
    breaks these rules. *)
Definition track_entry (st : Cycle) (e : LogEntry) : option Cycle :=
  match e with
  | Signal n _ _ => if String.eqb n "stop" then Some None else Some st
  | Find _ _ => Some st
  | TargetFire t ie =>
      match st with
      | None =>
          if String.eqb (ie_phase ie) "start" then Some (Some (t, ie)) else None
      | Some (t0, prev) =>
          if (bool_decide (t = t0)
              && (String.eqb (ie_phase ie) "move" || String.eqb (ie_phase ie) "end")
              && negb (String.eqb (ie_phase prev) "end")
              && bool_decide (ie_actionName ie = ie_actionName prev)
              && bool_decide (ie_element ie = ie_element prev))%bool
          then Some (Some (t, ie))
          else None
      end
  end.

Fixpoint track (st : Cycle) (l : list LogEntry) : option Cycle :=
  match l with
  | [] => Some st
  | e :: r =>
      match track_entry st e with
      | Some st' => track st' r
      | None => None
      end
  end.

(** The session agrees with the cycle read off the log. *)
Definition agrees (st : Cycle) (s : Interaction) : Prop :=
  match st with
  | None => target s = None /\ prevEvent s = None
  | Some (t, ie) =>
      target s = Some t
      /\ prevEvent s = Some ie
      /\ _interacting s = true
      /\ ie_actionName ie = name (prepared s)
      /\ ie_element ie = element s
      /\ String.eqb (ie_phase ie) "end" = false
  end.

(** The fields [agrees] reads. *)
Definition life_fields (s : Interaction)
    : option Target * option InteractEvent * bool * option string * option Element :=
  (target s, prevEvent s, _interacting s, name (prepared s), element s).

(** [life n w]: the entries of the log of [w] from the [n]-th on obey the
    rules, and the session agrees with the cycle they leave. *)
Definition life (n : nat) (w : World) : Prop :=
  (n <= length (log w))%nat
  /\ exists st, track None (drop n (log w)) = Some st /\ agrees st (ia w).

(** [keeps_life n c]: [c] keeps [life n] when it returns. *)
Definition keeps_life {B : Type} (n : nat) (c : M World B) : Prop :=
  forall w, life n w -> returned (c w) = true -> life n (state_of (c w)).

(** ** The dispatcher, event by event *)

(** The event goes the way of touch events in [doOnInteractions]. *)
Definition touch_branch (pf : Platform) (event : Event) : bool :=
  (supportsTouch (browser pf) && is_touch_type (ev_type event))%bool.

(** [sc'] has the sessions of [sc], each of its type, followed by new
    sessions of type [pt]; its bus has grown; [prevTouchTime] is [t]. *)
Definition pool_extends (pt : PointerType) (t : Z) (sc sc' : Scope) : Prop :=
  (exists new, pointerType <$> interactions sc'
               = (pointerType <$> interactions sc) ++ replicate new pt)
  /\ (exists rest, signals sc' = signals sc ++ rest)
  /\ prevTouchTime sc' = t.

(** No listener of ['before-action-end'] returns [false]. *)
Definition end_unvetoed (env : Env) : Prop :=
  forall arg s, fire_result env "before-action-end" arg s = true.

(** The signals named [n] among [l]. *)
Definition count_signals (n : string) (l : list LogEntry) : nat :=
  length (filter (fun e => signal_name e = Some n) l).

(** ** Concrete sessions and pools *)

(** A session that is interacting though no target was given to [start]. *)
Definition mouse_unbound : World :=
  state_of (start (quiet 11) drag None (Some 7) mouse_pressed).

(** Two fingers go down, one after the other. *)
Definition touchstart_b : Event := event_at "touchstart" touch 12 5 5 12.

Definition two_touch_downs : list (Env * Pointer * Event * EventTarget) :=
  [(quiet 10, ev_pointer touchstart_a, touchstart_a, Some 7);
   (quiet 12, ev_pointer touchstart_b, touchstart_b, Some 9)].

Definition two_touches : World := run (downs two_touch_downs) (constructor touch []).

(** A touch start with two changed touches. *)
Definition touchstart_two : Event :=
  {| ev_type := "touchstart"; ev_timeStamp := 1000; ev_pointerType := touch;
     ev_target := Some 7; ev_currentTarget := Some 8;
     ev_pointer := pointer_at 0 0 0;
     changedTouches := [pointer_at 11 0 0; pointer_at 12 5 5] |}.

(** A browser with pointer events and no touch events. *)
Definition desktop (clock : Z) : Platform :=
  {| browser := {| supportsTouch := false; supportsPointerEvent := true |};
     now := clock;
     finder_search := fun _ _ => None;
     find_listeners := fun found _ _ => found;
     session_env := quiet clock |}.

(** A mouse event with time stamp 0, and a simulated mouse event. *)
Definition mousedown_unstamped : Event := event_at "mousedown" mouse 1 0 0 0.
Definition mousedown_simulated : Event := event_at "mousedown" mouse 1 0 0 1300.

(** A pool of a dragging mouse session and a touch session holding a
    contact. *)
Definition busy_pool : Scope :=
  {| interactions := [ia mouse_dragging; ia one_touch]; prevTouchTime := 0;
     signals := [] |}.

Definition blur_event : Event := event_at "blur" mouse 0 0 0 50.

(** The session a mouse down on an empty pool is matched with. *)
Definition first_session : Interaction :=
  default (newSession mouse)
    (interactions (state_of (collect_matches (desktop 20) mousedown_at_origin init_scope))
       !! 0%nat).

(** Press, start a drag, move and release. *)
Definition drag_and_release : list (Env * Op) :=
  press_then_drag
  ++ [(quiet 20, OpPointerMove (ev_pointer mousemove_far) mousemove_far (Some 7));
      (quiet 30, OpPointerUp (ev_pointer mouseup_far) mouseup_far (Some 7) (Some 8))].

(** * Properties *)

(** ** Tactics and basic facts *)

Ltac unfold_m :=
  unfold bind, ret, when, modify, get, fire, get_state, modify_state in *.

Lemma is_gesture_spec (action : Action) :
  is_gesture action = true <-> name action = Some "gesture".
Proof.
  unfold is_gesture. destruct (name action) as [n|].
  - rewrite String.eqb_eq. split; congruence.
  - split; discriminate.
Qed.

Lemma required_contacts_gate (action : Action) :
  (if is_gesture action then 2 else 1) = Z.of_nat (required_contacts action).
Proof.
  unfold required_contacts. destruct (is_gesture action) eqn:E.
  - apply is_gesture_spec in E. rewrite decide_True by done. done.
  - rewrite decide_False; [done|]. intros H. apply is_gesture_spec in H. congruence.
Qed.

(** The test on the squares is the comparison of the length with the
    tolerance. *)
Lemma hypot_gt_spec (dx dy tol : Z) :
  hypot_gt dx dy tol = true <-> (IZR tol < hypot dx dy)%R.
Proof.
  unfold hypot_gt, hypot.
  assert (Hnn : (0 <= IZR dx * IZR dx + IZR dy * IZR dy)%R) by nra.
  destruct (tol <? 0) eqn:Hneg.
  - apply Z.ltb_lt in Hneg. split; [intros _|done].
    apply IZR_lt in Hneg.
    pose proof (sqrt_pos (IZR dx * IZR dx + IZR dy * IZR dy)). lra.
  - apply Z.ltb_ge in Hneg. apply IZR_le in Hneg.
    rewrite Z.ltb_lt.
    rewrite <- (sqrt_square (IZR tol)) at 1 by exact Hneg.
    split.
    + intros H. apply sqrt_lt_1_alt. split; [nra|].
      apply IZR_lt in H. rewrite plus_IZR, !mult_IZR in H. exact H.
    + intros H. apply sqrt_lt_0_alt in H.
      apply lt_IZR. rewrite plus_IZR, !mult_IZR. exact H.
Qed.

(** ** C1: the gate of [start] *)

(** C1.  When the session is already interacting, or no pointer is down, or
    fewer contacts are held than the action asks for (2 for ['gesture'], 1
    otherwise), [start] returns at once: the session is the one it was
    ([_interacting], [prepared], [target], [element] and every other field),
    and the log is the one it was, so no signal, ['action-start'] included,
    was fired. *)
Theorem start_gate_is_silent (env : Env) (action : Action) (tgt : option Target)
    (elt : option Element) (w : World) :
  interacting (ia w) = true
  \/ pointerIsDown (ia w) = false
  \/ (length (pointerIds (ia w)) < required_contacts action)%nat ->
  start env action tgt elt w = Ret tt w
  /\ ia (state_of (start env action tgt elt w)) = ia w
  /\ log (state_of (start env action tgt elt w)) = log w
  /\ ~ fired "action-start" (drop (length (log w)) (log (state_of (start env action tgt elt w))))
  /\ (_interacting (ia w) = false ->
      _interacting (ia (state_of (start env action tgt elt w))) = false).
Proof.
  intros Hgate.
  assert (Hret : start env action tgt elt w = Ret tt w).
  { unfold start. unfold_m. rewrite required_contacts_gate.
    destruct Hgate as [H | [H | H]].
    - rewrite H. done.
    - rewrite H. cbn. rewrite orb_true_r. done.
    - assert (Hlt : (Z.of_nat (length (pointerIds (ia w)))
                       <? Z.of_nat (required_contacts action)) = true)
        by (apply Z.ltb_lt; lia).
      rewrite Hlt, orb_true_r. done. }
  rewrite Hret. cbn. repeat split; try done.
  rewrite drop_all. unfold fired. cbn. apply not_elem_of_nil.
Qed.

(** ** C2: a veto of ['before-action-end'] *)

(** C2.  On an interacting session for which the constructor builds the
    ['end'] event, so that the listeners of ['before-action-end'] are asked:
    when they answer [false], [end] returns with the session as it was but for
    [_ending], which is [false]: [_interacting] is still [true], [prepared],
    [target] and [element] are untouched.  The only signal fired is
    ['before-action-end']: neither ['action-end'] nor ['after-action-end'] nor
    the ['stop'] of [stop()].  A later [end] that is not vetoed, on a session
    whose target is bound and whose ['end'] event is built, runs to
    completion: it fires ['before-action-end'], ['action-end'], the target's
    [fire], ['after-action-end'] and ['stop'], and leaves the session not
    interacting. *)
Theorem end_veto_is_atomic (env env' : Env) (event event' : option Event) (w : World) :
  _interacting (ia w) = true ->
  constructs env (set_ending true (ia w)) (end_iEvent (set_ending true (ia w)) event)
  = true ->
  fire_result env "before-action-end"
    (end_signalArg (set_ending true (ia w)) event) (set_ending true (ia w)) = false ->
  let r := end_ env event w in
  let w1 := state_of r in
  returned r = true
  /\ ia w1 = set_ending false (ia w)
  /\ _interacting (ia w1) = true
  /\ prepared (ia w1) = prepared (ia w)
  /\ target (ia w1) = target (ia w)
  /\ element (ia w1) = element (ia w)
  /\ _ending (ia w1) = false
  /\ log w1 = log w ++ [Signal "before-action-end"
                          (end_signalArg (set_ending true (ia w)) event)
                          (set_ending true (ia w))]
  /\ ~ fired "action-end" (drop (length (log w)) (log w1))
  /\ ~ fired "after-action-end" (drop (length (log w)) (log w1))
  /\ ~ fired "stop" (drop (length (log w)) (log w1))
  /\ forall t : Target,
       target (ia w) = Some t ->
       constructs env' (set_ending true (ia w1)) (end_iEvent (set_ending true (ia w1)) event')
       = true ->
       fire_result env' "before-action-end"
         (end_signalArg (set_ending true (ia w1)) event') (set_ending true (ia w1)) = true ->
       let r' := end_ env' event' w1 in
       returned r' = true
       /\ _interacting (ia (state_of r')) = false
       /\ name (prepared (ia (state_of r'))) = None
       /\ _ending (ia (state_of r')) = false
       /\ log (state_of r') = log w1 ++ end_entries (ia w1) event' t.
Proof.
  intros Hint Hnew Hveto r w1.
  assert (Hr : r = Ret tt {| ia := set_ending false (ia w);
                            log := log w ++ [Signal "before-action-end"
                                     (end_signalArg (set_ending true (ia w)) event)
                                     (set_ending true (ia w))] |}).
  { subst r. unfold end_, _createPreparedEvent, end_iEvent in *. unfold_m. cbn.
    unfold interacting. cbn.
    rewrite Hint. cbn in Hnew |- *. rewrite Hnew. cbn. rewrite Hveto. cbn. reflexivity. }
  subst w1. rewrite Hr. cbn.
  split; [done|]. split; [done|]. split; [done|]. split; [done|].
  split; [done|]. split; [done|]. split; [done|]. split; [done|].
  rewrite drop_app_length. unfold fired. cbn.
  split; [|split; [|split]].
  - rewrite list_elem_of_singleton. discriminate.
  - rewrite list_elem_of_singleton. discriminate.
  - rewrite list_elem_of_singleton. discriminate.
  - intros t Ht Hnew' Hgo. unfold end_, _createPreparedEvent, end_iEvent in *.
    unfold_m. cbn. unfold interacting. cbn.
    rewrite Hint. cbn in Hnew', Hgo |- *. rewrite Hnew'. cbn. rewrite Hgo. cbn.
    unfold _fireEvent. cbn. rewrite Ht. cbn.
    repeat split; try done.
    rewrite <- !app_assoc. reflexivity.
Qed.

(** ** The opening of [pointerMove] *)

(** Taking the sample touches [pointers], [pointerIds] and [curCoords] only,
    and fires nothing. *)
Lemma take_sample_frame (env : Env) (p : Pointer) (ev : Event) (et : EventTarget)
    (w : World) :
  exists s1 : Interaction,
    take_sample env p ev et w = Ret tt {| ia := s1; log := log w |}
    /\ prevCoords s1 = prevCoords (ia w)
    /\ startCoords s1 = startCoords (ia w)
    /\ pointerDelta s1 = pointerDelta (ia w)
    /\ pointerIsDown s1 = pointerIsDown (ia w)
    /\ pointerWasMoved s1 = pointerWasMoved (ia w)
    /\ _interacting s1 = _interacting (ia w)
    /\ target s1 = target (ia w)
    /\ prepared s1 = prepared (ia w)
    /\ pointerType s1 = pointerType (ia w)
    /\ downTimes s1 = downTimes (ia w)
    /\ downTargets s1 = downTargets (ia w).
Proof.
  unfold take_sample, updatePointer. unfold_m. cbn.
  destruct w as [s l]. cbn.
  destruct (simulation s); cbn.
  - exists s. repeat split; reflexivity.
  - destruct (getPointerIndex s p =? -1); cbn;
      eexists; (split; [reflexivity|]); cbn; repeat split; reflexivity.
Qed.

Lemma duplicate_coords_spec (s : Interaction) :
  duplicate_coords (curCoords s) (prevCoords s) = true <-> is_duplicate s.
Proof.
  unfold duplicate_coords, is_duplicate.
  rewrite !andb_true_iff, !Z.eqb_eq. tauto.
Qed.

Lemma duplicate_coords_false (s : Interaction) :
  duplicate_coords (curCoords s) (prevCoords s) = false <-> ~ is_duplicate s.
Proof.
  rewrite <- duplicate_coords_spec. destruct (duplicate_coords _ _); split; done.
Qed.

Lemma bind_Ret {S A B : Type} (c : M S A) (k : A -> M S B) (s s' : S) (a : A) :
  c s = Ret a s' -> bind c k s = k a s'.
Proof. intros H. unfold bind. rewrite H. reflexivity. Qed.

Lemma bind_Throw {S A B : Type} (c : M S A) (k : A -> M S B) (s s' : S) :
  c s = Throw s' -> bind c k s = Throw s'.
Proof. intros H. unfold bind. rewrite H. reflexivity. Qed.

Ltac case_if :=
  match goal with
  | |- context [if ?b then _ else _] => destruct b eqn:?
  | |- context [match target ?s with _ => _ end] => destruct (target s) eqn:?
  end.

(** What [pointerMove] leaves, field by field, in terms of the sample. *)
Lemma pointerMove_effect (env : Env) (p : Pointer) (ev : Event) (et : EventTarget)
    (w : World) :
  let s1 := sample_of env p ev et w in
  let w' := state_of (pointerMove env p ev et w) in
  pointerWasMoved (ia w') = moved_after_check s1
  /\ pointerIsDown (ia w') = pointerIsDown s1
  /\ startCoords (ia w') = startCoords s1
  /\ curCoords (ia w') = curCoords s1
  /\ _interacting (ia w') = _interacting s1
  /\ pointerDelta (ia w') =
       (if duplicate_coords (curCoords s1) (prevCoords s1)
        then pointerDelta s1
        else setCoordDeltas (pointerDelta s1) (prevCoords s1) (curCoords s1))
  /\ (prevCoords (ia w') = prevCoords s1 \/
      (prevCoords (ia w') = curCoords s1
       /\ duplicate_coords (curCoords s1) (prevCoords s1) = false
       /\ moved_after_check s1 = true))
  /\ (returned (pointerMove env p ev et w) = true ->
      duplicate_coords (curCoords s1) (prevCoords s1) = false ->
      moved_after_check s1 = true ->
      prevCoords (ia w') = curCoords s1).
Proof.
  cbv zeta. unfold sample_of, pointerMove.
  destruct (take_sample_frame env p ev et w) as (s1 & Hs & _).
  rewrite (bind_Ret _ _ _ _ _ Hs), Hs. cbn [state_of ia].
  unfold moved_after_check.
  destruct (duplicate_coords (curCoords s1) (prevCoords s1)) eqn:Hdup;
    destruct (pointerIsDown s1 && negb (pointerWasMoved s1))%bool eqn:Hchk;
    unfold doMove, _fireEvent, interacting; unfold_m; cbn; rewrite ?Hdup, ?Hchk; cbn;
    repeat (case_if; cbn);
    repeat split; auto; try (intros; congruence);
    try (right; repeat split; congruence).
Qed.

(** ** C3: duplicate samples *)

(** C3.  When the coordinates of the sample equal the previous snapshot in
    page and in client space, [pointerMove] leaves [pointerDelta] as it was
    and fires ['move'] with [duplicate: true] and nothing else: [doMove] is
    not called, so neither ['before-action-move'] nor ['action-move'] is
    fired, interacting or not.  Otherwise ['move'] is fired with
    [duplicate: false] on a session whose [pointerDelta] is already the
    difference between the previous snapshot and the sample, and [doMove]
    follows exactly when the session is interacting. *)
Theorem pointerMove_duplicate_sample (env : Env) (p : Pointer) (ev : Event)
    (et : EventTarget) (w : World) :
  let s1 := sample_of env p ev et w in
  let r := pointerMove env p ev et w in
  (is_duplicate s1 ->
   returned r = true
   /\ pointerDelta (ia (state_of r)) = pointerDelta (ia w)
   /\ (exists arg s,
         log (state_of r) = log w ++ [Signal "move" arg s]
         /\ sa_duplicate arg = Some true
         /\ pointerDelta s = pointerDelta (ia w))
   /\ ~ fired "before-action-move" (drop (length (log w)) (log (state_of r)))
   /\ ~ fired "action-move" (drop (length (log w)) (log (state_of r))))
  /\ (~ is_duplicate s1 ->
      exists arg s rest,
        log (state_of r) = log w ++ Signal "move" arg s :: rest
        /\ sa_duplicate arg = Some false
        /\ pointerDelta s = setCoordDeltas (pointerDelta (ia w)) (prevCoords s1) (curCoords s1)
        /\ pointerDelta (ia (state_of r)) = pointerDelta s
        /\ (_interacting (ia w) = true ->
            exists a s', head rest = Some (Signal "before-action-move" a s'))
        /\ (_interacting (ia w) = false -> rest = [])).
Proof.
  cbv zeta. unfold sample_of, pointerMove.
  destruct (take_sample_frame env p ev et w)
    as (s1 & Hs & _ & _ & Hdelta & _ & _ & Hint & _).
  rewrite (bind_Ret _ _ _ _ _ Hs), Hs. cbn [state_of ia].
  rewrite <- Hdelta, <- Hint. clear Hdelta Hint Hs.
  split.
  - intros Hdup. apply duplicate_coords_spec in Hdup.
    unfold_m. cbn. rewrite Hdup. cbn.
    destruct (pointerIsDown s1 && negb (pointerWasMoved s1))%bool; cbn;
      (split; [done|]); (split; [done|]);
      (split; [eexists _, _; split; [reflexivity|]; split; reflexivity|]);
      rewrite drop_app_length; unfold fired; cbn;
      rewrite !list_elem_of_singleton; split; discriminate.
  - intros Hdup. apply duplicate_coords_false in Hdup.
    unfold doMove, _fireEvent, interacting. unfold_m. cbn. rewrite Hdup. cbn.
    destruct (pointerIsDown s1 && negb (pointerWasMoved s1))%bool; cbn;
      destruct (_interacting s1); cbn;
      repeat (case_if; cbn);
      eexists _, _, _; rewrite <- ?app_assoc; cbn;
      (split; [reflexivity|]); (split; [reflexivity|]);
      (split; [reflexivity|]); (split; [reflexivity|]);
      split; intros; try discriminate; try reflexivity; eexists _, _; reflexivity.
Qed.

(** ** Frames: what a call leaves alone *)

Section Frames.
Context {B : Type} (P : Interaction -> Prop).

Lemma preserves_ret (b : B) : preserves P (ret b).
Proof. intros w H. exact H. Qed.

Lemma preserves_throw : preserves P (@throw World B).
Proof. intros w H. exact H. Qed.

Lemma preserves_bind {A : Type} (c : M World A) (k : A -> M World B) :
  preserves P c -> (forall a, preserves P (k a)) -> preserves P (bind c k).
Proof.
  intros Hc Hk w H. unfold bind. specialize (Hc w H).
  destruct (c w) as [a w1|w1]; cbn in *; [by apply Hk|done].
Qed.

Lemma preserves_if (b : bool) (c1 c2 : M World B) :
  preserves P c1 -> preserves P c2 -> preserves P (if b then c1 else c2).
Proof. by destruct b. Qed.
End Frames.

Lemma preserves_get (P : Interaction -> Prop) : preserves P get.
Proof. intros w H. exact H. Qed.

Lemma preserves_fire (P : Interaction -> Prop) (env : Env) (n : string) (a : SignalArg) :
  preserves P (fire env n a).
Proof. intros w H. exact H. Qed.

Lemma preserves_modify (P : Interaction -> Prop) (g : Interaction -> Interaction) :
  (forall s, P s -> P (g s)) -> preserves P (modify g).
Proof. intros Hg w H. cbn. by apply Hg. Qed.

Lemma preserves_when (P : Interaction -> Prop) (b : bool) (c : M World unit) :
  preserves P c -> preserves P (when b c).
Proof. destruct b; [done|]. intros _ w H. exact H. Qed.

Lemma preserves_fireEvent (P : Interaction -> Prop) (i : InteractEvent) :
  (forall s v, P s -> P (set_prevEvent v s)) -> preserves P (_fireEvent i).
Proof.
  intros Hp w H. unfold _fireEvent. destruct (target (ia w)); cbn; [by apply Hp|done].
Qed.

Ltac frame_step :=
  first
    [ apply preserves_ret
    | apply preserves_get
    | apply preserves_fire
    | apply preserves_throw
    | apply preserves_fireEvent; intros ? ? ?; cbn in *; assumption
    | apply preserves_modify; intros ? ?; cbn in *; assumption
    | apply preserves_when
    | apply preserves_if
    | apply preserves_bind; [|intros ?] ].

Ltac frame :=
  unfold pointerDown, pointerUp, documentBlur, pointerMove, take_sample,
    updatePointer, removePointer, start, doMove, end_, stop, _updateEventTargets,
    _createPreparedEvent;
  cbv zeta; repeat frame_step.

Lemma start_keeps_motion env a t e v :
  preserves (fun s => motion s = v) (start env a t e).
Proof. unfold motion. frame. Qed.

Lemma doMove_keeps_motion env a v : preserves (fun s => motion s = v) (doMove env a).
Proof. unfold motion. frame. Qed.

Lemma end_keeps_motion env ev v : preserves (fun s => motion s = v) (end_ env ev).
Proof. unfold motion. frame. Qed.

Lemma stop_keeps_motion env v : preserves (fun s => motion s = v) (stop env).
Proof. unfold motion. frame. Qed.

Lemma removePointer_keeps_motion env p ev v :
  preserves (fun s => motion s = v) (removePointer env p ev).
Proof. unfold motion. frame. Qed.

Lemma pointerUp_keeps_motion env p ev et cet v :
  preserves (fun s => motion s = v) (pointerUp env p ev et cet).
Proof. unfold motion. frame. Qed.

Lemma documentBlur_keeps_motion env ev v :
  preserves (fun s => motion s = v) (documentBlur env ev).
Proof. unfold motion. frame. Qed.

Lemma updatePointer_keeps_action env p ev et d v :
  preserves (fun s => action_state s = v) (updatePointer env p ev et d).
Proof. unfold action_state. frame. Qed.

Lemma pointerDown_keeps_action env p ev et v :
  preserves (fun s => action_state s = v) (pointerDown env p ev et).
Proof. unfold action_state. frame. Qed.

Lemma removePointer_keeps_action env p ev v :
  preserves (fun s => action_state s = v) (removePointer env p ev).
Proof. unfold action_state. frame. Qed.

Lemma doMove_keeps_action env a v :
  preserves (fun s => action_state s = v) (doMove env a).
Proof. unfold action_state. frame. Qed.

Lemma pointerMove_keeps_action env p ev et v :
  preserves (fun s => action_state s = v) (pointerMove env p ev et).
Proof. unfold action_state. frame. Qed.

Lemma start_keeps_registry env a t e v :
  preserves (fun s => registry s = v) (start env a t e).
Proof. unfold registry. frame. Qed.

Lemma doMove_keeps_registry env a v :
  preserves (fun s => registry s = v) (doMove env a).
Proof. unfold registry. frame. Qed.

Lemma end_keeps_registry env ev v :
  preserves (fun s => registry s = v) (end_ env ev).
Proof. unfold registry. frame. Qed.

Lemma stop_keeps_registry env v : preserves (fun s => registry s = v) (stop env).
Proof. unfold registry. frame. Qed.

Lemma documentBlur_keeps_registry env ev v :
  preserves (fun s => registry s = v) (documentBlur env ev).
Proof. unfold registry. frame. Qed.

(** ** C4: [pointerWasMoved] *)

Lemma keeps_motion_pwm {B : Type} (c : M World B) (w : World) :
  (forall v, preserves (fun s => motion s = v) c) ->
  pointerWasMoved (ia (state_of (c w))) = pointerWasMoved (ia w).
Proof.
  intros H. specialize (H (motion (ia w)) w eq_refl).
  unfold motion in H. congruence.
Qed.

Lemma updatePointer_motion (env : Env) (p : Pointer) (ev : option Event)
    (et : EventTarget) (d : option bool) (w : World) :
  let s' := ia (state_of (updatePointer env p ev et d w)) in
  returned (updatePointer env p ev et d w) = true
  /\ pointerWasMoved s' =
       (if (default (down_default ev) d && negb (_interacting (ia w)))%bool
        then false else pointerWasMoved (ia w))
  /\ (pointerWasMoved s' = false ->
      (pointerWasMoved (ia w) = false -> prevCoords (ia w) = startCoords (ia w)) ->
      prevCoords s' = startCoords s').
Proof.
  unfold updatePointer, interacting. unfold_m. cbn.
  destruct (getPointerIndex (ia w) p =? -1); cbn;
    destruct (default (down_default ev) d); cbn;
    destruct (_interacting (ia w)); cbn; auto.
Qed.

(** The value of [pointerWasMoved] after any call. *)
Lemma step_pointerWasMoved (env : Env) (op : Op) (w : World) :
  pointerWasMoved (ia (step (env, op) w)) =
  match op with
  | OpPointerMove p ev et => moved_after_check (sample_of env p ev et w)
  | _ => if is_first_down op (ia w) then false else pointerWasMoved (ia w)
  end.
Proof.
  unfold step. cbn [fst snd]. destruct op; cbn [call is_first_down].
  - unfold pointerDown.
    pose proof (updatePointer_motion env pointer (Some event) eventTarget (Some true) w)
      as (Hret & Hpwm & _). cbv zeta in *.
    destruct (updatePointer env pointer (Some event) eventTarget (Some true) w)
      as [i w1|w1] eqn:Hu; [|discriminate].
    rewrite (bind_Ret _ _ _ _ _ Hu). cbn in *. exact Hpwm.
  - apply keeps_motion_pwm. intros v. apply start_keeps_motion.
  - apply pointerMove_effect.
  - apply keeps_motion_pwm. intros v. apply doMove_keeps_motion.
  - apply keeps_motion_pwm. intros v. apply pointerUp_keeps_motion.
  - apply keeps_motion_pwm. intros v. apply documentBlur_keeps_motion.
  - apply keeps_motion_pwm. intros v. apply end_keeps_motion.
  - apply keeps_motion_pwm. intros v. apply stop_keeps_motion.
  - pose proof (updatePointer_motion env pointer event eventTarget down w)
      as (Hret & Hpwm & _). cbv zeta in *.
    destruct (updatePointer env pointer event eventTarget down w)
      as [i w1|w1] eqn:Hu; [|discriminate].
    rewrite (bind_Ret _ _ _ _ _ Hu). cbn in *. exact Hpwm.
  - apply keeps_motion_pwm. intros v. apply removePointer_keeps_motion.
  - reflexivity.
Qed.

Lemma fall_is_first_down (env : Env) (op : Op) (w : World) :
  pointerWasMoved (ia w) = true ->
  pointerWasMoved (ia (step (env, op) w)) = false ->
  is_first_down op (ia w) = true.
Proof.
  intros Hbefore Hafter. rewrite step_pointerWasMoved in Hafter.
  destruct op; cbn [is_first_down] in *;
    try (destruct (negb _); congruence);
    try (destruct (_ && _)%bool; congruence);
    try congruence.
  unfold moved_after_check in Hafter.
  destruct (take_sample_frame env pointer event eventTarget w)
    as (s1 & Hs & _ & _ & _ & _ & Hpwm & _).
  unfold sample_of in Hafter. rewrite Hs in Hafter. cbn in Hafter.
  rewrite Hpwm, Hbefore, andb_false_r in Hafter. discriminate.
Qed.

Lemma rises_bounded (cs : list (Env * Op)) (w : World) :
  (rises cs w + (if pointerWasMoved (ia w) then 1 else 0)
   <= first_downs cs w + 1)%nat.
Proof.
  revert w. induction cs as [|[env op] r IH]; intros w; cbn [rises first_downs snd].
  - destruct (pointerWasMoved (ia w)); lia.
  - specialize (IH (step (env, op) w)).
    destruct (pointerWasMoved (ia w)) eqn:Hb; cbn [negb andb].
    + destruct (pointerWasMoved (ia (step (env, op) w))) eqn:Ha.
      * destruct (is_first_down op (ia w)); lia.
      * rewrite (fall_is_first_down env op w Hb Ha). lia.
    + destruct (pointerWasMoved (ia (step (env, op) w))); lia.
Qed.

(** C4.  [pointerWasMoved] goes from [false] to [true] only in a
    [pointerMove], with [pointerIsDown] true, whose sample lies further than
    the tolerance 1 from the start position in client space; it goes from
    [true] to [false] only in a pointer-down ([pointerDown], or
    [updatePointer] with a true [down]) on a session that is not interacting;
    so between two such downs it goes from [false] to [true] at most once. *)
Theorem pointerWasMoved_transitions :
  (forall env op w,
     pointerWasMoved (ia w) = false ->
     pointerWasMoved (ia (step (env, op) w)) = true ->
     exists p ev et,
       op = OpPointerMove p ev et
       /\ pointerIsDown (ia w) = true
       /\ pointerIsDown (sample_of env p ev et w) = true
       /\ (IZR pointerMoveTolerance
           < hypot (x (client (curCoords (sample_of env p ev et w)))
                    - x (client (startCoords (sample_of env p ev et w))))
                   (y (client (curCoords (sample_of env p ev et w)))
                    - y (client (startCoords (sample_of env p ev et w)))))%R)
  /\ (forall env op w,
        pointerWasMoved (ia w) = true ->
        pointerWasMoved (ia (step (env, op) w)) = false ->
        is_first_down op (ia w) = true)
  /\ (forall cs w, (rises cs w <= first_downs cs w + 1)%nat)
  /\ (forall cs w, first_downs cs w = 0%nat -> (rises cs w <= 1)%nat).
Proof.
  split; [|split; [|split]].
  - intros env op w Hbefore Hafter. rewrite step_pointerWasMoved in Hafter.
    destruct op; cbn [is_first_down] in *;
      try (destruct (negb _); congruence);
      try (destruct (_ && _)%bool; congruence);
      try congruence.
    exists pointer, event, eventTarget. split; [reflexivity|].
    unfold moved_after_check in Hafter.
    destruct (take_sample_frame env pointer event eventTarget w)
      as (s1 & Hs & _ & _ & _ & Hdown & Hpwm & _).
    unfold sample_of in *. rewrite Hs in *. cbn [state_of ia] in *.
    rewrite Hpwm, Hbefore in Hafter.
    destruct (pointerIsDown s1) eqn:Hd; cbn in Hafter; [|discriminate].
    split; [congruence|]. split; [reflexivity|].
    by apply hypot_gt_spec.
  - apply fall_is_first_down.
  - intros cs w. pose proof (rises_bounded cs w).
    destruct (pointerWasMoved (ia w)); lia.
  - intros cs w H0. pose proof (rises_bounded cs w).
    destruct (pointerWasMoved (ia w)); lia.
Qed.

(** ** C5: interacting and the prepared action *)

Lemma preserves_of_keeps {A B : Type} (f : Interaction -> A) (P : Interaction -> Prop)
    (c : M World B) :
  (forall v, preserves (fun s => f s = v) c) ->
  (forall s s', f s = f s' -> P s -> P s') ->
  preserves P c.
Proof.
  intros Hk Hp w H. apply (Hp (ia w)); [|exact H].
  symmetry. exact (Hk (f (ia w)) w eq_refl).
Qed.

Lemma named_of_action_state (s s' : Interaction) :
  action_state s = action_state s' ->
  named_when_interacting s -> named_when_interacting s'.
Proof.
  unfold action_state, named_when_interacting. intros H Hn Hi.
  replace (prepared s') with (prepared s) by congruence.
  apply Hn. congruence.
Qed.

Lemma stop_clears (env : Env) (w : World) :
  returned (stop env w) = true
  /\ _interacting (ia (state_of (stop env w))) = false
  /\ name (prepared (ia (state_of (stop env w)))) = None
  /\ target (ia (state_of (stop env w))) = None
  /\ element (ia (state_of (stop env w))) = None
  /\ prevEvent (ia (state_of (stop env w))) = None.
Proof. unfold stop. unfold_m. cbn. done. Qed.

Lemma stop_named env : preserves named_when_interacting (stop env).
Proof.
  intros w _ H. destruct (stop_clears env w) as (_ & Hi & _). congruence.
Qed.

Lemma end_named env ev : preserves named_when_interacting (end_ env ev).
Proof.
  intros w H. unfold named_when_interacting in *.
  unfold end_, stop, _fireEvent, interacting. unfold_m. cbn.
  repeat (case_if; cbn); try exact H; try discriminate; intros _; by apply H.
Qed.

Lemma start_named env a t e :
  name a <> None -> preserves named_when_interacting (start env a t e).
Proof.
  intros Ha w H. unfold named_when_interacting in *.
  unfold start, _fireEvent, interacting. unfold_m. cbn.
  destruct t; repeat (case_if; cbn); try exact H; try (intros _; exact Ha);
    intros _; by apply H.
Qed.

(** A property of the action fields that [stop], [end] and a permitted
    [start] preserve is preserved by every permitted call. *)
Lemma call_action_invariant (P : Interaction -> Prop) (ok : Op -> Prop) :
  (forall s s', action_state s = action_state s' -> P s -> P s') ->
  (forall env, preserves P (stop env)) ->
  (forall env ev, preserves P (end_ env ev)) ->
  (forall env a t e, ok (OpStart a t e) -> preserves P (start env a t e)) ->
  forall env op, ok op -> preserves P (call env op).
Proof.
  intros Hact Hstop Hend Hstart env op Hop. destruct op; cbn [call].
  - eapply preserves_of_keeps; [intros v; apply pointerDown_keeps_action|exact Hact].
  - by apply Hstart.
  - eapply preserves_of_keeps; [intros v; apply pointerMove_keeps_action|exact Hact].
  - eapply preserves_of_keeps; [intros v; apply doMove_keeps_action|exact Hact].
  - unfold pointerUp. cbv zeta.
    apply preserves_bind; [apply preserves_get|intros s].
    apply preserves_bind; [apply preserves_fire|intros _].
    apply preserves_bind; [apply preserves_get|intros s'].
    apply preserves_bind; [apply preserves_when, Hend|intros _].
    apply preserves_bind.
    { apply preserves_modify. intros s0. by apply Hact. }
    intros _.
    eapply preserves_of_keeps; [intros v; apply removePointer_keeps_action|exact Hact].
  - unfold documentBlur.
    apply preserves_bind; [apply Hend|intros _].
    apply preserves_bind; [apply preserves_fire|intros _]. apply preserves_ret.
  - apply Hend.
  - apply Hstop.
  - apply preserves_bind; [|intros; apply preserves_ret].
    eapply preserves_of_keeps; [intros v; apply updatePointer_keeps_action|exact Hact].
  - eapply preserves_of_keeps; [intros v; apply removePointer_keeps_action|exact Hact].
  - apply preserves_modify. intros s0. by apply Hact.
Qed.

Lemma call_named (env : Env) (op : Op) :
  named_start op -> preserves named_when_interacting (call env op).
Proof.
  apply (call_action_invariant named_when_interacting named_start).
  - apply named_of_action_state.
  - apply stop_named.
  - apply end_named.
  - intros env' a t e. apply start_named.
Qed.

Lemma call_bound (env : Env) (op : Op) :
  bound_start op -> preserves bound_when_interacting (call env op).
Proof.
  apply (call_action_invariant bound_when_interacting bound_start).
  - unfold action_state, bound_when_interacting. intros s s' H Hb Hi.
    replace (target s') with (target s) by congruence. apply Hb. congruence.
  - intros env' w _ H. destruct (stop_clears env' w) as (_ & Hi & _). congruence.
  - intros env' ev w H. unfold bound_when_interacting in *.
    unfold end_, stop, _fireEvent, interacting. unfold_m. cbn.
    repeat (case_if; cbn); try exact H; try discriminate;
      try (by destruct (H eq_refl)); intros _; by apply H.
  - intros env' a t e Ht w H. unfold bound_when_interacting in *.
    unfold start, _fireEvent, interacting. unfold_m. cbn. cbn in Ht.
    destruct t; [|done]. repeat (case_if; cbn); try exact H; try done;
      intros _; by apply H.
Qed.

Lemma run_invariant (P : Interaction -> Prop) (ok : Op -> Prop) :
  (forall env op, ok op -> preserves P (call env op)) ->
  forall cs w, Forall (fun c => ok (snd c)) cs -> P (ia w) -> P (ia (run cs w)).
Proof.
  intros Hstep cs. induction cs as [|[env op] r IH]; intros w Hok HP; [exact HP|].
  inversion Hok as [|? ? Hop Hr]; subst. cbn [run fold_left].
  apply IH; [exact Hr|]. unfold step. cbn [fst snd] in *. by apply Hstep.
Qed.

(** On a session driven from its creation by calls whose [start] is given an
    Interactable, interacting sessions have their target bound: [end] can
    deliver its event. *)
Lemma interacting_has_target (pt : PointerType) (bus : list LogEntry)
    (cs : list (Env * Op)) :
  Forall (fun c => bound_start (snd c)) cs ->
  _interacting (ia (run cs (constructor pt bus))) = true ->
  exists t, target (ia (run cs (constructor pt bus))) = Some t.
Proof.
  intros Hcs Hi.
  assert (H : bound_when_interacting (ia (run cs (constructor pt bus)))).
  { apply (run_invariant bound_when_interacting bound_start); [|exact Hcs|].
    - intros env op. apply call_bound.
    - intros H. discriminate. }
  specialize (H Hi). destruct (target _) as [t|]; [by exists t|done].
Qed.

(** C5 as it stands fails: [start] takes the name it is given. *)
Lemma interacting_unnamed_counterexample :
  ~ (forall w, reachable w ->
       _interacting (ia w) = true -> name (prepared (ia w)) <> None).
Proof.
  intros H.
  pose (md := event_at "mousedown" mouse 1 0 0 10).
  pose (cs := [(quiet 10, OpPointerDown (ev_pointer md) md (Some 7));
               (quiet 11, OpStart unnamed (Some 3) (Some 7))]).
  assert (Hw : reachable (run cs (constructor mouse []))) by (by exists mouse, [], cs).
  assert (Hi : _interacting (ia (run cs (constructor mouse []))) = true)
    by (vm_compute; reflexivity).
  apply (H _ Hw Hi). vm_compute. reflexivity.
Qed.

(** C5, amended.  In every state reached from a new session by calls in which
    [start] is given an action whose name is not [null], [_interacting] is
    true only while [prepared.name] is not [null]; and [stop] clears both in
    the same call: it returns with [_interacting] false and [prepared.name]
    [null]. *)
Theorem interacting_has_action_name :
  (forall pt bus cs,
     Forall (fun c => named_start (snd c)) cs ->
     _interacting (ia (run cs (constructor pt bus))) = true ->
     name (prepared (ia (run cs (constructor pt bus)))) <> None)
  /\ (forall env w,
        returned (stop env w) = true
        /\ _interacting (ia (state_of (stop env w))) = false
        /\ name (prepared (ia (state_of (stop env w)))) = None).
Proof.
  split.
  - intros pt bus cs Hcs.
    apply (run_invariant named_when_interacting named_start); [|exact Hcs|].
    + intros env op. apply call_named.
    + intros H. discriminate.
  - intros env w. destruct (stop_clears env w) as (H1 & H2 & H3 & _). done.
Qed.

(** ** Facts about JavaScript arrays *)

Section Arrays.
Context {A : Type}.
Implicit Types a : jsarray A.

Lemma length_array_set (i : nat) (v : A) a :
  length (array_set i v a) = (length a `max` S i)%nat.
Proof.
  unfold array_set. case_decide.
  - rewrite length_insert. lia.
  - rewrite !length_app, length_replicate. cbn. lia.
Qed.

Lemma length_splice1 (i : nat) a :
  length (splice1 i a) =
  if decide (i < length a)%nat then (length a - 1)%nat else length a.
Proof.
  unfold splice1. case_decide as Hi.
  - apply length_delete. by apply lookup_lt_is_Some.
  - f_equal. revert i Hi. induction a as [|s a IH]; intros [|i] Hi; cbn in *;
      try done; try lia. f_equal. apply IH. lia.
Qed.

Lemma splice1_ge (i : nat) a : (length a <= i)%nat -> splice1 i a = a.
Proof.
  unfold splice1. revert i. induction a as [|s a IH]; intros [|i] Hi; cbn in *;
    try done; try lia. f_equal. apply IH. lia.
Qed.

Lemma array_set_id (i : nat) (v : A) a : a !! i = Some (Some v) -> array_set i v a = a.
Proof.
  intros H. unfold array_set. rewrite decide_True by (by eapply lookup_lt_Some).
  by apply list_insert_id.
Qed.

Lemma lookup_array_set (i : nat) (v : A) a : array_set i v a !! i = Some (Some v).
Proof.
  unfold array_set. case_decide as Hi.
  - by apply list_lookup_insert_eq.
  - rewrite lookup_app_r by lia. rewrite lookup_app_r by (rewrite length_replicate; lia).
    rewrite length_replicate. replace (i - length a - (i - length a))%nat with 0%nat by lia.
    reflexivity.
Qed.

Lemma fmap_array_set {B : Type} (f : A -> B) (i : nat) (v : A) a :
  fmap (M := option) f <$> array_set i v a
  = array_set i (f v) (fmap (M := option) f <$> a).
Proof.
  unfold array_set. rewrite length_fmap. case_decide.
  - by rewrite list_fmap_insert.
  - by rewrite !fmap_app, fmap_replicate.
Qed.
End Arrays.

Lemma shape_length {A B : Type} (a : jsarray A) (b : jsarray B) :
  shape a = shape b -> length a = length b.
Proof. unfold shape. intros H. apply (f_equal length) in H. by rewrite !length_fmap in H. Qed.

Lemma shape_array_set {A B : Type} (i : nat) (v : A) (v' : B) (a : jsarray A)
    (b : jsarray B) :
  shape a = shape b -> shape (array_set i v a) = shape (array_set i v' b).
Proof.
  intros H. pose proof (shape_length a b H) as Hl. unfold shape, array_set in *.
  rewrite Hl. case_decide.
  - rewrite !list_fmap_insert. cbn. by rewrite H.
  - rewrite !fmap_app, !fmap_replicate. cbn. by rewrite H.
Qed.

Lemma shape_splice1 {A B : Type} (i : nat) (a : jsarray A) (b : jsarray B) :
  shape a = shape b -> shape (splice1 i a) = shape (splice1 i b).
Proof. unfold shape, splice1. intros H. by rewrite !list_fmap_delete, H. Qed.

Section IndexOf.
Context {A : Type} `{EqDecision A}.
Implicit Types a : jsarray A.

Lemma indexOf_absent a (v : A) : indexOf a v = -1 <-> Some v ∉ a.
Proof.
  unfold indexOf.
  destruct (list_find (fun slot => slot = Some v) a) as [[i s]|] eqn:Hf.
  - split; [lia|]. intros Hn. apply list_find_Some in Hf as (Hl & -> & _).
    contradict Hn. by eapply list_elem_of_lookup_2.
  - split; [intros _|done]. apply list_find_None in Hf.
    intros Hin. rewrite list.Forall_forall in Hf. by apply (Hf _ Hin).
Qed.

Lemma indexOf_found a (v : A) :
  indexOf a v <> -1 ->
  exists i : nat,
    indexOf a v = Z.of_nat i
    /\ a !! i = Some (Some v)
    /\ forall j, (j < i)%nat -> a !! j <> Some (Some v).
Proof.
  unfold indexOf.
  destruct (list_find (fun slot => slot = Some v) a) as [[i s]|] eqn:Hf; [|done].
  intros _. apply list_find_Some in Hf as (Hl & -> & Hfirst).
  exists i. split; [done|]. split; [done|].
  intros j Hj Hlj. by apply (Hfirst j (Some v)).
Qed.
End IndexOf.

(** ** C6: the four parallel arrays *)

Lemma registry_ok_of_registry (s s' : Interaction) :
  registry s = registry s' -> registry_ok s -> registry_ok s'.
Proof.
  unfold registry, registry_ok. intros H.
  replace (downTimes s') with (downTimes s) by congruence.
  replace (downTargets s') with (downTargets s) by congruence.
  replace (pointerIds s') with (pointerIds s) by congruence.
  replace (pointers s') with (pointers s) by congruence.
  replace (pointerType s') with (pointerType s) by congruence.
  done.
Qed.

Lemma getPointerIndex_cases (s : Interaction) (p : Pointer) :
  (pointerType s <> touch /\ getPointerIndex s p = 0)
  \/ (pointerType s = touch /\ getPointerIndex s p = -1
      /\ Some (pointerId p) ∉ pointerIds s)
  \/ (pointerType s = touch
      /\ exists i : nat,
           getPointerIndex s p = Z.of_nat i
           /\ pointerIds s !! i = Some (Some (pointerId p))
           /\ forall j, (j < i)%nat -> pointerIds s !! j <> Some (Some (pointerId p))).
Proof.
  unfold getPointerIndex. destruct (pointerType s) eqn:Hpt.
  - left. done.
  - left. done.
  - right. destruct (decide (indexOf (pointerIds s) (pointerId p) = -1)) as [H|H].
    + left. split; [done|]. split; [done|]. by apply indexOf_absent.
    + right. split; [done|]. by apply indexOf_found.
Qed.

Lemma updatePointer_registry_ok env p ev et d :
  preserves registry_ok (updatePointer env p ev et d).
Proof.
  unfold preserves, registry_ok. intros w (Hshape & Hdt & Hids & Htouch).
  pose proof (shape_length _ _ Hshape) as Hlen.
  unfold updatePointer, interacting. unfold_m. cbn.
  destruct (getPointerIndex_cases (ia w) p)
    as [(Hpt & ->) | [(Hpt & -> & _) | (Hpt & i & -> & Hi & _)]]; cbn [Z.eqb].
  - (* mouse or pen: slot 0 *)
    destruct (default (down_default ev) d); cbn;
      [destruct (_interacting (ia w)); cbn|];
      (split; [first [exact Hshape | by apply shape_array_set]|]);
      rewrite ?length_array_set; (split; [lia|]); (split; [lia|]); done.
  - (* touch, unknown identifier: a new slot *)
    specialize (Htouch Hpt).
    assert (Hl : length (pointerIds (ia w)) = length (pointers (ia w)))
      by (rewrite Htouch; by rewrite length_fmap).
    destruct (default (down_default ev) d); cbn;
      [destruct (_interacting (ia w)); cbn|];
      (split; [first [exact Hshape | by apply shape_array_set]|]);
      rewrite ?length_array_set; (split; [lia|]); (split; [lia|]);
      intros _; rewrite ?fmap_array_set, <- Htouch, ?Hl; reflexivity.
  - (* touch, known identifier *)
    specialize (Htouch Hpt).
    assert (Hne : (Z.of_nat i =? -1) = false) by (apply Z.eqb_neq; lia).
    rewrite Hne, Nat2Z.id. cbn.
    destruct (default (down_default ev) d); cbn;
      [destruct (_interacting (ia w)); cbn|];
      (split; [first [exact Hshape | by apply shape_array_set]|]);
      rewrite ?length_array_set; (split; [lia|]); (split; [lia|]);
      intros _; rewrite ?fmap_array_set, <- Htouch, ?(array_set_id _ _ _ Hi);
      reflexivity.
Qed.

Lemma removePointer_registry_ok env p ev :
  preserves registry_ok (removePointer env p ev).
Proof.
  unfold preserves, registry_ok. intros w (Hshape & Hdt & Hids & Htouch).
  pose proof (shape_length _ _ Hshape) as Hlen.
  unfold removePointer. unfold_m. cbn.
  destruct (getPointerIndex_cases (ia w) p)
    as [(Hpt & ->) | [(Hpt & -> & _) | (Hpt & i & -> & Hi & _)]]; cbn [Z.eqb].
  - cbn. split; [by apply shape_splice1|].
    rewrite !length_splice1. repeat case_decide; (split; [lia|]); (split; [lia|]); done.
  - cbn. done.
  - assert (Hne : (Z.of_nat i =? -1) = false) by (apply Z.eqb_neq; lia).
    rewrite Hne, Nat2Z.id. cbn. split; [by apply shape_splice1|].
    rewrite !length_splice1. specialize (Htouch Hpt).
    repeat case_decide; (split; [lia|]); (split; [lia|]); intros _;
      unfold splice1; rewrite list_fmap_delete; by rewrite <- Htouch.
Qed.




(** ** C7: when the previous snapshot moves *)

Lemma at_start_of_motion (s s' : Interaction) :
  motion s = motion s' -> at_start_until_moved s -> at_start_until_moved s'.
Proof.
  unfold motion, at_start_until_moved. intros H Hs Hm.
  replace (prevCoords s') with (prevCoords s) by congruence.
  replace (startCoords s') with (startCoords s) by congruence.
  apply Hs. congruence.
Qed.

Lemma updatePointer_at_start env p ev et d :
  preserves at_start_until_moved (updatePointer env p ev et d).
Proof.
  intros w H. unfold at_start_until_moved in *.
  destruct (updatePointer_motion env p ev et d w) as (_ & _ & Hkeep).
  intros Hm. by apply Hkeep.
Qed.

Lemma pointerMove_at_start env p ev et :
  preserves at_start_until_moved (pointerMove env p ev et).
Proof.
  intros w H. unfold at_start_until_moved in *. intros Hm.
  destruct (pointerMove_effect env p ev et w)
    as (Hmoved & _ & Hstart & _ & _ & _ & Hprev & _).
  cbv zeta in *.
  destruct (take_sample_frame env p ev et w)
    as (s1 & Hs & Hp & Hst & _ & _ & Hpwm & _).
  unfold sample_of in *. rewrite Hs in *. cbn [state_of ia] in *.
  rewrite Hmoved in Hm. rewrite Hstart, Hst.
  destruct Hprev as [Hprev | (_ & _ & Hprev)]; [|congruence].
  rewrite Hprev, Hp. apply H.
  unfold moved_after_check in Hm. rewrite Hpwm in Hm.
  destruct (pointerWasMoved (ia w)); [|done].
  by rewrite andb_false_r in Hm.
Qed.

Lemma call_at_start (env : Env) (op : Op) :
  preserves at_start_until_moved (call env op).
Proof.
  pose proof at_start_of_motion as Hm.
  destruct op; cbn [call].
  - unfold pointerDown.
    apply preserves_bind; [apply updatePointer_at_start|intros i].
    apply preserves_bind; [apply preserves_fire|intros _]. apply preserves_ret.
  - eapply preserves_of_keeps; [intros v; apply start_keeps_motion|exact Hm].
  - apply pointerMove_at_start.
  - eapply preserves_of_keeps; [intros v; apply doMove_keeps_motion|exact Hm].
  - eapply preserves_of_keeps; [intros v; apply pointerUp_keeps_motion|exact Hm].
  - eapply preserves_of_keeps; [intros v; apply documentBlur_keeps_motion|exact Hm].
  - eapply preserves_of_keeps; [intros v; apply end_keeps_motion|exact Hm].
  - eapply preserves_of_keeps; [intros v; apply stop_keeps_motion|exact Hm].
  - apply preserves_bind; [apply updatePointer_at_start|intros; apply preserves_ret].
  - eapply preserves_of_keeps; [intros v; apply removePointer_keeps_motion|exact Hm].
  - apply preserves_modify. intros s H. exact H.
Qed.

Lemma reachable_at_start (w : World) :
  reachable w -> at_start_until_moved (ia w).
Proof.
  intros (pt & bus & cs & ->).
  apply (run_invariant at_start_until_moved (fun _ => True)).
  - intros env op _. apply call_at_start.
  - apply Forall_true. done.
  - intros _. reflexivity.
Qed.

(** C7.  After [pointerMove], [pointerWasMoved] is what the tolerance check of
    that call made it.  On a duplicate sample, and whenever [pointerWasMoved]
    is then [false], [prevCoords] is what it was.  [prevCoords] changes only
    on a sample that is not a duplicate with [pointerWasMoved] then [true],
    and it becomes the current snapshot; this is what happens on every such
    sample whose call returns.  A [prevCoords] equal to [startCoords] stays so
    through every move that leaves [pointerWasMoved] [false]; on a session
    driven from its creation, [prevCoords] is [startCoords], the position of
    the down, for as long as [pointerWasMoved] is [false]. *)
Theorem pointerMove_rolls_prevCoords (env : Env) (p : Pointer) (ev : Event)
    (et : EventTarget) (w : World) :
  let s1 := sample_of env p ev et w in
  let r := pointerMove env p ev et w in
  let w' := state_of r in
  pointerWasMoved (ia w') = moved_after_check s1
  /\ (is_duplicate s1 -> prevCoords (ia w') = prevCoords (ia w))
  /\ (pointerWasMoved (ia w') = false -> prevCoords (ia w') = prevCoords (ia w))
  /\ (prevCoords (ia w') <> prevCoords (ia w) ->
      ~ is_duplicate s1
      /\ pointerWasMoved (ia w') = true
      /\ prevCoords (ia w') = curCoords (ia w'))
  /\ (~ is_duplicate s1 -> pointerWasMoved (ia w') = true -> returned r = true ->
      prevCoords (ia w') = curCoords (ia w'))
  /\ (prevCoords (ia w) = startCoords (ia w) -> pointerWasMoved (ia w') = false ->
      prevCoords (ia w') = startCoords (ia w'))
  /\ (reachable w -> pointerWasMoved (ia w') = false ->
      prevCoords (ia w') = startCoords (ia w') /\ prevCoords (ia w') = prevCoords (ia w)).
Proof.
  cbv zeta.
  destruct (pointerMove_effect env p ev et w)
    as (Hmoved & _ & Hstart & Hcur & _ & _ & Hprev & Hroll).
  cbv zeta in *.
  assert (Hp : prevCoords (sample_of env p ev et w) = prevCoords (ia w)
               /\ startCoords (sample_of env p ev et w) = startCoords (ia w)).
  { unfold sample_of.
    destruct (take_sample_frame env p ev et w) as (s1 & Hs & Hp & Hst & _).
    rewrite Hs. cbn. done. }
  destruct Hp as [Hp Hst].
  split; [exact Hmoved|].
  split.
  { intros Hdup. apply duplicate_coords_spec in Hdup.
    destruct Hprev as [H | (_ & H & _)]; congruence. }
  split.
  { intros Hpwm. destruct Hprev as [H | (_ & _ & H)]; congruence. }
  split.
  { intros Hne. destruct Hprev as [H | (H1 & H2 & H3)]; [congruence|].
    split; [by apply duplicate_coords_false|]. split; congruence. }
  split.
  { intros Hdup Hpwm Hret. apply duplicate_coords_false in Hdup.
    rewrite Hcur. apply Hroll; congruence. }
  split.
  { intros Heq Hpwm. rewrite Hstart, Hst.
    destruct Hprev as [H | (_ & _ & H)]; congruence. }
  intros Hreach Hpwm. split.
  - apply (pointerMove_at_start env p ev et w); [|exact Hpwm].
    by apply reachable_at_start.
  - destruct Hprev as [H | (_ & _ & H)]; congruence.
Qed.

(** ** C8: the order of [pointerUp] *)
















Lemma getPointerIndex_of_registry (s s' : Interaction) (p : Pointer) :
  registry s' = registry s -> getPointerIndex s' p = getPointerIndex s p.
Proof.
  unfold registry, getPointerIndex. intros [= _ Hids _ _ Hpt _]. by rewrite Hids, Hpt.
Qed.



(** ** C9: [removePointer] *)

(** Splicing keeps the order of what remains. *)
Lemma splice1_lookup {A : Type} (i j : nat) (a : jsarray A) :
  splice1 i a !! j = a !! (if decide (j < i)%nat then j else S j).
Proof. apply list_lookup_delete. Qed.

(** C9 as it stands fails: on a mouse session the index is 0 whatever the
    identifier.  After a move without a down the registry holds no identifier,
    yet removing the pointer fires ['remove-pointer'] and empties [pointers]. *)
Lemma removePointer_absent_counterexample :
  ~ (forall env p ev w,
       reachable w ->
       Some (pointerId p) ∉ pointerIds (ia w) ->
       removePointer env p ev w = Ret tt w).
Proof.
  intros H.
  pose (mm := event_at "mousemove" mouse 1 5 5 20).
  pose (cs := [(quiet 20, OpPointerMove (ev_pointer mm) mm (Some 7))]).
  specialize (H (quiet 30) (ev_pointer mm) None (run cs (constructor mouse []))).
  assert (Hw : reachable (run cs (constructor mouse []))) by (by exists mouse, [], cs).
  specialize (H Hw).
  assert (Habs : Some (pointerId (ev_pointer mm))
                   ∉ pointerIds (ia (run cs (constructor mouse [])))).
  { vm_compute. apply not_elem_of_nil. }
  specialize (H Habs). vm_compute in H. discriminate.
Qed.

(** C9, amended.  On a touch session [removePointer] is a complete no-op when
    the identifier of the pointer is absent from [pointerIds]: the session
    and the log are what they were.  When the identifier is present, and on a
    mouse or pen session always, with index 0 whatever the identifier, it
    fires ['remove-pointer'] with the index (on a touch session the first
    slot of [pointerIds] holding the identifier) and splices exactly that
    index out of [pointers], [pointerIds], [downTargets] and [downTimes]; the
    slots before it stay and the slots after it move down by one. *)
Theorem removePointer_splices (env : Env) (p : Pointer) (ev : option Event) (w : World) :
  (pointerType (ia w) = touch ->
   Some (pointerId p) ∉ pointerIds (ia w) ->
   removePointer env p ev w = Ret tt w)
  /\ (pointerType (ia w) <> touch \/ Some (pointerId p) ∈ pointerIds (ia w) ->
      exists i : nat,
        getPointerIndex (ia w) p = Z.of_nat i
        /\ (pointerType (ia w) <> touch -> i = 0%nat)
        /\ (pointerType (ia w) = touch ->
            pointerIds (ia w) !! i = Some (Some (pointerId p))
            /\ forall j, (j < i)%nat -> pointerIds (ia w) !! j <> Some (Some (pointerId p)))
        /\ removePointer env p ev w
           = Ret tt {| ia := spliced i (ia w);
                       log := log w ++ [Signal "remove-pointer"
                                          (remove_signalArg p ev (Z.of_nat i)) (ia w)] |}
        /\ (forall j,
              pointers (spliced i (ia w)) !! j
                = pointers (ia w) !! (if decide (j < i)%nat then j else S j)
              /\ pointerIds (spliced i (ia w)) !! j
                 = pointerIds (ia w) !! (if decide (j < i)%nat then j else S j)
              /\ downTargets (spliced i (ia w)) !! j
                 = downTargets (ia w) !! (if decide (j < i)%nat then j else S j)
              /\ downTimes (spliced i (ia w)) !! j
                 = downTimes (ia w) !! (if decide (j < i)%nat then j else S j))).
Proof.
  split.
  - intros Hpt Habs. unfold removePointer. unfold_m. cbn.
    destruct (getPointerIndex_cases (ia w) p)
      as [(Hpt' & _) | [(_ & -> & _) | (_ & i & _ & Hi & _)]].
    + done.
    + reflexivity.
    + contradict Habs. by eapply list_elem_of_lookup_2.
  - intros Hcase.
    assert (Hidx : exists i : nat,
               getPointerIndex (ia w) p = Z.of_nat i
               /\ (pointerType (ia w) <> touch -> i = 0%nat)
               /\ (pointerType (ia w) = touch ->
                   pointerIds (ia w) !! i = Some (Some (pointerId p))
                   /\ forall j, (j < i)%nat ->
                        pointerIds (ia w) !! j <> Some (Some (pointerId p)))).
    { destruct (getPointerIndex_cases (ia w) p)
        as [(Hpt & Hi) | [(Hpt & _ & Habs) | (Hpt & i & Hi & Hl & Hfirst)]].
      - exists 0%nat. split; [done|]. split; [done|]. done.
      - destruct Hcase as [Hc|Hc]; done.
      - exists i. split; [done|]. split; [done|]. done. }
    destruct Hidx as (i & Hi & Hz & Ht). exists i.
    split; [exact Hi|]. split; [exact Hz|]. split; [exact Ht|]. split.
    + unfold removePointer. unfold_m. cbn. rewrite Hi.
      assert (Hne : (Z.of_nat i =? -1) = false) by (apply Z.eqb_neq; lia).
      rewrite Hne, Nat2Z.id. reflexivity.
    + intros j. cbn. rewrite !splice1_lookup. done.
Qed.

(** ** C10: mouse events the dispatcher drops *)

Lemma touch_active_true (l : list Interaction) : touch_active l true = true.
Proof. by destruct l. Qed.

Lemma touch_active_spec (l : list Interaction) :
  touch_active l false = true <->
  exists s, s ∈ l /\ pointerType s <> mouse /\ pointerIsDown s = true.
Proof.
  induction l as [|s l IH]; cbn [touch_active].
  - split; [done|]. intros (s & Hin & _). by apply not_elem_of_nil in Hin.
  - destruct (bool_decide (pointerType s <> mouse) && pointerIsDown s)%bool eqn:E.
    + rewrite touch_active_true. split; [intros _|done].
      apply andb_true_iff in E as [Hpt Hd]. apply bool_decide_eq_true in Hpt.
      exists s. split; [apply list_elem_of_here|done].
    + rewrite IH. split.
      * intros (s' & Hin & H). exists s'. split; [by apply list_elem_of_further|done].
      * intros (s' & Hin & Hpt & Hd). apply elem_of_cons in Hin as [->|Hin].
        -- apply andb_false_iff in E as [E|E]; [|congruence].
           apply bool_decide_eq_false in E. done.
        -- by exists s'.
Qed.

Lemma invalidPointer_spec (pf : Platform) (event : Event) (sc : Scope) :
  (touch_active (interactions sc) false
   || (now pf - prevTouchTime sc <? 500)
   || (ev_timeStamp event =? 0))%bool = true
  <-> is_dropped pf event sc.
Proof.
  unfold is_dropped.
  rewrite !orb_true_iff, touch_active_spec, Z.ltb_lt, Z.eqb_eq. tauto.
Qed.

(** C10.  For an event whose type is a mouse type, on a platform without
    pointer events: when a session that is not a mouse session has a pointer
    down, or the event comes less than 500 ms after the last touch event, or
    its time stamp is 0, the dispatcher resolves nothing and calls nothing:
    the list of matches is empty and the scope, its pool and its bus, is what
    it was.  Otherwise exactly one session is matched, the one the finder and
    the listeners of ['find'] give or, for want of one, a new session pushed
    on the pool, and the method is called on that session alone. *)
Theorem mouse_event_filter (pf : Platform) (method : Method) (event : Event) (sc : Scope) :
  supportsPointerEvent (browser pf) = false ->
  is_mouse_type (ev_type event) = true ->
  (supportsTouch (browser pf) && is_touch_type (ev_type event))%bool = false ->
  (is_dropped pf event sc ->
   collect_matches pf event sc = Ret [] sc
   /\ doOnInteractions pf method event sc = Ret tt sc)
  /\ (~ is_dropped pf event sc ->
      collect_matches pf event sc
        = Ret [(ev_pointer event, fst (resolved pf event sc))] (snd (resolved pf event sc))
      /\ doOnInteractions pf method event sc
         = on_session (fst (resolved pf event sc))
             (_updateEventTargets (ev_target event) (ev_currentTarget event) ;;
              apply_method (session_env pf) method (ev_pointer event) event
                (ev_target event) (ev_currentTarget event))
             (snd (resolved pf event sc))).
Proof.
  intros Hpe Hmouse Htouch.
  assert (Hcollect :
    collect_matches pf event sc =
    if (touch_active (interactions sc) false
        || (now pf - prevTouchTime sc <? 500)
        || (ev_timeStamp event =? 0))%bool
    then Ret [] sc
    else Ret [(ev_pointer event, fst (resolved pf event sc))]
             (snd (resolved pf event sc))).
  { unfold collect_matches. rewrite Htouch, Hpe, Hmouse. cbn [negb andb].
    unfold bind at 1. unfold get_state at 1.
    destruct (touch_active (interactions sc) false
              || (now pf - prevTouchTime sc <? 500)
              || (ev_timeStamp event =? 0))%bool; cbn [negb]; [reflexivity|].
    unfold resolved, getInteraction, newInteraction, constructor. unfold_m. cbn.
    destruct (find_listeners pf _ _ _); cbn; rewrite <- ?app_assoc; reflexivity. }
  split.
  - intros Hdrop. apply invalidPointer_spec in Hdrop. rewrite Hdrop in Hcollect.
    split; [exact Hcollect|].
    unfold doOnInteractions. cbv zeta. rewrite (bind_Ret _ _ _ _ _ Hcollect).
    reflexivity.
  - intros Hkeep.
    assert (Hb : (touch_active (interactions sc) false
                  || (now pf - prevTouchTime sc <? 500)
                  || (ev_timeStamp event =? 0))%bool = false).
    { destruct (touch_active _ _ || _ || _)%bool eqn:E; [|done].
      contradict Hkeep. by apply invalidPointer_spec. }
    rewrite Hb in Hcollect. split; [exact Hcollect|].
    unfold doOnInteractions. cbv zeta. rewrite (bind_Ret _ _ _ _ _ Hcollect).
    cbn [for_each fst snd]. unfold bind at 1.
    destruct (on_session _ _ _) as [[] s'|s']; reflexivity.
Qed.

(** ** The theorems at concrete sessions *)

(** The first scenario of the specification: a mouse goes down at the origin,
    a drag is started, the mouse moves to (5, 5) and goes up.  The signals,
    in order (the target's [fire] being [None]), and the idle session left. *)
Example mouse_drag_signals :
  signal_name <$> log (run [(quiet 20, OpPointerMove (ev_pointer mousemove_far)
                                         mousemove_far (Some 7));
                            (quiet 30, OpPointerUp (ev_pointer mouseup_far) mouseup_far
                                         (Some 7) (Some 8))]
                         mouse_dragging)
  = [Some "new"; Some "update-pointer-down"; Some "down";
     Some "action-start"; None; Some "after-action-start";
     Some "move"; Some "before-action-move"; Some "action-move"; None;
     Some "after-action-move";
     Some "up"; Some "before-action-end"; Some "action-end"; None;
     Some "after-action-end"; Some "stop"; Some "remove-pointer"].
Proof. vm_compute. reflexivity. Qed.

Example mouse_drag_ends_idle :
  let s := ia (run [(quiet 20, OpPointerMove (ev_pointer mousemove_far)
                                 mousemove_far (Some 7));
                    (quiet 30, OpPointerUp (ev_pointer mouseup_far) mouseup_far
                                 (Some 7) (Some 8))]
                 mouse_dragging) in
  (_interacting s, name (prepared s), pointerIsDown s, pointers s, pointerIds s,
   downTimes s, downTargets s)
  = (false, None, false, [], [], [], []).
Proof. vm_compute. reflexivity. Qed.

(** The second scenario: two touches start a gesture; a third touch, arriving
    while the gesture runs, leaves it running, and is recorded in [pointers]
    and [pointerIds] but not in [downTimes] and [downTargets]. *)
Example third_touch_during_gesture :
  let touchstart_b := event_at "touchstart" touch 12 10 0 11 in
  let touchstart_c := event_at "touchstart" touch 13 20 0 13 in
  let s := ia (run [(quiet 11, OpPointerDown (ev_pointer touchstart_b) touchstart_b (Some 7));
                    (quiet 12, OpStart gesture (Some 3) (Some 7));
                    (quiet 13, OpPointerDown (ev_pointer touchstart_c) touchstart_c (Some 7))]
                 one_touch) in
  (currentAction s, length (pointers s), length (pointerIds s),
   length (downTimes s), length (downTargets s))
  = (Some "gesture", 3%nat, 3%nat, 2%nat, 2%nat).
Proof. vm_compute. reflexivity. Qed.

Lemma start_gate_is_silent_witness :
  (length (pointerIds (ia one_touch)) < required_contacts gesture)%nat
  /\ start (quiet 11) gesture (Some 3) (Some 7) one_touch = Ret tt one_touch.
Proof.
  assert (H : (length (pointerIds (ia one_touch)) < required_contacts gesture)%nat)
    by (vm_compute; lia).
  split; [exact H|].
  apply (start_gate_is_silent (quiet 11) gesture (Some 3) (Some 7) one_touch).
  right. right. exact H.
Defined.

Lemma end_veto_is_atomic_witness :
  _interacting (ia mouse_dragging) = true
  /\ _interacting (ia (state_of (end_ (vetoing "before-action-end" 30) None mouse_dragging)))
     = true
  /\ _interacting
       (ia (state_of
              (end_ (quiet 40) None
                 (state_of (end_ (vetoing "before-action-end" 30) None mouse_dragging)))))
     = false.
Proof.
  assert (H1 : _interacting (ia mouse_dragging) = true) by (vm_compute; reflexivity).
  assert (H2 : fire_result (vetoing "before-action-end" 30) "before-action-end"
                 (end_signalArg (set_ending true (ia mouse_dragging)) None)
                 (set_ending true (ia mouse_dragging)) = false)
    by (vm_compute; reflexivity).
  assert (H3 : target (ia mouse_dragging) = Some 3) by (vm_compute; reflexivity).
  assert (H4 : constructs (vetoing "before-action-end" 30)
                 (set_ending true (ia mouse_dragging))
                 (end_iEvent (set_ending true (ia mouse_dragging)) None) = true)
    by (vm_compute; reflexivity).
  assert (H5 : constructs (quiet 40)
                 (set_ending true
                    (ia (state_of (end_ (vetoing "before-action-end" 30) None
                                     mouse_dragging))))
                 (end_iEvent
                    (set_ending true
                       (ia (state_of (end_ (vetoing "before-action-end" 30) None
                                        mouse_dragging)))) None) = true)
    by (vm_compute; reflexivity).
  destruct (end_veto_is_atomic (vetoing "before-action-end" 30) (quiet 40) None None
              mouse_dragging H1 H4 H2)
    as (_ & _ & Hstill & _ & _ & _ & _ & _ & _ & _ & _ & Hlater).
  split; [exact H1|]. split; [exact Hstill|].
  destruct (Hlater 3 H3 H5 eq_refl) as (_ & Hdone & _).
  exact Hdone.
Defined.

Lemma pointerMove_duplicate_sample_witness :
  is_duplicate (sample_of (quiet 12) (ev_pointer mousedown_at_origin) mousedown_at_origin
                  (Some 7) mouse_dragging)
  /\ ~ fired "action-move"
       (drop (length (log mouse_dragging))
          (log (state_of (pointerMove (quiet 12) (ev_pointer mousedown_at_origin)
                            mousedown_at_origin (Some 7) mouse_dragging)))).
Proof.
  assert (H : is_duplicate (sample_of (quiet 12) (ev_pointer mousedown_at_origin)
                              mousedown_at_origin (Some 7) mouse_dragging))
    by (vm_compute; done).
  split; [exact H|].
  destruct (pointerMove_duplicate_sample (quiet 12) (ev_pointer mousedown_at_origin)
              mousedown_at_origin (Some 7) mouse_dragging) as [Hdup _].
  destruct (Hdup H) as (_ & _ & _ & _ & Hno). exact Hno.
Defined.

Lemma pointerWasMoved_transitions_witness :
  pointerWasMoved (ia mouse_pressed) = false
  /\ pointerWasMoved
       (ia (step (quiet 20, OpPointerMove (ev_pointer mousemove_far) mousemove_far (Some 7))
              mouse_pressed)) = true
  /\ exists p ev et,
       OpPointerMove (ev_pointer mousemove_far) mousemove_far (Some 7) = OpPointerMove p ev et
       /\ pointerIsDown (ia mouse_pressed) = true
       /\ pointerIsDown (sample_of (quiet 20) p ev et mouse_pressed) = true
       /\ (IZR pointerMoveTolerance
           < hypot (x (client (curCoords (sample_of (quiet 20) p ev et mouse_pressed)))
                    - x (client (startCoords (sample_of (quiet 20) p ev et mouse_pressed))))
                   (y (client (curCoords (sample_of (quiet 20) p ev et mouse_pressed)))
                    - y (client (startCoords (sample_of (quiet 20) p ev et mouse_pressed)))))%R.
Proof.
  assert (H1 : pointerWasMoved (ia mouse_pressed) = false) by (vm_compute; reflexivity).
  assert (H2 : pointerWasMoved
                 (ia (step (quiet 20,
                            OpPointerMove (ev_pointer mousemove_far) mousemove_far (Some 7))
                        mouse_pressed)) = true) by (vm_compute; reflexivity).
  split; [exact H1|]. split; [exact H2|].
  exact (proj1 pointerWasMoved_transitions (quiet 20)
           (OpPointerMove (ev_pointer mousemove_far) mousemove_far (Some 7))
           mouse_pressed H1 H2).
Defined.

Lemma interacting_has_action_name_witness :
  Forall (fun c : Env * Op => named_start (snd c)) press_then_drag
  /\ _interacting (ia (run press_then_drag (constructor mouse []))) = true
  /\ name (prepared (ia (run press_then_drag (constructor mouse [])))) <> None.
Proof.
  assert (H : Forall (fun c : Env * Op => named_start (snd c)) press_then_drag).
  { constructor; [exact I|]. constructor; [discriminate|]. constructor. }
  assert (Hi : _interacting (ia (run press_then_drag (constructor mouse []))) = true)
    by (vm_compute; reflexivity).
  split; [exact H|]. split; [exact Hi|].
  exact (proj1 interacting_has_action_name mouse [] press_then_drag H Hi).
Defined.


Lemma pointerMove_rolls_prevCoords_witness :
  pointerWasMoved
    (ia (state_of (pointerMove (quiet 12) (pointer_at 1 1 0)
                     (event_at "mousemove" mouse 1 1 0 12) (Some 7) mouse_pressed))) = false
  /\ prevCoords
       (ia (state_of (pointerMove (quiet 12) (pointer_at 1 1 0)
                        (event_at "mousemove" mouse 1 1 0 12) (Some 7) mouse_pressed)))
     = prevCoords (ia mouse_pressed).
Proof.
  assert (H : pointerWasMoved
                (ia (state_of (pointerMove (quiet 12) (pointer_at 1 1 0)
                                 (event_at "mousemove" mouse 1 1 0 12) (Some 7)
                                 mouse_pressed))) = false)
    by (vm_compute; reflexivity).
  split; [exact H|].
  destruct (pointerMove_rolls_prevCoords (quiet 12) (pointer_at 1 1 0)
              (event_at "mousemove" mouse 1 1 0 12) (Some 7) mouse_pressed)
    as (_ & _ & Hkeep & _).
  exact (Hkeep H).
Defined.


Lemma removePointer_splices_witness :
  pointerType (ia one_touch) = touch
  /\ (Some (pointerId (pointer_at 12 0 0)) ∉ pointerIds (ia one_touch))
  /\ removePointer (quiet 20) (pointer_at 12 0 0) None one_touch = Ret tt one_touch.
Proof.
  assert (H : Some (pointerId (pointer_at 12 0 0)) ∉ pointerIds (ia one_touch)).
  { vm_compute. intros Hin. apply list_elem_of_singleton in Hin. discriminate. }
  assert (Ht : pointerType (ia one_touch) = touch) by (vm_compute; reflexivity).
  split; [exact Ht|]. split; [exact H|].
  exact (proj1 (removePointer_splices (quiet 20) (pointer_at 12 0 0) None one_touch)
           Ht H).
Defined.

(** A mouse event two seconds after the touch start is kept if the touch is
    no longer down: here the touch session still holds its pointer, so the
    event is dropped whatever the clock says; on an empty pool the same event
    makes a new mouse session. *)
Example mouse_event_during_touch :
  doOnInteractions (phone 3000) m_pointerDown (event_at "mousedown" mouse 1 0 0 3000)
    after_touchstart
  = Ret tt after_touchstart.
Proof. vm_compute. reflexivity. Qed.

Example mouse_event_on_empty_pool :
  let sc := state_of (doOnInteractions (phone 3000) m_pointerDown
                        (event_at "mousedown" mouse 1 0 0 3000) init_scope) in
  (pointerType <$> interactions sc, pointerIsDown <$> interactions sc,
   signal_name <$> signals sc)
  = ([mouse], [true], [Some "find"; Some "new"; Some "update-pointer-down"; Some "down"]).
Proof. vm_compute. reflexivity. Qed.

Lemma mouse_event_filter_witness :
  is_dropped (phone 1300) (event_at "mousedown" mouse 1 0 0 1300) after_touchstart
  /\ doOnInteractions (phone 1300) m_pointerDown (event_at "mousedown" mouse 1 0 0 1300)
       after_touchstart
     = Ret tt after_touchstart.
Proof.
  assert (H : is_dropped (phone 1300) (event_at "mousedown" mouse 1 0 0 1300)
                after_touchstart).
  { right. left. vm_compute. reflexivity. }
  split; [exact H|].
  assert (Hm : is_mouse_type (ev_type (event_at "mousedown" mouse 1 0 0 1300)) = true)
    by (vm_compute; reflexivity).
  assert (Ht : (supportsTouch (browser (phone 1300))
                && is_touch_type (ev_type (event_at "mousedown" mouse 1 0 0 1300)))%bool
               = false) by (vm_compute; reflexivity).
  exact (proj2 (proj1 (mouse_event_filter (phone 1300) m_pointerDown
                         (event_at "mousedown" mouse 1 0 0 1300) after_touchstart
                         eq_refl Hm Ht) H)).
Defined.

(** * Further properties of the session *)

(** ** [start], [doMove], [end] and [documentBlur] *)

(** Rewrite the answer of the constructor with a hypothesis that states it
    up to unfolding. *)
Ltac use_constructs H :=
  match goal with
  | |- context [constructs ?e ?a ?b] =>
      let E := fresh "E" in
      assert (E : constructs e a b = _) by exact H; rewrite E; clear E
  end.

(** X1.  On a session that is not interacting, with a pointer down and as many
    contacts held as the action asks for, [start] with an Interactable binds
    [prepared], [target] and [element], sets [_interacting] and asks the
    constructor for the ['start'] event, built from the down event.  When the
    constructor returns, [start] returns: [currentAction()] is the name of
    the action, [prepared] holds its name, axis and edges, [target] and
    [element] are the ones given; it has fired ['action-start'], delivered
    the event to the target and fired ['after-action-start'], in this order;
    the delivered event is [prevEvent]; a second [start], whatever its
    arguments, then does nothing.  When the constructor throws, [start]
    throws with no signal fired and nothing undone: the session is
    interacting, bound to the target, with the [prevEvent] it had. *)
Theorem start_starts (env env' : Env) (action action' : Action) (t : Target)
    (t' : option Target) (elt elt' : option Element) (w : World) :
  _interacting (ia w) = false ->
  pointerIsDown (ia w) = true ->
  (required_contacts action <= length (pointerIds (ia w)))%nat ->
  let ev := start_event (ia w) action elt in
  let s1 := started (ia w) action t elt in
  let w' := {| ia := set_prevEvent (Some ev) s1;
               log := log w ++ [Signal "action-start" (start_signalArg (ia w) action elt) s1;
                                TargetFire t ev;
                                Signal "after-action-start"
                                  (start_signalArg (ia w) action elt)
                                  (set_prevEvent (Some ev) s1)] |} in
  (constructs env s1 ev = true ->
   start env action (Some t) elt w = Ret tt w'
   /\ currentAction (ia w') = name action
   /\ name (prepared (ia w')) = name action
   /\ axis (prepared (ia w')) = axis action
   /\ edges (prepared (ia w')) = edges action
   /\ target (ia w') = Some t
   /\ element (ia w') = elt
   /\ prevEvent (ia w') = Some ev
   /\ registry (ia w') = registry (ia w)
   /\ motion (ia w') = motion (ia w)
   /\ start env' action' t' elt' w' = Ret tt w')
  /\ (constructs env s1 ev = false ->
      start env action (Some t) elt w = Throw {| ia := s1; log := log w |}
      /\ _interacting s1 = true
      /\ target s1 = Some t
      /\ prevEvent s1 = prevEvent (ia w)).
Proof.
  intros Hn Hd Hc. cbv zeta.
  assert (Hgate : (Z.of_nat (length (pointerIds (ia w)))
                     <? (if is_gesture action then 2 else 1)) = false).
  { rewrite required_contacts_gate. apply Z.ltb_ge. lia. }
  split.
  - intros Hnew. split.
    { unfold start, _fireEvent, _createPreparedEvent, interacting. unfold_m. cbn.
      rewrite Hn, Hd, Hgate. cbn. use_constructs Hnew. cbn.
      rewrite <- !app_assoc. reflexivity. }
    repeat (split; [reflexivity|]).
    unfold start, interacting. unfold_m. cbn. reflexivity.
  - intros Hnew. split; [|repeat split].
    unfold start, _fireEvent, _createPreparedEvent, interacting. unfold_m. cbn.
    rewrite Hn, Hd, Hgate. cbn. use_constructs Hnew. reflexivity.
Qed.

(** X2.  When a listener of ['before-action-move'] returns [false], [doMove]
    returns having done nothing else: the session, [prevEvent] included, is
    what it was, and the log has gained ['before-action-move'] alone - no
    event is delivered to the target, neither ['action-move'] nor
    ['after-action-move'] is fired. *)
Theorem doMove_veto (env : Env) (signalArg : option SignalArg) (w : World) :
  fire_result env "before-action-move" (doMove_signalArg (ia w) signalArg) (ia w) = false ->
  doMove env signalArg w
  = Ret tt {| ia := ia w;
              log := log w ++ [Signal "before-action-move"
                                 (doMove_signalArg (ia w) signalArg) (ia w)] |}.
Proof.
  intros Hveto. unfold doMove. unfold_m. cbn.
  change (extend _ (default noArg signalArg)) with (doMove_signalArg (ia w) signalArg).
  rewrite Hveto. reflexivity.
Qed.

(** X3.  When no listener of ['before-action-move'] returns [false], the
    constructor builds the ['move'] event and the session has a target,
    [doMove] fires ['before-action-move'] and
    ['action-move'], delivers a ['move'] event to the target and fires
    ['after-action-move'], in this order.  The event carries the prepared
    action name and the element of the session; it becomes [prevEvent], and
    nothing else of the session changes.  Called without an argument, [doMove]
    builds the event from the previous lifecycle event and tells the
    listeners the first held pointer and the last event target; an argument
    coming from [pointerMove] overrides all three. *)
Theorem doMove_delivers (env : Env) (signalArg : option SignalArg) (t : Target) (w : World) :
  fire_result env "before-action-move" (doMove_signalArg (ia w) signalArg) (ia w) = true ->
  constructs env (ia w) (move_event (ia w) signalArg) = true ->
  target (ia w) = Some t ->
  let arg := doMove_signalArg (ia w) signalArg in
  let moveEvent := move_event (ia w) signalArg in
  doMove env signalArg w
  = Ret tt {| ia := set_prevEvent (Some moveEvent) (ia w);
              log := log w ++ [Signal "before-action-move" arg (ia w);
                               Signal "action-move" (with_iEvent moveEvent arg) (ia w);
                               TargetFire t moveEvent;
                               Signal "after-action-move" (with_iEvent moveEvent arg)
                                 (set_prevEvent (Some moveEvent) (ia w))] |}
  /\ ie_actionName moveEvent = name (prepared (ia w))
  /\ ie_phase moveEvent = "move"
  /\ (signalArg = None ->
      moveEvent = mkInteractEvent (ActionEvent <$> prevEvent (ia w))
                    (name (prepared (ia w))) "move" (element (ia w)) None
      /\ sa_pointer arg = Some (array_get 0 (pointers (ia w)))
      /\ sa_eventTarget arg = Some (_eventTarget (ia w)))
  /\ (forall a p ev et,
        signalArg = Some a -> sa_pointer a = Some p -> sa_event a = Some ev ->
        sa_eventTarget a = Some et ->
        sa_pointer arg = Some p /\ sa_eventTarget arg = Some et
        /\ moveEvent = mkInteractEvent ev (name (prepared (ia w))) "move"
                         (element (ia w)) (sa_preEnd a)).
Proof.
  intros Hgo Hnew Ht. cbv zeta. split.
  { unfold doMove, _fireEvent, _createPreparedEvent. unfold_m. cbn.
    change (extend _ (default noArg signalArg)) with (doMove_signalArg (ia w) signalArg).
    rewrite Hgo. cbn. use_constructs Hnew. cbn. rewrite Ht. cbn.
    rewrite <- !app_assoc. reflexivity. }
  split; [reflexivity|]. split; [reflexivity|]. split.
  - intros ->. repeat split; reflexivity.
  - intros a p ev et -> Hp He Het. unfold move_event, doMove_signalArg. cbn.
    rewrite Hp, He, Het. cbn. repeat split; try reflexivity.
    destruct (sa_preEnd a); reflexivity.
Qed.

(** X4.  When the constructor throws on the ['move'] event, an unvetoed
    [doMove] throws once ['before-action-move'] is fired: ['action-move'] is
    not fired, nothing is delivered, and the session is left as it was. *)
Theorem doMove_throws_before_action_move (env : Env) (signalArg : option SignalArg)
    (w : World) :
  fire_result env "before-action-move" (doMove_signalArg (ia w) signalArg) (ia w) = true ->
  constructs env (ia w) (move_event (ia w) signalArg) = false ->
  doMove env signalArg w
  = Throw {| ia := ia w;
             log := log w ++ [Signal "before-action-move"
                                (doMove_signalArg (ia w) signalArg) (ia w)] |}.
Proof.
  intros Hgo Hnew. unfold doMove, _fireEvent, _createPreparedEvent. unfold_m. cbn.
  change (extend _ (default noArg signalArg)) with (doMove_signalArg (ia w) signalArg).
  rewrite Hgo. cbn. use_constructs Hnew. reflexivity.
Qed.

(** X5.  On a session that is not interacting, [end] goes straight to [stop]:
    the one signal fired is ['stop'], the session is cleared ([target],
    [element], [prevEvent] and [prepared.name] are [null], [_ending] is
    [false]) and the contact registry is untouched.  A further [end] leaves
    this session as it is. *)
Theorem end_when_idle (env env' : Env) (ev ev' : option Event) (w : World) :
  _interacting (ia w) = false ->
  let w' := {| ia := stopped (set_ending false (ia w));
               log := log w ++ [Signal "stop" noArg (set_ending false (ia w))] |} in
  end_ env ev w = Ret tt w'
  /\ registry (ia w') = registry (ia w)
  /\ motion (ia w') = motion (ia w)
  /\ ia (state_of (end_ env' ev' w')) = ia w'.
Proof.
  intros Hn. cbv zeta.
  split.
  { unfold end_, stop, interacting. unfold_m. cbn. rewrite Hn. cbn. reflexivity. }
  split; [reflexivity|]. split; [reflexivity|].
  unfold end_, stop, interacting. unfold_m. cbn. reflexivity.
Qed.

(** X6.  Whenever [end] returns, the guard [_ending] is [false].  [end] throws
    on an interacting session only, and there in two cases: the constructor
    throws on the ['end'] event; or it builds the event, no listener of
    ['before-action-end'] returns [false], and the session has no target.
    When the constructor throws, no listener has been asked: no signal is
    fired, and the session is left interacting with [_ending] still [true]. *)
Theorem end_guard (env : Env) (ev : option Event) (w : World) :
  let r := end_ env ev w in
  let s1 := set_ending true (ia w) in
  (returned r = true -> _ending (ia (state_of r)) = false)
  /\ (returned r = false <->
      _interacting (ia w) = true
      /\ (constructs env s1 (end_iEvent s1 ev) = false
          \/ (fire_result env "before-action-end" (end_signalArg s1 ev) s1 = true
              /\ target (ia w) = None)))
  /\ (_interacting (ia w) = true ->
      constructs env s1 (end_iEvent s1 ev) = false ->
      r = Throw {| ia := s1; log := log w |}).
Proof.
  cbv zeta. unfold end_, stop, _fireEvent, _createPreparedEvent, end_iEvent, interacting.
  unfold_m. cbn.
  destruct (_interacting (ia w)) eqn:Hi; cbn;
    [destruct (constructs env _ _) eqn:Hnew; cbn;
     [destruct (fire_result env "before-action-end" _ _) eqn:Hf; cbn;
      [destruct (target (ia w)) eqn:Ht; cbn|]|]|];
    (split; [intros; try done|]); (split; [|intros; try done]);
    (split; [intros; try done|intros; try done]);
    try solve [intuition discriminate].
Qed.

(** X7.  [documentBlur] ends the action and then fires ['blur']: when [end]
    returns - completed, vetoed or on an idle session - the session is the one
    [end] left and ['blur'] is the last entry of the log; when [end] throws,
    no ['blur'] is fired.  Either way the contact registry and
    [pointerIsDown] are what they were: a blur releases no pointer. *)
Theorem documentBlur_fires_blur_last (env : Env) (ev : Event) (w : World) :
  let r_end := end_ env (Some ev) w in
  let w2 := state_of r_end in
  (returned r_end = true ->
   documentBlur env ev w
   = Ret tt {| ia := ia w2;
               log := log w2 ++ [Signal "blur" (blur_signalArg ev) (ia w2)] |})
  /\ (returned r_end = false -> documentBlur env ev w = Throw w2)
  /\ registry (ia (state_of (documentBlur env ev w))) = registry (ia w).
Proof.
  cbv zeta. split; [|split].
  - intros Hret. unfold documentBlur.
    destruct (end_ env (Some ev) w) as [[] w2|w2] eqn:He; [|discriminate].
    rewrite (bind_Ret _ _ _ _ _ He). reflexivity.
  - intros Hret. unfold documentBlur.
    destruct (end_ env (Some ev) w) as [[] w2|w2] eqn:He; [discriminate|].
    by rewrite (bind_Throw _ _ _ _ He).
  - exact (documentBlur_keeps_registry env ev (registry (ia w)) w eq_refl).
Qed.

(** ** The log, the pointer type, and calls that return *)

Section LogGrows.
Context {B : Type}.

Lemma log_grows_ret (b : B) : log_grows (@ret World B b).
Proof. intros w. exists []. cbn. by rewrite app_nil_r. Qed.

Lemma log_grows_throw : log_grows (@throw World B).
Proof. intros w. exists []. cbn. by rewrite app_nil_r. Qed.

Lemma log_grows_bind {A : Type} (c : M World A) (k : A -> M World B) :
  log_grows c -> (forall a, log_grows (k a)) -> log_grows (bind c k).
Proof.
  intros Hc Hk w. unfold bind. destruct (Hc w) as [r1 H1].
  destruct (c w) as [a w1|w1]; cbn in *.
  - destruct (Hk a w1) as [r2 H2]. exists (r1 ++ r2). by rewrite H2, H1, app_assoc.
  - by exists r1.
Qed.

Lemma log_grows_if (b : bool) (c1 c2 : M World B) :
  log_grows c1 -> log_grows c2 -> log_grows (if b then c1 else c2).
Proof. by destruct b. Qed.
End LogGrows.

Lemma log_grows_get : log_grows get.
Proof. intros w. exists []. cbn. by rewrite app_nil_r. Qed.

Lemma log_grows_modify (g : Interaction -> Interaction) : log_grows (modify g).
Proof. intros w. exists []. cbn. by rewrite app_nil_r. Qed.

Lemma log_grows_fire (env : Env) (n : string) (a : SignalArg) : log_grows (fire env n a).
Proof. intros w. eexists. cbn. reflexivity. Qed.

Lemma log_grows_when (b : bool) (c : M World unit) : log_grows c -> log_grows (when b c).
Proof. destruct b; [done|]. intros _. apply log_grows_ret. Qed.

Lemma log_grows_fireEvent (i : InteractEvent) : log_grows (_fireEvent i).
Proof.
  intros w. unfold _fireEvent. destruct (target (ia w)); cbn.
  - eexists. reflexivity.
  - exists []. by rewrite app_nil_r.
Qed.

Ltac grows_step :=
  first
    [ apply log_grows_ret
    | apply log_grows_get
    | apply log_grows_fire
    | apply log_grows_throw
    | apply log_grows_fireEvent
    | apply log_grows_modify
    | apply log_grows_when
    | apply log_grows_if
    | apply log_grows_bind; [|intros ?] ].

Lemma call_log_grows (env : Env) (op : Op) : log_grows (call env op).
Proof.
  destruct op; cbn [call];
    unfold pointerDown, pointerUp, documentBlur, pointerMove, take_sample,
      updatePointer, removePointer, start, doMove, end_, stop, _createPreparedEvent;
    cbv zeta; repeat grows_step.
Qed.

Lemma call_keeps_pointerType (env : Env) (op : Op) (v : PointerType) :
  preserves (fun s => pointerType s = v) (call env op).
Proof. destruct op; cbn [call]; frame. Qed.

(** X10.  The pointer type of a session is fixed at its creation: no sequence
    of calls changes it. *)
Theorem pointerType_is_fixed (cs : list (Env * Op)) (w : World) :
  pointerType (ia (run cs w)) = pointerType (ia w).
Proof.
  apply (run_invariant (fun s => pointerType s = pointerType (ia w)) (fun _ => True)).
  - intros env op _. apply call_keeps_pointerType.
  - apply Forall_true. done.
  - reflexivity.
Qed.

(** Rewrite the answer of the constructor on a session with a target, given
    an event. *)
Ltac build_with Hbuild Ht Hev :=
  match goal with
  | |- context [constructs ?e ?a ?b] =>
      let E := fresh "E" in
      assert (E : constructs e a b = true) by (apply Hbuild; [exact Ht|exact Hev]);
      rewrite E; clear E
  end.

Lemma end_returns (env : Env) (ev : option Event) (w : World) :
  builds_when_bound env ->
  bound_when_interacting (ia w) ->
  (_interacting (ia w) = true -> end_event (ia w) ev <> None) ->
  returned (end_ env ev w) = true.
Proof.
  intros Hbuild Hb Hev. unfold bound_when_interacting in Hb.
  unfold end_, stop, _fireEvent, _createPreparedEvent, interacting. unfold_m. cbn.
  destruct (_interacting (ia w)); cbn; [|done].
  specialize (Hb eq_refl). specialize (Hev eq_refl).
  build_with Hbuild Hb Hev. cbn.
  destruct (fire_result env _ _ _); cbn; [|done].
  destruct (target (ia w)); cbn; [done|]. by destruct Hb.
Qed.

Lemma removePointer_returns (env : Env) (p : Pointer) (ev : option Event) (w : World) :
  returned (removePointer env p ev w) = true.
Proof. unfold removePointer. unfold_m. cbn. case_if; reflexivity. Qed.

Lemma doMove_returns (env : Env) (a : option SignalArg) (w : World) :
  builds_when_bound env ->
  _interacting (ia w) = true -> bound_when_interacting (ia w) ->
  ie_event (move_event (ia w) a) <> None ->
  returned (doMove env a w) = true.
Proof.
  intros Hbuild Hi Hb Hev. specialize (Hb Hi).
  unfold doMove, _fireEvent, _createPreparedEvent. unfold_m. cbn.
  destruct (fire_result env _ _ _); cbn; [|done].
  build_with Hbuild Hb Hev. cbn.
  destruct (target (ia w)); [done|]. by destruct Hb.
Qed.

Lemma pointerMove_returns (env : Env) (p : Pointer) (ev : Event) (et : EventTarget)
    (w : World) :
  builds_when_bound env ->
  bound_when_interacting (ia w) -> returned (pointerMove env p ev et w) = true.
Proof.
  intros Hbuild Hb. unfold pointerMove.
  destruct (take_sample_frame env p ev et w)
    as (s1 & Hs & _ & _ & _ & _ & _ & Hint & Htgt & _).
  rewrite (bind_Ret _ _ _ _ _ Hs).
  assert (Hb1 : _interacting s1 = true -> target s1 <> None).
  { rewrite Hint, Htgt. exact Hb. }
  assert (Hev : Some (RawEvent ev) <> None) by discriminate.
  unfold doMove, _fireEvent, _createPreparedEvent, interacting. unfold_m. cbn.
  destruct (pointerIsDown s1 && negb (pointerWasMoved s1))%bool; cbn;
    destruct (duplicate_coords (curCoords s1) (prevCoords s1)); cbn; try done;
    destruct (_interacting s1) eqn:Hi; cbn; try (repeat (case_if; cbn); done);
    specialize (Hb1 eq_refl);
    (destruct (fire_result env _ _ _); cbn; [|repeat (case_if; cbn); done]);
    build_with Hbuild Hb1 Hev; cbn;
    (destruct (target s1); [|by destruct Hb1]); cbn;
    repeat (case_if; cbn); done.
Qed.

(** X8.  Where the constructor of lifecycle events returns whenever the
    session has a target and an event is given: on a session whose target is
    bound whenever it is interacting, every call that has its event returns -
    [start] with an Interactable after a down with an event, [doMove] while
    interacting with the event of its argument or a previous lifecycle event,
    [end] with an event, and every pointer event, [stop] and blur - and
    leaves the target bound whenever the session is interacting. *)
Theorem calls_return (env : Env) (op : Op) (w : World) :
  builds_when_bound env ->
  bound_when_interacting (ia w) ->
  bound_start op ->
  event_given op (ia w) ->
  returned (call env op w) = true
  /\ bound_when_interacting (ia (state_of (call env op w))).
Proof.
  intros Hbuild Hb Hs Hm. split; [|by apply call_bound].
  destruct op; cbn [call bound_start event_given] in *.
  - unfold pointerDown.
    pose proof (updatePointer_motion env pointer (Some event) eventTarget (Some true) w)
      as (Hret & _).
    destruct (updatePointer env pointer (Some event) eventTarget (Some true) w)
      as [i w1|w1] eqn:Hu; [|discriminate].
    rewrite (bind_Ret _ _ _ _ _ Hu). reflexivity.
  - destruct tgt as [t|]; [|done].
    assert (Ht : Some t <> None) by discriminate.
    assert (Hev : RawEvent <$> downEvent (ia w) <> None).
    { destruct (downEvent (ia w)); [discriminate|done]. }
    unfold start, _fireEvent, _createPreparedEvent, interacting. unfold_m. cbn.
    case_if; [reflexivity|]. cbn. build_with Hbuild Ht Hev. reflexivity.
  - by apply pointerMove_returns.
  - destruct Hm as [Hi Hev]. by apply doMove_returns.
  - assert (Hev : forall s, _interacting s = true -> end_event s (Some event) <> None)
      by (intros; discriminate).
    unfold pointerUp. unfold bind at 1. cbn [get].
    unfold bind at 1. unfold fire at 1. unfold bind at 1. cbn [get ia].
    destruct (simulation (ia w)); cbn [negb when].
    + unfold bind at 1. cbn [ret]. unfold bind at 1. cbn [modify].
      apply removePointer_returns.
    + pose proof (end_returns env (Some event)
                    {| ia := ia w;
                       log := log w ++ [Signal (if is_cancel (ev_type event)
                                                then "cancel" else "up")
                                          (up_signalArg (ia w) pointer event eventTarget
                                             curEventTarget) (ia w)] |} Hbuild Hb
                    (Hev _)) as Hr.
      destruct (end_ env (Some event) _) as [[] w2|w2] eqn:He; [|discriminate].
      rewrite (bind_Ret _ _ _ _ _ He). unfold bind at 1. cbn [modify].
      apply removePointer_returns.
  - unfold documentBlur.
    assert (Hev : _interacting (ia w) = true -> end_event (ia w) (Some event) <> None)
      by (intros; discriminate).
    pose proof (end_returns env (Some event) w Hbuild Hb Hev) as Hr.
    destruct (end_ env (Some event) w) as [[] w2|w2] eqn:He; [|discriminate].
    rewrite (bind_Ret _ _ _ _ _ He). reflexivity.
  - apply end_returns; [done|done|].
    destruct event as [e|]; [intros; discriminate|].
    intros Hi. specialize (Hm Hi). cbn. destruct (prevEvent (ia w)); [discriminate|done].
  - apply stop_clears.
  - pose proof (updatePointer_motion env pointer event eventTarget down w) as (Hret & _).
    destruct (updatePointer env pointer event eventTarget down w)
      as [i w1|w1] eqn:Hu; [|discriminate].
    rewrite (bind_Ret _ _ _ _ _ Hu). reflexivity.
  - apply removePointer_returns.
  - reflexivity.
Qed.

(** ** More facts about JavaScript arrays *)

Section MoreArrays.
Context {A : Type}.
Implicit Types a : list (option A).

Lemma array_set_append (v : A) a : array_set (length a) v a = a ++ [Some v].
Proof.
  unfold array_set. rewrite decide_False by lia.
  by rewrite Nat.sub_diag.
Qed.

Lemma array_set_twice (i : nat) (v : A) a :
  array_set i v (array_set i v a) = array_set i v a.
Proof. apply array_set_id, lookup_array_set. Qed.

Lemma lookup_array_set_ne (i j : nat) (v : A) a :
  i <> j -> (j < length a)%nat -> array_set i v a !! j = a !! j.
Proof.
  intros Hne Hj. unfold array_set. case_decide.
  - by apply list_lookup_insert_ne.
  - by apply lookup_app_l.
Qed.

Lemma array_set_no_hole (i : nat) (v : A) a :
  (i <= length a)%nat -> Forall is_Some a -> Forall is_Some (array_set i v a).
Proof.
  intros Hi Ha. unfold array_set. case_decide.
  - apply Forall_insert; [exact Ha|by eexists].
  - replace (i - length a)%nat with 0%nat by lia. cbn.
    apply Forall_app. split; [exact Ha|]. constructor; [by eexists|constructor].
Qed.

Lemma NoDup_short (l : list A) : (length l <= 1)%nat -> NoDup l.
Proof.
  destruct l as [|a [|b l]]; cbn; intros H; [constructor| |lia].
  apply list.NoDup_singleton.
Qed.

Lemma splice1_no_hole (i : nat) a : Forall is_Some a -> Forall is_Some (splice1 i a).
Proof. apply Forall_delete. Qed.

Lemma splice1_NoDup (i : nat) a : NoDup a -> NoDup (splice1 i a).
Proof. intros H. exact (sublist_NoDup _ _ H (sublist_delete a i)). Qed.
End MoreArrays.

Section MoreIndexOf.
Context {A : Type} `{EqDecision A}.
Implicit Types a : list (option A).

Lemma indexOf_first a (v : A) (i : nat) :
  a !! i = Some (Some v) ->
  (forall j, (j < i)%nat -> a !! j <> Some (Some v)) ->
  indexOf a v = Z.of_nat i.
Proof.
  intros Hi Hfirst. unfold indexOf.
  assert (Hf : list_find (fun slot => slot = Some v) a = Some (i, Some v)).
  { apply list_find_Some. split; [exact Hi|]. split; [done|].
    intros j y Hj Hlt ->. by apply (Hfirst j). }
  by rewrite Hf.
Qed.

Lemma indexOf_NoDup a (v : A) (i : nat) :
  NoDup a -> a !! i = Some (Some v) -> indexOf a v = Z.of_nat i.
Proof.
  intros Hnd Hi. apply indexOf_first; [exact Hi|].
  intros j Hj Hlj. assert (j = i) by (eapply list.NoDup_lookup; eauto). lia.
Qed.

Lemma array_set_NoDup_new (v : A) a :
  Some v ∉ a -> NoDup a -> NoDup (array_set (length a) v a).
Proof.
  intros Hn Hnd. rewrite array_set_append. apply list.NoDup_app.
  split; [exact Hnd|]. split; [|apply list.NoDup_singleton].
  intros x Hx Hx'. apply list_elem_of_singleton in Hx'. by subst.
Qed.
End MoreIndexOf.

(** ** The registry has no hole and no identifier twice *)

Lemma updatePointer_tight env p ev et d :
  preserves registry_tight (updatePointer env p ev et d).
Proof.
  intros w (Hok & Hids & Hptrs & Hnd & Hmouse).
  split; [by apply updatePointer_registry_ok|].
  destruct Hok as (_ & Hdt & Hle & Htouch).
  unfold updatePointer, interacting. unfold_m. cbn.
  destruct (getPointerIndex_cases (ia w) p)
    as [(Hpt & ->) | [(Hpt & -> & Habs) | (Hpt & i & -> & Hi & _)]]; cbn [Z.eqb].
  - destruct (Hmouse Hpt) as [Hp1 Hd1].
    destruct (default (down_default ev) d); cbn;
      [destruct (_interacting (ia w)); cbn|];
      rewrite ?array_set_twice;
      (split; [first [exact Hids | apply array_set_no_hole; [lia|exact Hids]]|]);
      (split; [apply array_set_no_hole; [lia|exact Hptrs]|]);
      (split; [first [exact Hnd | apply NoDup_short; rewrite length_array_set; lia]|]);
      intros _; rewrite ?length_array_set; lia.
  - specialize (Htouch Hpt).
    assert (Hl : length (pointerIds (ia w)) = length (pointers (ia w)))
      by (rewrite Htouch; by rewrite length_fmap).
    destruct (default (down_default ev) d); cbn;
      [destruct (_interacting (ia w)); cbn|];
      rewrite ?array_set_twice;
      (split; [apply array_set_no_hole; [lia|exact Hids]|]);
      (split; [apply array_set_no_hole; [lia|exact Hptrs]|]);
      (split; [by apply array_set_NoDup_new|]); done.
  - specialize (Htouch Hpt).
    assert (Hl : length (pointerIds (ia w)) = length (pointers (ia w)))
      by (rewrite Htouch; by rewrite length_fmap).
    assert (Hlt : (i < length (pointerIds (ia w)))%nat) by (by eapply lookup_lt_Some).
    assert (Hne : (Z.of_nat i =? -1) = false) by (apply Z.eqb_neq; lia).
    rewrite Hne, Nat2Z.id. cbn.
    destruct (default (down_default ev) d); cbn;
      [destruct (_interacting (ia w)); cbn|];
      rewrite ?array_set_twice, ?(array_set_id _ _ _ Hi);
      (split; [exact Hids|]);
      (split; [apply array_set_no_hole; [lia|exact Hptrs]|]);
      (split; [exact Hnd|]); done.
Qed.

Lemma removePointer_tight env p ev :
  preserves registry_tight (removePointer env p ev).
Proof.
  intros w (Hok & Hids & Hptrs & Hnd & Hmouse).
  split; [by apply removePointer_registry_ok|].
  unfold removePointer. unfold_m. cbn.
  destruct (getPointerIndex (ia w) p =? -1); cbn; [done|].
  split; [by apply splice1_no_hole|]. split; [by apply splice1_no_hole|].
  split; [by apply splice1_NoDup|].
  intros Hpt. destruct (Hmouse Hpt) as [Hp1 Hd1].
  rewrite !length_splice1. repeat case_decide; lia.
Qed.

Lemma registry_tight_of_registry (s s' : Interaction) :
  registry s = registry s' -> registry_tight s -> registry_tight s'.
Proof.
  unfold registry_tight. intros H (Hok & Hrest).
  split; [by eapply registry_ok_of_registry|].
  unfold registry in H.
  replace (downTimes s') with (downTimes s) by congruence.
  replace (pointerIds s') with (pointerIds s) by congruence.
  replace (pointers s') with (pointers s) by congruence.
  replace (pointerType s') with (pointerType s) by congruence.
  exact Hrest.
Qed.

Lemma pointerMove_keeps_registry_after_sample env p ev et :
  preserves registry_tight (pointerMove env p ev et).
Proof.
  pose proof registry_tight_of_registry as Hreg.
  unfold pointerMove, take_sample. cbv zeta.
  apply preserves_bind.
  { apply preserves_bind; [apply preserves_get|intros s].
    apply preserves_when.
    apply preserves_bind; [apply updatePointer_tight|intros _].
    apply preserves_modify. intros s0 H0. exact H0. }
  intros _. apply preserves_bind; [apply preserves_get|intros s].
  apply preserves_bind.
  { apply preserves_if; [|apply preserves_ret].
    apply preserves_bind; [|intros; apply preserves_ret].
    apply preserves_modify. intros s0 H0. exact H0. }
  intros dxy. apply preserves_bind; [apply preserves_get|intros s'].
  apply preserves_bind.
  { apply preserves_when. apply preserves_modify. intros s0 H0. exact H0. }
  intros _. apply preserves_bind; [apply preserves_fire|intros _].
  apply preserves_when.
  apply preserves_bind; [apply preserves_get|intros s''].
  apply preserves_bind.
  { apply preserves_when.
    eapply preserves_of_keeps; [intros v; apply doMove_keeps_registry|exact Hreg]. }
  intros _. apply preserves_bind; [apply preserves_get|intros s'''].
  apply preserves_when. apply preserves_modify. intros s0 H0. exact H0.
Qed.

Lemma call_registry_tight (env : Env) (op : Op) : preserves registry_tight (call env op).
Proof.
  pose proof registry_tight_of_registry as Hreg.
  destruct op; cbn [call].
  - unfold pointerDown.
    apply preserves_bind; [apply updatePointer_tight|intros i].
    apply preserves_bind; [apply preserves_fire|intros _]. apply preserves_ret.
  - eapply preserves_of_keeps; [intros v; apply start_keeps_registry|exact Hreg].
  - apply pointerMove_keeps_registry_after_sample.
  - eapply preserves_of_keeps; [intros v; apply doMove_keeps_registry|exact Hreg].
  - unfold pointerUp. cbv zeta.
    apply preserves_bind; [apply preserves_get|intros s].
    apply preserves_bind; [apply preserves_fire|intros _].
    apply preserves_bind; [apply preserves_get|intros s'].
    apply preserves_bind.
    { apply preserves_when.
      eapply preserves_of_keeps; [intros v; apply end_keeps_registry|exact Hreg]. }
    intros _. apply preserves_bind;
      [apply preserves_modify; intros s0 H0; exact H0|intros _].
    apply removePointer_tight.
  - eapply preserves_of_keeps; [intros v; apply documentBlur_keeps_registry|exact Hreg].
  - eapply preserves_of_keeps; [intros v; apply end_keeps_registry|exact Hreg].
  - eapply preserves_of_keeps; [intros v; apply stop_keeps_registry|exact Hreg].
  - apply preserves_bind; [apply updatePointer_tight|intros; apply preserves_ret].
  - apply removePointer_tight.
  - apply preserves_modify. intros s H. exact H.
Qed.

Lemma reachable_registry_tight (w : World) : reachable w -> registry_tight (ia w).
Proof.
  intros (pt & bus & cs & ->).
  apply (run_invariant registry_tight (fun _ => True)).
  - intros env op _. apply call_registry_tight.
  - apply Forall_true. done.
  - unfold registry_tight, registry_ok. cbn.
    repeat split; try done; try constructor; lia.
Qed.

Lemma mouse_registry_is_short (w : World) :
  reachable w -> pointerType (ia w) <> touch ->
  (length (pointers (ia w)) <= 1)%nat
  /\ (length (pointerIds (ia w)) <= 1)%nat
  /\ (length (downTimes (ia w)) <= 1)%nat
  /\ (length (downTargets (ia w)) <= 1)%nat.
Proof.
  intros Hw Hpt. destruct (reachable_registry_tight w Hw)
    as ((Hshape & Hdt & Hle & _) & _ & _ & _ & Hmouse).
  destruct (Hmouse Hpt) as [Hp1 Hd1].
  pose proof (shape_length _ _ Hshape). repeat split; lia.
Qed.

(** X11.  On every session driven from its creation, [pointerIds] and
    [pointers] have no hole, no identifier is held twice, and a mouse or pen
    session holds at most one contact: each of its four arrays has at most
    one slot. *)
Theorem registry_has_no_hole_nor_duplicate (w : World) :
  reachable w ->
  Forall is_Some (pointerIds (ia w))
  /\ Forall is_Some (pointers (ia w))
  /\ NoDup (pointerIds (ia w))
  /\ (pointerType (ia w) <> touch ->
      (length (pointers (ia w)) <= 1)%nat
      /\ (length (pointerIds (ia w)) <= 1)%nat
      /\ (length (downTimes (ia w)) <= 1)%nat
      /\ (length (downTargets (ia w)) <= 1)%nat).
Proof.
  intros Hw. destruct (reachable_registry_tight w Hw)
    as ((Hshape & Hdt & Hle & _) & Hids & Hptrs & Hnd & Hmouse).
  split; [exact Hids|]. split; [exact Hptrs|]. split; [exact Hnd|].
  intros Hpt. destruct (Hmouse Hpt) as [Hp1 Hd1].
  pose proof (shape_length _ _ Hshape). repeat split; lia.
Qed.

(** ** [updatePointer] *)

Lemma getPointerIndex_registry (s s' : Interaction) (p : Pointer) :
  pointerType s' = pointerType s -> pointerIds s' = pointerIds s ->
  getPointerIndex s' p = getPointerIndex s p.
Proof. unfold getPointerIndex. by intros -> ->. Qed.

(** X12.  [updatePointer] always returns, with the slot of the pointer: the
    pointer is then stored in that slot of [pointers], and looking the pointer
    up with [getPointerIndex] gives the slot back.  On a mouse or pen session
    the slot is 0; on a touch session it holds the identifier of the pointer
    in [pointerIds].  The other slots of [pointers] and [pointerIds] are not
    touched. *)
Theorem updatePointer_stores (env : Env) (p : Pointer) (ev : option Event)
    (et : EventTarget) (d : option bool) (w : World) :
  exists (i : nat) (w' : World),
    updatePointer env p ev et d w = Ret i w'
    /\ pointers (ia w') !! i = Some (Some p)
    /\ getPointerIndex (ia w') p = Z.of_nat i
    /\ (pointerType (ia w) <> touch -> i = 0%nat)
    /\ (pointerType (ia w) = touch \/ is_down ev d = true ->
        pointerIds (ia w') !! i = Some (Some (pointerId p)))
    /\ (forall j, j <> i -> (j < length (pointers (ia w)))%nat ->
        pointers (ia w') !! j = pointers (ia w) !! j)
    /\ (forall j, j <> i -> (j < length (pointerIds (ia w)))%nat ->
        pointerIds (ia w') !! j = pointerIds (ia w) !! j).
Proof.
  unfold is_down, updatePointer, interacting. unfold_m. cbn.
  destruct (getPointerIndex_cases (ia w) p)
    as [(Hpt & Hz) | [(Hpt & Hz & Habs) | (Hpt & i & Hz & Hi & Hfirst)]].
  - rewrite Hz. cbn [Z.eqb Z.to_nat Pos.to_nat].
    exists 0%nat.
    assert (Hidx : forall s', pointerType s' = pointerType (ia w) ->
                     getPointerIndex s' p = Z.of_nat 0).
    { intros s' Hs'. unfold getPointerIndex. rewrite Hs'.
      destruct (pointerType (ia w)); done. }
    destruct (default (down_default ev) d); cbn;
      [destruct (_interacting (ia w)); cbn|];
      eexists; (split; [reflexivity|]); cbn; rewrite ?array_set_twice;
      (split; [apply lookup_array_set|]);
      (split; [by apply Hidx|]); (split; [done|]);
      (split; [first [intros _; apply lookup_array_set | intros [?|?]; done]|]);
      split; intros j Hj Hlt; first [reflexivity | by apply lookup_array_set_ne].
  - rewrite Hz. cbn [Z.eqb].
    exists (length (pointerIds (ia w))).
    assert (Hidx : forall s', pointerType s' = pointerType (ia w) ->
                     pointerIds s' = array_set (length (pointerIds (ia w))) (pointerId p)
                                       (pointerIds (ia w)) ->
                     getPointerIndex s' p = Z.of_nat (length (pointerIds (ia w)))).
    { intros s' Hs' Hids. unfold getPointerIndex. rewrite Hs', Hpt, Hids.
      apply indexOf_first; [apply lookup_array_set|].
      intros j Hj. rewrite lookup_array_set_ne by lia.
      intros Hl. apply Habs. by eapply list_elem_of_lookup_2. }
    destruct (default (down_default ev) d); cbn;
      [destruct (_interacting (ia w)); cbn|];
      eexists; (split; [reflexivity|]); cbn; rewrite ?array_set_twice;
      (split; [apply lookup_array_set|]);
      (split; [by apply Hidx|]); (split; [done|]);
      (split; [intros _; apply lookup_array_set|]);
      split; intros j Hj Hlt; by apply lookup_array_set_ne.
  - rewrite Hz.
    assert (Hne : (Z.of_nat i =? -1) = false) by (apply Z.eqb_neq; lia).
    rewrite Hne, Nat2Z.id. exists i.
    assert (Hidx : forall s', pointerType s' = pointerType (ia w) ->
                     pointerIds s' = pointerIds (ia w) ->
                     getPointerIndex s' p = Z.of_nat i).
    { intros s' Hs' Hids. unfold getPointerIndex. rewrite Hs', Hpt, Hids.
      by apply indexOf_first. }
    destruct (default (down_default ev) d); cbn;
      [destruct (_interacting (ia w)); cbn|];
      eexists; (split; [reflexivity|]); cbn;
      rewrite ?array_set_twice, ?(array_set_id _ _ _ Hi);
      (split; [apply lookup_array_set|]);
      (split; [by apply Hidx|]); (split; [done|]);
      (split; [intros _; exact Hi|]);
      split; intros j Hj Hlt; first [reflexivity | by apply lookup_array_set_ne].
Qed.

(** X13.  What [updatePointer] records depends on [down] and on the session.
    With [down] false it fires nothing and leaves [pointerIsDown] and the
    records of the down alone.  With [down] true it sets [pointerIsDown] and
    fires ['update-pointer-down'] once; on a session that is not interacting
    it also takes the three snapshots anew - [startCoords] from the held
    pointers, [curCoords] and [prevCoords] equal to it - clears
    [pointerWasMoved], and records the event, the pointer, the time of the
    snapshot and the event target in the slot of the pointer; on an
    interacting session none of these is touched. *)
Theorem updatePointer_down_records (env : Env) (p : Pointer) (ev : option Event)
    (et : EventTarget) (d : option bool) (w : World) :
  exists (i : nat) (w' : World),
    updatePointer env p ev et d w = Ret i w'
    /\ (is_down ev d = false ->
        log w' = log w
        /\ pointerIsDown (ia w') = pointerIsDown (ia w)
        /\ down_record (ia w') = down_record (ia w))
    /\ (is_down ev d = true ->
        pointerIsDown (ia w') = true
        /\ exists s1, log w' = log w ++ [Signal "update-pointer-down"
                                           (update_signalArg p ev et i) s1])
    /\ (is_down ev d = true -> _interacting (ia w) = true ->
        down_record (ia w') = down_record (ia w))
    /\ (is_down ev d = true -> _interacting (ia w) = false ->
        startCoords (ia w') = setCoords env (startCoords (ia w)) (pointers (ia w'))
        /\ curCoords (ia w') = startCoords (ia w')
        /\ prevCoords (ia w') = startCoords (ia w')
        /\ pointerWasMoved (ia w') = false
        /\ downEvent (ia w') = ev
        /\ downPointer (ia w') = Some p
        /\ downTimes (ia w')
           = array_set i (timeStamp (startCoords (ia w'))) (downTimes (ia w))
        /\ downTargets (ia w') = array_set i et (downTargets (ia w))).
Proof.
  unfold is_down, updatePointer, interacting. unfold_m. cbn.
  destruct (getPointerIndex (ia w) p =? -1); cbn;
    destruct (default (down_default ev) d); cbn;
    destruct (_interacting (ia w)); cbn;
    eexists _, _; (split; [reflexivity|]); cbn; rewrite ?array_set_twice;
    repeat split; try done; try (eexists; reflexivity).
Qed.

(** ** Contacts of a touch session *)

Lemma pointerDown_touch_new (env : Env) (p : Pointer) (ev : Event) (et : EventTarget)
    (w : World) :
  pointerType (ia w) = touch ->
  _interacting (ia w) = false ->
  Some (pointerId p) ∉ pointerIds (ia w) ->
  length (pointers (ia w)) = length (pointerIds (ia w)) ->
  length (downTargets (ia w)) = length (pointerIds (ia w)) ->
  let s' := ia (step (env, OpPointerDown p ev et) w) in
  pointerType s' = touch
  /\ _interacting s' = false
  /\ pointerIds s' = pointerIds (ia w) ++ [Some (pointerId p)]
  /\ pointers s' = pointers (ia w) ++ [Some p]
  /\ downTargets s' = downTargets (ia w) ++ [Some et].
Proof.
  intros Hpt Hi Habs Hlp Hlt. cbv zeta.
  unfold step. cbn [fst snd call].
  unfold pointerDown, updatePointer, interacting. unfold_m. cbn.
  assert (Hz : getPointerIndex (ia w) p = -1).
  { unfold getPointerIndex. rewrite Hpt. by apply indexOf_absent. }
  rewrite Hz. cbn. rewrite Hi. cbn.
  rewrite !array_set_twice.
  rewrite <- Hlp at 2. rewrite <- Hlt at 2.
  rewrite !array_set_append. done.
Qed.

Lemma downs_from (ds ds0 : list (Env * Pointer * Event * EventTarget)) (w : World) :
  pointerType (ia w) = touch ->
  _interacting (ia w) = false ->
  pointerIds (ia w) = (fun p => Some (pointerId p)) <$> down_pointers ds0 ->
  pointers (ia w) = Some <$> down_pointers ds0 ->
  downTargets (ia w) = (fun d => Some d.2) <$> ds0 ->
  NoDup (pointerId <$> down_pointers (ds0 ++ ds)) ->
  let s := ia (run (downs ds) w) in
  pointerType s = touch
  /\ _interacting s = false
  /\ pointerIds s = (fun p => Some (pointerId p)) <$> down_pointers (ds0 ++ ds)
  /\ pointers s = Some <$> down_pointers (ds0 ++ ds)
  /\ downTargets s = (fun d => Some d.2) <$> (ds0 ++ ds).
Proof.
  revert ds0 w. induction ds as [|[[[env p] ev] et] ds IH];
    intros ds0 w Hpt Hi Hids Hptrs Htg Hnd; cbv zeta.
  - rewrite app_nil_r. done.
  - cbn [downs fmap list_fmap run fold_left fst snd].
    assert (Habs : Some (pointerId p) ∉ pointerIds (ia w)).
    { rewrite Hids. intros Hin.
      apply list_elem_of_fmap in Hin as (q & [= Hq] & Hin).
      unfold down_pointers in Hnd. rewrite !fmap_app in Hnd.
      apply list.NoDup_app in Hnd as (_ & Hdisj & _).
      apply (Hdisj (pointerId q)).
      - apply list_elem_of_fmap. by exists q.
      - cbn. rewrite <- Hq. apply list_elem_of_here. }
    destruct (pointerDown_touch_new env p ev et w Hpt Hi Habs)
      as (Hpt' & Hi' & Hids' & Hptrs' & Htg').
    { by rewrite Hptrs, Hids, !length_fmap. }
    { rewrite Htg, Hids. unfold down_pointers. by rewrite !length_fmap. }
    specialize (IH (ds0 ++ [(env, p, ev, et)]) (step (env, OpPointerDown p ev et) w)).
    rewrite <- !app_assoc in IH. cbn [app] in IH.
    apply IH; try done.
    + rewrite Hids', Hids. unfold down_pointers. by rewrite !fmap_app.
    + rewrite Hptrs', Hptrs. unfold down_pointers. by rewrite !fmap_app.
    + rewrite Htg', Htg. by rewrite !fmap_app.
Qed.

(** X14.  On a new touch session, pointer-downs of contacts with distinct
    identifiers fill the registry in order of arrival: after them
    [pointerIds], [pointers] and [downTargets] hold, slot by slot, the
    identifier, the pointer and the event target of each down, and
    [getPointerIndex] of the [k]-th contact is [k]. *)
Theorem touch_downs_in_order (bus : list LogEntry)
    (ds : list (Env * Pointer * Event * EventTarget)) :
  NoDup (pointerId <$> down_pointers ds) ->
  let s := ia (run (downs ds) (constructor touch bus)) in
  pointerIds s = (fun p => Some (pointerId p)) <$> down_pointers ds
  /\ pointers s = Some <$> down_pointers ds
  /\ downTargets s = (fun d => Some d.2) <$> ds
  /\ forall k p, down_pointers ds !! k = Some p -> getPointerIndex s p = Z.of_nat k.
Proof.
  intros Hnd. cbv zeta.
  destruct (downs_from ds [] (constructor touch bus)) as (Hpt & _ & Hids & Hptrs & Htg);
    try done.
  cbn [app] in *. split; [exact Hids|]. split; [exact Hptrs|]. split; [exact Htg|].
  intros k p Hk. unfold getPointerIndex. rewrite Hpt, Hids.
  apply indexOf_NoDup.
  - replace ((fun p => Some (pointerId p)) <$> down_pointers ds)
      with (Some <$> (pointerId <$> down_pointers ds))
      by (by rewrite <- list_fmap_compose).
    by apply (NoDup_fmap_2 Some).
  - by rewrite list_lookup_fmap, Hk.
Qed.

Section IndexOfSplice.
Context {A : Type} `{EqDecision A}.
Implicit Types a : list (option A).

Lemma indexOf_splice1_other a (v : A) (i j : nat) :
  NoDup a -> a !! j = Some (Some v) -> i <> j ->
  indexOf (splice1 i a) v = Z.of_nat (if decide (j < i)%nat then j else j - 1).
Proof.
  intros Hnd Hj Hne. apply indexOf_NoDup; [by apply splice1_NoDup|].
  rewrite splice1_lookup. destruct (decide (j < i)%nat) as [Hlt|Hlt].
  - rewrite decide_True by lia. exact Hj.
  - rewrite decide_False by lia. replace (S (j - 1)) with j by lia. exact Hj.
Qed.

Lemma indexOf_splice1_removed a (v : A) (i : nat) :
  NoDup a -> a !! i = Some (Some v) -> indexOf (splice1 i a) v = -1.
Proof.
  intros Hnd Hi. apply indexOf_absent. intros Hin.
  apply list_elem_of_lookup in Hin as [k Hk]. rewrite splice1_lookup in Hk.
  assert ((if decide (k < i)%nat then k else S k) = i)
    by (eapply list.NoDup_lookup; eauto).
  case_decide; lia.
Qed.

Lemma indexOf_splice1_absent a (v : A) (i : nat) :
  indexOf a v = -1 -> indexOf (splice1 i a) v = -1.
Proof.
  rewrite !indexOf_absent. intros Hn Hin. apply Hn.
  by eapply list_elem_of_delete_inv.
Qed.
End IndexOfSplice.

(** X15.  On a touch session whose identifiers are distinct, removing the
    contact in slot [i] makes it unknown ([getPointerIndex] gives -1), leaves
    the index of every contact before it, lowers by one the index of every
    contact after it, and leaves unknown pointers unknown. *)
Theorem removePointer_shifts_indices (env : Env) (p q : Pointer) (ev : option Event)
    (i j : nat) (w : World) :
  pointerType (ia w) = touch ->
  NoDup (pointerIds (ia w)) ->
  getPointerIndex (ia w) p = Z.of_nat i ->
  let s' := ia (state_of (removePointer env p ev w)) in
  getPointerIndex s' p = -1
  /\ (getPointerIndex (ia w) q = Z.of_nat j -> i <> j ->
      getPointerIndex s' q = Z.of_nat (if decide (j < i)%nat then j else j - 1))
  /\ (getPointerIndex (ia w) q = -1 -> getPointerIndex s' q = -1).
Proof.
  intros Hpt Hnd Hp. cbv zeta.
  assert (Hs' : pointerType (ia (state_of (removePointer env p ev w))) = touch
                /\ pointerIds (ia (state_of (removePointer env p ev w)))
                   = splice1 i (pointerIds (ia w))).
  { unfold removePointer. unfold_m. cbn. rewrite Hp.
    assert (Hne : (Z.of_nat i =? -1) = false) by (apply Z.eqb_neq; lia).
    rewrite Hne, Nat2Z.id. cbn. done. }
  destruct Hs' as [Hpt' Hids'].
  unfold getPointerIndex in *. rewrite Hpt', Hids'. rewrite Hpt in *.
  assert (Hi : pointerIds (ia w) !! i = Some (Some (pointerId p))).
  { destruct (indexOf_found (pointerIds (ia w)) (pointerId p)) as (i' & Hi' & Hl & _);
      [lia|]. assert (i' = i) by lia. by subst. }
  split; [by apply indexOf_splice1_removed|]. split.
  - intros Hq Hne.
    destruct (indexOf_found (pointerIds (ia w)) (pointerId q)) as (j' & Hj' & Hl & _);
      [lia|]. assert (j' = j) by lia. subst j'.
    by apply indexOf_splice1_other.
  - apply indexOf_splice1_absent.
Qed.

(** X16.  On a mouse or pen session driven from its creation, a [pointerUp]
    that returns leaves the registry empty - all four arrays - and
    [pointerIsDown] false; unless a simulation runs or a listener vetoes the
    end, the session is no longer interacting. *)
Theorem pointerUp_empties_mouse_registry (env : Env) (p : Pointer) (ev : Event)
    (et cet : EventTarget) (w : World) :
  reachable w ->
  pointerType (ia w) <> touch ->
  returned (pointerUp env p ev et cet w) = true ->
  let s' := ia (state_of (pointerUp env p ev et cet w)) in
  pointers s' = [] /\ pointerIds s' = [] /\ downTargets s' = [] /\ downTimes s' = []
  /\ pointerIsDown s' = false
  /\ (simulation (ia w) = false ->
      fire_result env "before-action-end"
        (end_signalArg (set_ending true (ia w)) (Some ev)) (set_ending true (ia w)) = true ->
      _interacting s' = false).
Proof.
  intros Hw Hpt Hret. cbv zeta.
  destruct (mouse_registry_is_short w Hw Hpt) as (H1 & H2 & H3 & H4).
  assert (Hempty : forall A (l : list A), (length l <= 1)%nat -> delete 0%nat l = [])
    by (intros A [|a [|b l]]; cbn; intros; try done; lia).
  set (w1 := {| ia := ia w;
                log := log w ++ [Signal (if is_cancel (ev_type ev) then "cancel" else "up")
                                   (up_signalArg (ia w) p ev et cet) (ia w)] |}).
  assert (Hup : pointerUp env p ev et cet w
                = ((when (negb (simulation (ia w))) (end_ env (Some ev)) ;;
                    modify (set_pointerIsDown false) ;;
                    removePointer env p (Some ev)) w1)) by reflexivity.
  rewrite Hup in *. clear Hup. revert Hret.
  assert (Hend : registry (ia (state_of ((when (negb (simulation (ia w)))
                                            (end_ env (Some ev))) w1)))
                 = registry (ia w)).
  { destruct (simulation (ia w)); cbn [negb when]; [reflexivity|].
    exact (end_keeps_registry env (Some ev) (registry (ia w)) w1 eq_refl). }
  assert (Hint : simulation (ia w) = false ->
                 fire_result env "before-action-end"
                   (end_signalArg (set_ending true (ia w)) (Some ev))
                   (set_ending true (ia w)) = true ->
                 returned ((when (negb (simulation (ia w))) (end_ env (Some ev))) w1) = true ->
                 _interacting (ia (state_of ((when (negb (simulation (ia w)))
                                                (end_ env (Some ev))) w1))) = false).
  { intros -> Hgo. cbn [negb when].
    unfold end_, stop, _fireEvent, _createPreparedEvent, interacting. unfold_m. cbn.
    destruct (_interacting (ia w)); cbn; [|done].
    destruct (constructs env _ _); cbn; [|done].
    rewrite Hgo. cbn. destruct (target (ia w)); cbn; done. }
  destruct ((when (negb (simulation (ia w))) (end_ env (Some ev))) w1)
    as [[] w2|w2] eqn:He; cbn [state_of returned] in *;
    [rewrite (bind_Ret _ _ _ _ _ He)|by rewrite (bind_Throw _ _ _ _ He)].
  unfold bind at 1 2 3 4 5 6 7. cbn [modify].
  intros _. unfold registry in Hend.
  assert (Hp : pointers (ia w2) = pointers (ia w)) by congruence.
  assert (Hi : pointerIds (ia w2) = pointerIds (ia w)) by congruence.
  assert (Hg : downTargets (ia w2) = downTargets (ia w)) by congruence.
  assert (Hd : downTimes (ia w2) = downTimes (ia w)) by congruence.
  assert (Ht : pointerType (ia w2) = pointerType (ia w)) by congruence.
  unfold removePointer. unfold_m. cbn.
  assert (Hz : getPointerIndex (set_pointerIsDown false (ia w2)) p = 0).
  { unfold getPointerIndex. cbn. rewrite Ht. by destruct (pointerType (ia w)). }
  rewrite Hz. cbn. unfold splice1. rewrite Hp, Hi, Hg, Hd.
  rewrite !Hempty by lia. repeat split; try done.
  intros Hs Hgo. by apply Hint.
Qed.

(** ** The life cycle *)

Lemma track_app (st : Cycle) (l1 l2 : list LogEntry) :
  track st (l1 ++ l2) = track st l1 ≫= fun st' => track st' l2.
Proof.
  revert st. induction l1 as [|e l1 IH]; intros st; cbn; [done|].
  destruct (track_entry st e); cbn; [apply IH|done].
Qed.

Lemma agrees_of_fields (st : Cycle) (s s' : Interaction) :
  life_fields s = life_fields s' -> agrees st s -> agrees st s'.
Proof.
  unfold life_fields, agrees. intros H.
  replace (target s') with (target s) by congruence.
  replace (prevEvent s') with (prevEvent s) by congruence.
  replace (_interacting s') with (_interacting s) by congruence.
  replace (name (prepared s')) with (name (prepared s)) by congruence.
  replace (element s') with (element s) by congruence.
  done.
Qed.

(** The log grows by [es], which the rules accept, and the session agrees. *)
Lemma life_extend (n : nat) (w : World) (es : list LogEntry) (s' : Interaction)
    (st st' : Cycle) :
  (n <= length (log w))%nat ->
  track None (drop n (log w)) = Some st ->
  track st es = Some st' ->
  agrees st' s' ->
  life n {| ia := s'; log := log w ++ es |}.
Proof.
  intros Hn Ht Hes Ha. split; cbn.
  - rewrite length_app. lia.
  - exists st'. split; [|exact Ha].
    rewrite drop_app_le by exact Hn. rewrite track_app, Ht. exact Hes.
Qed.

Lemma life_same_log (n : nat) (w : World) (s' : Interaction) :
  life_fields (ia w) = life_fields s' -> life n w -> life n {| ia := s'; log := log w |}.
Proof.
  intros Hf (Hn & st & Ht & Ha). split; [exact Hn|].
  exists st. split; [exact Ht|]. by eapply agrees_of_fields.
Qed.

Section KeepsLife.
Context {B : Type} (n : nat).

Lemma keeps_life_ret (b : B) : keeps_life n (@ret World B b).
Proof. intros w H _. exact H. Qed.

Lemma keeps_life_bind {A : Type} (c : M World A) (k : A -> M World B) :
  keeps_life n c -> (forall a, keeps_life n (k a)) -> keeps_life n (bind c k).
Proof.
  intros Hc Hk w H. unfold bind. specialize (Hc w H).
  destruct (c w) as [a w1|w1]; cbn in *; [|discriminate].
  intros Hr. apply Hk; [by apply Hc|exact Hr].
Qed.

Lemma keeps_life_if (b : bool) (c1 c2 : M World B) :
  keeps_life n c1 -> keeps_life n c2 -> keeps_life n (if b then c1 else c2).
Proof. by destruct b. Qed.
End KeepsLife.

Lemma keeps_life_get (n : nat) : keeps_life n get.
Proof. intros w H _. exact H. Qed.

Lemma keeps_life_when (n : nat) (b : bool) (c : M World unit) :
  keeps_life n c -> keeps_life n (when b c).
Proof. destruct b; [done|]. intros _ w H _. exact H. Qed.

Lemma keeps_life_modify (n : nat) (g : Interaction -> Interaction) :
  (forall s, life_fields s = life_fields (g s)) -> keeps_life n (modify g).
Proof. intros Hg w H _. cbn. by apply life_same_log. Qed.

Lemma keeps_life_fire (n : nat) (env : Env) (name : string) (a : SignalArg) :
  String.eqb name "stop" = false -> keeps_life n (fire env name a).
Proof.
  intros Hne w (Hn & st & Ht & Ha) _. cbn.
  eapply life_extend; [exact Hn|exact Ht| |exact Ha].
  cbn. by rewrite Hne.
Qed.

Ltac life_step :=
  first
    [ apply keeps_life_ret
    | apply keeps_life_get
    | apply keeps_life_fire; reflexivity
    | apply keeps_life_modify; intros ?; reflexivity
    | apply keeps_life_when
    | apply keeps_life_if
    | apply keeps_life_bind; [|intros ?] ].

Lemma updatePointer_keeps_life n env p ev et d :
  keeps_life n (updatePointer env p ev et d).
Proof. unfold updatePointer. cbv zeta. repeat life_step. Qed.

Lemma removePointer_keeps_life n env p ev : keeps_life n (removePointer env p ev).
Proof. unfold removePointer. cbv zeta. repeat life_step. Qed.

Lemma stop_keeps_life n env : keeps_life n (stop env).
Proof.
  intros w (Hn & st & Ht & Ha) _. unfold stop. unfold_m. cbn.
  eapply (life_extend n w [_] _ st None); [exact Hn|exact Ht|reflexivity|].
  cbn. done.
Qed.

Lemma start_keeps_life n env a t e : keeps_life n (start env a t e).
Proof.
  intros w (Hn & st & Ht & Ha).
  unfold start, _fireEvent, _createPreparedEvent, interacting. unfold_m. cbn.
  destruct (_interacting (ia w)) eqn:Hi; cbn.
  { intros _. split; [exact Hn|]. by exists st. }
  destruct (negb (pointerIsDown (ia w)) || _)%bool; cbn.
  { intros _. split; [exact Hn|]. by exists st. }
  assert (st = None) as ->.
  { destruct st as [[t0 prev]|]; [|done]. cbn in Ha. destruct Ha as (_ & _ & ? & _).
    congruence. }
  destruct (constructs env _ _); cbn; [|discriminate].
  destruct t as [t|]; cbn; [|discriminate]. intros _.
  rewrite <- !app_assoc. cbn.
  eapply (life_extend n w _ _ None); [exact Hn|exact Ht|reflexivity|].
  cbn. done.
Qed.

Lemma track_signal (st : Cycle) (n : string) (a : SignalArg) (s : Interaction)
    (r : list LogEntry) :
  String.eqb n "stop" = false -> track st (Signal n a s :: r) = track st r.
Proof. intros H. cbn. by rewrite H. Qed.

Lemma track_stop (st : Cycle) (a : SignalArg) (s : Interaction) (r : list LogEntry) :
  track st (Signal "stop" a s :: r) = track None r.
Proof. reflexivity. Qed.

Lemma track_next (t : Target) (prev ie : InteractEvent) (r : list LogEntry) :
  (String.eqb (ie_phase ie) "move" || String.eqb (ie_phase ie) "end")%bool = true ->
  String.eqb (ie_phase prev) "end" = false ->
  ie_actionName ie = ie_actionName prev ->
  ie_element ie = ie_element prev ->
  track (Some (t, prev)) (TargetFire t ie :: r) = track (Some (t, ie)) r.
Proof.
  intros Hp He Ha Hel. cbn. rewrite Hp, He.
  rewrite !bool_decide_eq_true_2 by done. reflexivity.
Qed.

Lemma doMove_keeps_life n env a : keeps_life n (doMove env a).
Proof.
  intros w (Hn & st & Ht & Ha).
  unfold doMove, _fireEvent, _createPreparedEvent. unfold_m. cbn.
  destruct (fire_result env _ _ _); cbn.
  - destruct (constructs env _ _); cbn; [|discriminate].
    destruct st as [[t prev]|]; cbn in Ha.
    + destruct Ha as (Htgt & Hprev & Hi & Hname & Hel & Hph). rewrite Htgt. cbn.
      intros _. rewrite <- !app_assoc. cbn.
      eapply (life_extend n w _ _ (Some (t, prev))); [exact Hn|exact Ht| |].
      * rewrite !track_signal by reflexivity.
        rewrite track_next; [|reflexivity|exact Hph|by rewrite Hname|by rewrite Hel].
        rewrite track_signal by reflexivity. reflexivity.
      * cbn. done.
    + destruct Ha as [Htgt Hprev]. rewrite Htgt. cbn. discriminate.
  - intros _.
    eapply (life_extend n w [_] _ st st); [exact Hn|exact Ht|reflexivity|exact Ha].
Qed.

Lemma end_keeps_life n env ev : keeps_life n (end_ env ev).
Proof.
  intros w (Hn & st & Ht & Ha).
  unfold end_, stop, _fireEvent, _createPreparedEvent, interacting. unfold_m. cbn.
  destruct (_interacting (ia w)) eqn:Hi; cbn.
  - destruct (constructs env _ _); cbn; [|discriminate].
    destruct (fire_result env _ _ _); cbn.
    + destruct st as [[t prev]|]; cbn in Ha.
      * destruct Ha as (Htgt & Hprev & _ & Hname & Hel & Hph). rewrite Htgt. cbn.
        intros _. rewrite <- !app_assoc. cbn.
        eapply (life_extend n w _ _ (Some (t, prev)) None); [exact Hn|exact Ht| |].
        -- rewrite !track_signal by reflexivity.
           rewrite track_next; [|reflexivity|exact Hph|by rewrite Hname|by rewrite Hel].
           rewrite track_signal by reflexivity. reflexivity.
        -- cbn. done.
      * destruct Ha as [Htgt Hprev]. rewrite Htgt. cbn. discriminate.
    + intros _.
      eapply (life_extend n w [_] _ st st); [exact Hn|exact Ht|reflexivity|].
      eapply agrees_of_fields; [|exact Ha]. reflexivity.
  - intros _.
    eapply (life_extend n w [_] _ st None); [exact Hn|exact Ht|reflexivity|].
    cbn. done.
Qed.

Lemma pointerMove_keeps_life n env p ev et : keeps_life n (pointerMove env p ev et).
Proof.
  unfold pointerMove, take_sample. cbv zeta.
  apply keeps_life_bind.
  { apply keeps_life_bind; [apply keeps_life_get|intros s].
    apply keeps_life_when.
    apply keeps_life_bind; [apply updatePointer_keeps_life|intros _].
    apply keeps_life_modify. intros s0. reflexivity. }
  intros _. apply keeps_life_bind; [apply keeps_life_get|intros s].
  apply keeps_life_bind.
  { apply keeps_life_if; [|apply keeps_life_ret].
    apply keeps_life_bind; [|intros; apply keeps_life_ret].
    apply keeps_life_modify. intros s0. reflexivity. }
  intros dxy. apply keeps_life_bind; [apply keeps_life_get|intros s1].
  apply keeps_life_bind.
  { apply keeps_life_when. apply keeps_life_modify. intros s0. reflexivity. }
  intros _. apply keeps_life_bind; [apply keeps_life_fire; reflexivity|intros _].
  apply keeps_life_when.
  apply keeps_life_bind; [apply keeps_life_get|intros s2].
  apply keeps_life_bind; [apply keeps_life_when, doMove_keeps_life|intros _].
  apply keeps_life_bind; [apply keeps_life_get|intros s3].
  apply keeps_life_when. apply keeps_life_modify. intros s0. reflexivity.
Qed.

Lemma call_keeps_life (n : nat) (env : Env) (op : Op) : keeps_life n (call env op).
Proof.
  destruct op; cbn [call].
  - unfold pointerDown.
    apply keeps_life_bind; [apply updatePointer_keeps_life|intros i].
    apply keeps_life_bind; [apply keeps_life_fire; reflexivity|intros _].
    apply keeps_life_ret.
  - apply start_keeps_life.
  - apply pointerMove_keeps_life.
  - apply doMove_keeps_life.
  - unfold pointerUp. cbv zeta.
    apply keeps_life_bind; [apply keeps_life_get|intros s].
    apply keeps_life_bind.
    { apply keeps_life_fire. by destruct (is_cancel (ev_type event)). }
    intros _. apply keeps_life_bind; [apply keeps_life_get|intros s1].
    apply keeps_life_bind; [apply keeps_life_when, end_keeps_life|intros _].
    apply keeps_life_bind; [apply keeps_life_modify; intros s0; reflexivity|intros _].
    apply removePointer_keeps_life.
  - unfold documentBlur.
    apply keeps_life_bind; [apply end_keeps_life|intros _].
    apply keeps_life_bind; [apply keeps_life_fire; reflexivity|intros _].
    apply keeps_life_ret.
  - apply end_keeps_life.
  - apply stop_keeps_life.
  - apply keeps_life_bind; [apply updatePointer_keeps_life|intros; apply keeps_life_ret].
  - apply removePointer_keeps_life.
  - apply keeps_life_modify. intros s0. reflexivity.
Qed.

Lemma run_keeps_life (n : nat) (cs : list (Env * Op)) (w : World) :
  returns_all cs w -> life n w -> life n (run cs w).
Proof.
  revert w. induction cs as [|[env op] cs IH]; intros w Hr H; [exact H|].
  cbn [run fold_left]. destruct Hr as [Hr Hrest]. apply IH; [exact Hrest|].
  by apply call_keeps_life.
Qed.

(** X17.  As long as no call has thrown, what a session delivers to targets,
    from its creation on, comes in cycles.  A ['start'] event is delivered
    only when no action is in progress; a ['move'] or ['end'] event only
    while one is, to the target that received the ['start'], with the same
    action name and element; no event follows an ['end'] event before
    ['stop'] has closed the cycle.  Between calls the session agrees with the
    log: with no cycle open, [target] and [prevEvent] are [null]; within a
    cycle the session is interacting, [target] is the target of the cycle
    and [prevEvent] is the last event delivered to it, which is not an
    ['end'] event. *)
Theorem lifecycle_is_well_formed (pt : PointerType) (bus : list LogEntry)
    (cs : list (Env * Op)) :
  returns_all cs (constructor pt bus) ->
  exists st : Cycle,
    track None (drop (length bus) (log (run cs (constructor pt bus)))) = Some st
    /\ agrees st (ia (run cs (constructor pt bus))).
Proof.
  intros Hr. apply (run_keeps_life (length bus) cs (constructor pt bus) Hr).
  split; cbn.
  - rewrite length_app. lia.
  - exists None. split; [|done].
    rewrite drop_app_length. reflexivity.
Qed.

(** * Further properties of the dispatcher *)

Lemma pool_extends_refl (pt : PointerType) (sc : Scope) :
  pool_extends pt (prevTouchTime sc) sc sc.
Proof.
  split; [exists 0%nat; by rewrite app_nil_r|].
  split; [exists []; by rewrite app_nil_r|done].
Qed.

Lemma pool_extends_trans (pt : PointerType) (t t' : Z) (sc1 sc2 sc3 : Scope) :
  pool_extends pt t sc1 sc2 -> pool_extends pt t' sc2 sc3 -> pool_extends pt t' sc1 sc3.
Proof.
  intros ([n1 H1] & [r1 Hr1] & _) ([n2 H2] & [r2 Hr2] & Ht).
  split; [exists (n1 + n2)%nat; by rewrite H2, H1, <- app_assoc, replicate_add|].
  split; [exists (r1 ++ r2); by rewrite Hr2, Hr1, app_assoc|done].
Qed.

(** [getInteraction] returns; it adds at most one session, a new one of the
    type asked for, and only when neither the finder nor a listener of
    ['find'] gave one. *)
Lemma getInteraction_effect (pf : Platform) (d : SearchDetails) (sc : Scope) :
  exists i sc',
    getInteraction pf d sc = Ret i sc'
    /\ pool_extends (sd_pointerType d) (prevTouchTime sc) sc sc'
    /\ (length (interactions sc) <= length (interactions sc'))%nat.
Proof.
  unfold getInteraction, newInteraction, constructor. unfold_m. cbn.
  destruct (find_listeners pf _ _ _) as [i|]; cbn; eexists _, _; (split; [reflexivity|]).
  - split; [|done]. split; [exists 0%nat; cbn; by rewrite app_nil_r|].
    split; [eexists; reflexivity|done].
  - split; [|cbn; rewrite length_app; cbn; lia].
    split; [exists 1%nat; cbn; by rewrite fmap_app|].
    split; [cbn; rewrite <- app_assoc; eexists; reflexivity|done].
Qed.

Lemma map_each_touches (pf : Platform) (event : Event) (ps : list Pointer) (sc : Scope) :
  exists ms sc',
    map_each ps
      (fun pointer =>
         interaction <- getInteraction pf (searchDetails_of event pointer) ;;
         ret (pointer, interaction)) sc
    = Ret ms sc'
    /\ fst <$> ms = ps
    /\ pool_extends (ev_pointerType event) (prevTouchTime sc) sc sc'.
Proof.
  revert sc. induction ps as [|p ps IH]; intros sc; cbn [map_each].
  - exists [], sc. split; [reflexivity|]. split; [reflexivity|]. apply pool_extends_refl.
  - destruct (getInteraction_effect pf (searchDetails_of event p) sc)
      as (i & sc1 & Hg & Hext & _).
    destruct (IH sc1) as (ms & sc2 & Hm & Hfst & Hext2).
    exists ((p, i) :: ms), sc2. split.
    + unfold bind at 1. unfold bind at 1. rewrite Hg. unfold ret at 1.
      unfold bind at 1. rewrite Hm. reflexivity.
    + split; [cbn; by rewrite Hfst|].
      destruct Hext as (? & ? & Ht). rewrite Ht in Hext2.
      eapply pool_extends_trans; [|exact Hext2].
      split; [done|]. split; [done|]. exact Ht.
Qed.


(** X19.  An event that does not go the way of touch events and is not a
    mouse event, or that arrives on a platform with pointer events, is never
    filtered: whatever the sessions hold, whenever the last touch was and
    whatever its time stamp, exactly one session is matched - the one the
    finder and the listeners of ['find'] give or a new one. *)
Theorem other_events_are_never_dropped (pf : Platform) (event : Event) (sc : Scope) :
  touch_branch pf event = false ->
  supportsPointerEvent (browser pf) = true \/ is_mouse_type (ev_type event) = false ->
  collect_matches pf event sc
  = Ret [(ev_pointer event, fst (resolved pf event sc))] (snd (resolved pf event sc)).
Proof.
  intros Hb Hcase. unfold touch_branch in Hb. unfold collect_matches. rewrite Hb.
  unfold bind at 1. unfold get_state at 1.
  assert (Hc : (negb (supportsPointerEvent (browser pf))
                && is_mouse_type (ev_type event))%bool = false).
  { destruct Hcase as [-> | ->]; [done|]. by rewrite andb_false_r. }
  rewrite Hc. cbn [negb].
  unfold resolved, getInteraction, newInteraction, constructor. unfold_m. cbn.
  destruct (find_listeners pf _ _ _); cbn; rewrite <- ?app_assoc; reflexivity.
Qed.

Lemma collect_matches_extends (pf : Platform) (event : Event) (sc : Scope) :
  exists ms sc',
    collect_matches pf event sc = Ret ms sc'
    /\ pool_extends (ev_pointerType event)
         (if touch_branch pf event then now pf else prevTouchTime sc) sc sc'.
Proof.
  unfold touch_branch, collect_matches.
  destruct (supportsTouch (browser pf) && is_touch_type (ev_type event))%bool.
  - unfold bind at 1. unfold modify_state at 1.
    set (sc0 := {| interactions := interactions sc; prevTouchTime := now pf;
                   signals := signals sc |}).
    destruct (map_each_touches pf event (changedTouches event) sc0)
      as (ms & sc' & Hm & _ & Hext).
    by exists ms, sc'.
  - unfold bind at 1. unfold get_state at 1.
    destruct (negb _); [|exists [], sc; split; [done|apply pool_extends_refl]].
    destruct (getInteraction_effect pf (searchDetails_of event (ev_pointer event)) sc)
      as (i & sc' & Hg & Hext & _).
    exists [(ev_pointer event, i)], sc'. split; [|exact Hext].
    unfold bind at 1. by rewrite Hg.
Qed.

Lemma apply_method_keeps_pointerType (env : Env) (method : Method) (p : Pointer)
    (ev : Event) (et cet : EventTarget) (v : PointerType) :
  preserves (fun s => pointerType s = v)
    (_updateEventTargets et cet ;; apply_method env method p ev et cet).
Proof. destruct method; cbn [apply_method]; frame. Qed.

Lemma apply_method_log_grows (env : Env) (method : Method) (p : Pointer)
    (ev : Event) (et cet : EventTarget) :
  log_grows (_updateEventTargets et cet ;; apply_method env method p ev et cet).
Proof.
  destruct method; cbn [apply_method];
    unfold pointerDown, pointerUp, documentBlur, pointerMove, take_sample,
      updatePointer, removePointer, start, doMove, end_, stop, _updateEventTargets,
      _createPreparedEvent;
    cbv zeta; repeat grows_step.
Qed.

Lemma on_session_extends (pt : PointerType) (i : nat) (c : M World unit) (sc : Scope) :
  (forall v, preserves (fun s => pointerType s = v) c) ->
  log_grows c ->
  pool_extends pt (prevTouchTime sc) sc (state_of (on_session i c sc)).
Proof.
  intros Hpt Hlog. unfold on_session.
  destruct (interactions sc !! i) as [s|] eqn:Hi; [|apply pool_extends_refl].
  set (w := {| ia := s; log := signals sc |}).
  pose proof (Hpt (pointerType s) w eq_refl) as Hs.
  destruct (Hlog w) as [rest Hrest].
  assert (Hsame : pointerType <$> <[i := ia (state_of (c w))]> (interactions sc)
                  = pointerType <$> interactions sc).
  { rewrite list_fmap_insert. apply list_insert_id.
    rewrite list_lookup_fmap, Hi. cbn. by rewrite Hs. }
  destruct (c w) as [[] w'|w']; cbn in *;
    (split; [exists 0%nat; cbn; by rewrite app_nil_r|]);
    (split; [by exists rest|done]).
Qed.

Lemma for_each_extends (pt : PointerType) {A : Type} (l : list A)
    (body : A -> M Scope unit) (sc : Scope) :
  (forall a sc0, pool_extends pt (prevTouchTime sc0) sc0 (state_of (body a sc0))) ->
  pool_extends pt (prevTouchTime sc) sc (state_of (for_each l body sc)).
Proof.
  intros Hbody. revert sc. induction l as [|a l IH]; intros sc; cbn [for_each].
  - apply pool_extends_refl.
  - unfold bind. pose proof (Hbody a sc) as Ha.
    destruct (body a sc) as [[] sc1|sc1]; cbn in *; [|exact Ha].
    eapply pool_extends_trans; [exact Ha|].
    destruct Ha as (_ & _ & <-). apply IH.
Qed.

Lemma dispatcher_pool_time (pf : Platform) (method : Method) (event : Event) (sc : Scope) :
  prevTouchTime (state_of (doOnInteractions pf method event sc))
  = if touch_branch pf event then now pf else prevTouchTime sc.
Proof.
  unfold doOnInteractions. cbv zeta.
  destruct (collect_matches_extends pf event sc) as (ms & sc1 & Hc & Hext).
  rewrite (bind_Ret _ _ _ _ _ Hc).
  destruct Hext as (_ & _ & <-).
  assert (H : pool_extends (ev_pointerType event) (prevTouchTime sc1) sc1
                (state_of (for_each ms
                   (fun m => on_session (snd m)
                      (_updateEventTargets (ev_target event) (ev_currentTarget event) ;;
                       apply_method (session_env pf) method (fst m) event
                         (ev_target event) (ev_currentTarget event))) sc1))).
  { apply for_each_extends. intros m sc0. apply on_session_extends.
    - intros v. apply apply_method_keeps_pointerType.
    - apply apply_method_log_grows. }
  by destruct H as (_ & _ & ->).
Qed.


(** X21.  The mouse events a browser simulates after a touch are ignored:
    once an event has gone the way of touch events at time [now pf], a mouse
    event that arrives less than 500 ms later on a platform without pointer
    events reaches no session and changes nothing, whatever the first event
    did and even when a method threw on it. *)
Theorem mouse_event_after_touch_is_ignored (pf pf' : Platform) (method method' : Method)
    (touch_event mouse_event : Event) (sc : Scope) :
  touch_branch pf touch_event = true ->
  touch_branch pf' mouse_event = false ->
  supportsPointerEvent (browser pf') = false ->
  is_mouse_type (ev_type mouse_event) = true ->
  now pf' - now pf < 500 ->
  doOnInteractions pf' method' mouse_event
    (state_of (doOnInteractions pf method touch_event sc))
  = Ret tt (state_of (doOnInteractions pf method touch_event sc)).
Proof.
  intros Ht Hm Hpe Hmouse Hlt.
  pose proof (dispatcher_pool_time pf method touch_event sc) as Htime.
  rewrite Ht in Htime.
  set (sc1 := state_of (doOnInteractions pf method touch_event sc)) in *.
  unfold doOnInteractions. cbv zeta.
  assert (Hc : collect_matches pf' mouse_event sc1 = Ret [] sc1).
  { unfold collect_matches. unfold touch_branch in Hm. rewrite Hm.
    unfold bind at 1. unfold get_state at 1. rewrite Hpe, Hmouse. cbn [negb andb].
    assert (Hd : (touch_active (interactions sc1) false
                  || (now pf' - prevTouchTime sc1 <? 500)
                  || (ev_timeStamp mouse_event =? 0))%bool = true).
    { apply invalidPointer_spec. right; left. by rewrite Htime. }
    by rewrite Hd. }
  by rewrite (bind_Ret _ _ _ _ _ Hc).
Qed.

(** X22.  The class has no method [windowBlur], though [methodNames] lists
    it: when the session of the first match is in the pool, the listener
    made for it throws at that match, once the event targets of the session
    are set; no signal of a session is fired and the other matches are not
    reached. *)
Theorem windowBlur_listener_throws (pf : Platform) (event : Event) (sc sc1 : Scope)
    (pointer : Pointer) (i : nat) (ms : list (Pointer * nat)) (s : Interaction) :
  collect_matches pf event sc = Ret ((pointer, i) :: ms) sc1 ->
  interactions sc1 !! i = Some s ->
  doOnInteractions pf m_windowBlur event sc
  = Throw {| interactions :=
               <[i := set_curEventTarget (ev_currentTarget event)
                        (set_eventTarget (ev_target event) s)]> (interactions sc1);
             prevTouchTime := prevTouchTime sc1;
             signals := signals sc1 |}.
Proof.
  intros Hc Hi. unfold doOnInteractions. cbv zeta.
  rewrite (bind_Ret _ _ _ _ _ Hc). cbn [for_each fst snd].
  unfold bind at 1. unfold on_session at 1. rewrite Hi.
  reflexivity.
Qed.

(** ** The handler of [blur] *)

Lemma documentBlur_returns (env : Env) (ev : Event) (w : World) :
  builds_when_bound env ->
  bound_when_interacting (ia w) -> returned (documentBlur env ev w) = true.
Proof.
  intros Hbuild Hb. unfold documentBlur.
  assert (Hev : _interacting (ia w) = true -> end_event (ia w) (Some ev) <> None)
    by (intros; discriminate).
  pose proof (end_returns env (Some ev) w Hbuild Hb Hev) as He.
  unfold bind at 1. destruct (end_ env (Some ev) w) as [[] w1|w1]; [|discriminate].
  unfold fire, bind. reflexivity.
Qed.

Lemma documentBlur_idle (env : Env) (ev : Event) (w : World) :
  builds_when_bound env ->
  bound_when_interacting (ia w) -> end_unvetoed env ->
  _interacting (ia (state_of (documentBlur env ev w))) = false.
Proof.
  intros Hbuild Hb Hv. unfold bound_when_interacting in Hb.
  assert (Hev : Some (RawEvent ev) <> None) by discriminate.
  unfold documentBlur, end_, stop, _fireEvent, _createPreparedEvent, interacting.
  unfold_m. cbn.
  destruct (_interacting (ia w)) eqn:Hi; cbn; [|done].
  specialize (Hb eq_refl). build_with Hbuild Hb Hev. cbn.
  rewrite Hv. cbn.
  destruct (target (ia w)); cbn; [done|]. by destruct Hb.
Qed.

Lemma documentBlur_one_blur (env : Env) (ev : Event) (w : World) :
  returned (documentBlur env ev w) = true ->
  exists rest,
    log (state_of (documentBlur env ev w)) = log w ++ rest
    /\ count_signals "blur" rest = 1%nat.
Proof.
  unfold count_signals.
  unfold documentBlur, end_, stop, _fireEvent, _createPreparedEvent, interacting.
  unfold_m. cbn.
  destruct (_interacting (ia w)); cbn.
  - destruct (constructs env _ _); cbn; [|discriminate].
    destruct (fire_result env _ _ _); cbn.
    + destruct (target (ia w)); cbn; [|discriminate]. intros _.
      rewrite <- !app_assoc. eexists; split; [reflexivity|]. reflexivity.
    + intros _. rewrite <- !app_assoc. eexists; split; [reflexivity|]. reflexivity.
  - intros _. rewrite <- ?app_assoc. eexists; split; [reflexivity|]. reflexivity.
Qed.

Lemma count_signals_app (n : string) (l1 l2 : list LogEntry) :
  count_signals n (l1 ++ l2) = (count_signals n l1 + count_signals n l2)%nat.
Proof. unfold count_signals. by rewrite list.filter_app, length_app. Qed.

(** The sessions from index [k] on are visited one after the other. *)
Lemma blur_from (env : Env) (ev : Event) (m k : nat) (sc : Scope) :
  builds_when_bound env ->
  Forall bound_when_interacting (interactions sc) ->
  (k + m = length (interactions sc))%nat ->
  let r := for_each (seq k m) (fun i => on_session i (documentBlur env ev)) sc in
  returned r = true
  /\ Forall bound_when_interacting (interactions (state_of r))
  /\ registry <$> interactions (state_of r) = registry <$> interactions sc
  /\ take k (interactions (state_of r)) = take k (interactions sc)
  /\ (exists rest, signals (state_of r) = signals sc ++ rest
                   /\ count_signals "blur" rest = m)
  /\ (end_unvetoed env ->
      Forall (fun s => _interacting s = false) (drop k (interactions (state_of r)))).
Proof.
  intros Hbuild. cbv zeta.
  revert k sc. induction m as [|m IH]; intros k sc Hb Hlen; cbn [seq for_each].
  - cbn. split; [done|]. split; [done|]. split; [done|]. split; [done|].
    split; [exists []; by rewrite app_nil_r|].
    intros _. rewrite drop_ge by lia. constructor.
  - destruct (lookup_lt_is_Some_2 (interactions sc) k) as [s Hs]; [lia|].
    set (w := {| ia := s; log := signals sc |}).
    assert (Hbs : bound_when_interacting (ia w)).
    { cbn. by eapply (proj1 (list.Forall_forall _ _) Hb), list_elem_of_lookup_2. }
    pose proof (documentBlur_returns env ev w Hbuild Hbs) as Hret.
    pose proof (call_bound env (OpDocumentBlur ev) I w Hbs) as Hb1. cbn [call] in Hb1.
    pose proof (documentBlur_keeps_registry env ev (registry s) w eq_refl) as Hreg.
    destruct (documentBlur_one_blur env ev w Hret) as (rest1 & Hlog1 & Hcount1).
    pose proof (documentBlur_idle env ev w Hbuild Hbs) as Hidle.
    destruct (documentBlur env ev w) as [[] w1|w1] eqn:Hdb; [|discriminate].
    cbn [state_of ia log w] in Hb1, Hreg, Hlog1, Hidle.
    set (sc1 := {| interactions := <[k := ia w1]> (interactions sc);
                   prevTouchTime := prevTouchTime sc; signals := log w1 |}).
    assert (Hstep : on_session k (documentBlur env ev) sc = Ret tt sc1).
    { unfold on_session. rewrite Hs. fold w. by rewrite Hdb. }
    rewrite (bind_Ret _ _ _ _ _ Hstep).
    assert (Hb' : Forall bound_when_interacting (interactions sc1)).
    { cbn. by apply Forall_insert. }
    assert (Hlen' : (S k + m = length (interactions sc1))%nat).
    { cbn. rewrite length_insert. lia. }
    destruct (IH (S k) sc1 Hb' Hlen') as (Hr & Hbr & Hregr & Htake & Hsig & Hend).
    split; [exact Hr|]. split; [exact Hbr|]. split; [|split; [|split]].
    + rewrite Hregr. cbn. rewrite list_fmap_insert. apply list_insert_id.
      by rewrite list_lookup_fmap, Hs, Hreg.
    + apply (f_equal (take k)) in Htake. rewrite !take_take in Htake.
      rewrite !Nat.min_l in Htake by lia. rewrite Htake. cbn.
      by rewrite take_insert_ge by lia.
    + destruct Hsig as (rest & Hrest & Hcount). exists (rest1 ++ rest).
      split; [rewrite Hrest; cbn; by rewrite Hlog1, app_assoc|].
      rewrite count_signals_app, Hcount1, Hcount. lia.
    + intros Hv. specialize (Hend Hv). specialize (Hidle Hv).
      assert (Hk : interactions
                     (state_of (for_each (seq (S k) m)
                        (fun i => on_session i (documentBlur env ev)) sc1)) !! k
                   = Some (ia w1)).
      { rewrite <- (lookup_take_lt _ (S k)) by lia. rewrite Htake.
        rewrite lookup_take_lt by lia. cbn. apply list_lookup_insert_eq. lia. }
      rewrite (drop_S _ _ _ Hk). by constructor.
Qed.

(** X23.  Where the constructor of lifecycle events returns whenever the
    session has a target and an event is given: when every interacting
    session of the pool has a target, the handler of [blur] returns, fires
    ['blur'] once for every session of the pool and leaves no session
    interacting unless a listener of ['before-action-end'] vetoes; it
    releases no pointer: the contact registry and [pointerIsDown] of every
    session are what they were. *)
Theorem blur_ends_every_session (pf : Platform) (event : Event) (sc : Scope) :
  builds_when_bound (session_env pf) ->
  Forall bound_when_interacting (interactions sc) ->
  let r := blur_listener pf event sc in
  returned r = true
  /\ registry <$> interactions (state_of r) = registry <$> interactions sc
  /\ (exists rest, signals (state_of r) = signals sc ++ rest
                   /\ count_signals "blur" rest = length (interactions sc))
  /\ (end_unvetoed (session_env pf) ->
      Forall (fun s => _interacting s = false) (interactions (state_of r))).
Proof.
  intros Hbuild Hb. cbv zeta. unfold blur_listener. unfold bind at 1. unfold get_state at 1.
  destruct (blur_from (session_env pf) event (length (interactions sc)) 0 sc Hbuild Hb
              eq_refl)
    as (Hr & _ & Hreg & _ & Hsig & Hend).
  split; [exact Hr|]. split; [exact Hreg|]. split; [exact Hsig|].
  intros Hv. specialize (Hend Hv). by rewrite drop_0 in Hend.
Qed.

(** ** The further properties at concrete sessions *)

Lemma quiet_builds (clock : Z) : builds_when_bound (quiet clock).
Proof.
  intros s e Ht He. cbn. unfold constructs_bound.
  destruct (target s); [|done]. destruct e as [[ev|] ? ? ? ?]; [reflexivity|done].
Qed.

Lemma start_starts_witness :
  _interacting (ia mouse_pressed) = false
  /\ returned (start (quiet 11) drag (Some 3) (Some 7) mouse_pressed) = true.
Proof.
  assert (H1 : _interacting (ia mouse_pressed) = false) by (vm_compute; reflexivity).
  assert (H2 : pointerIsDown (ia mouse_pressed) = true) by (vm_compute; reflexivity).
  assert (H3 : (required_contacts drag <= length (pointerIds (ia mouse_pressed)))%nat)
    by (vm_compute; lia).
  assert (H4 : constructs (quiet 11) (started (ia mouse_pressed) drag 3 (Some 7))
                 (start_event (ia mouse_pressed) drag (Some 7)) = true)
    by (vm_compute; reflexivity).
  pose proof (start_starts (quiet 11) (quiet 12) drag gesture 3 (Some 4) (Some 7) None
                mouse_pressed H1 H2 H3) as H.
  cbv zeta in H. destruct H as (Hyes & _). destruct (Hyes H4) as (Heq & _).
  split; [exact H1|]. exact (f_equal returned Heq).
Defined.

Lemma doMove_veto_witness :
  returned (doMove (vetoing "before-action-move" 20) None mouse_dragging) = true.
Proof.
  assert (H : fire_result (vetoing "before-action-move" 20) "before-action-move"
                (doMove_signalArg (ia mouse_dragging) None) (ia mouse_dragging) = false)
    by (vm_compute; reflexivity).
  exact (f_equal returned
           (doMove_veto (vetoing "before-action-move" 20) None mouse_dragging H)).
Defined.

Lemma doMove_delivers_witness :
  target (ia mouse_dragging) = Some 3
  /\ returned (doMove (quiet 20) None mouse_dragging) = true.
Proof.
  assert (H1 : fire_result (quiet 20) "before-action-move"
                 (doMove_signalArg (ia mouse_dragging) None) (ia mouse_dragging) = true)
    by (vm_compute; reflexivity).
  assert (H2 : target (ia mouse_dragging) = Some 3) by (vm_compute; reflexivity).
  assert (H3 : constructs (quiet 20) (ia mouse_dragging)
                 (move_event (ia mouse_dragging) None) = true)
    by (vm_compute; reflexivity).
  pose proof (doMove_delivers (quiet 20) None 3 mouse_dragging H1 H3 H2) as H.
  cbv zeta in H. destruct H as (Heq & _).
  split; [exact H2|]. exact (f_equal returned Heq).
Defined.

Lemma doMove_throws_before_action_move_witness :
  target (ia mouse_pressed) = None
  /\ returned (doMove (quiet 20) None mouse_pressed) = false.
Proof.
  assert (H1 : fire_result (quiet 20) "before-action-move"
                 (doMove_signalArg (ia mouse_pressed) None) (ia mouse_pressed) = true)
    by (vm_compute; reflexivity).
  assert (H2 : target (ia mouse_pressed) = None) by (vm_compute; reflexivity).
  assert (H3 : constructs (quiet 20) (ia mouse_pressed)
                 (move_event (ia mouse_pressed) None) = false)
    by (vm_compute; reflexivity).
  split; [exact H2|].
  exact (f_equal returned
           (doMove_throws_before_action_move (quiet 20) None mouse_pressed H1 H3)).
Defined.

Lemma end_when_idle_witness :
  _interacting (ia mouse_pressed) = false
  /\ returned (end_ (quiet 20) None mouse_pressed) = true.
Proof.
  assert (H1 : _interacting (ia mouse_pressed) = false) by (vm_compute; reflexivity).
  pose proof (end_when_idle (quiet 20) (quiet 21) None None mouse_pressed H1) as H.
  cbv zeta in H. destruct H as (Heq & _).
  split; [exact H1|]. exact (f_equal returned Heq).
Defined.

Lemma end_guard_witness :
  _interacting (ia mouse_unbound) = true
  /\ target (ia mouse_unbound) = None
  /\ returned (end_ (vetoing "before-action-end" 30) None mouse_unbound) = false.
Proof.
  assert (H1 : _interacting (ia mouse_unbound) = true) by (vm_compute; reflexivity).
  assert (H2 : constructs (vetoing "before-action-end" 30)
                 (set_ending true (ia mouse_unbound))
                 (end_iEvent (set_ending true (ia mouse_unbound)) None) = false)
    by (vm_compute; reflexivity).
  assert (H3 : target (ia mouse_unbound) = None) by (vm_compute; reflexivity).
  pose proof (end_guard (vetoing "before-action-end" 30) None mouse_unbound) as H.
  cbv zeta in H. destruct H as (_ & Hiff & _).
  split; [exact H1|]. split; [exact H3|].
  apply Hiff. split; [exact H1|]. left. exact H2.
Defined.

Lemma documentBlur_fires_blur_last_witness :
  returned (end_ (quiet 30) (Some blur_event) mouse_dragging) = true
  /\ returned (documentBlur (quiet 30) blur_event mouse_dragging) = true.
Proof.
  assert (H1 : returned (end_ (quiet 30) (Some blur_event) mouse_dragging) = true)
    by (vm_compute; reflexivity).
  pose proof (documentBlur_fires_blur_last (quiet 30) blur_event mouse_dragging) as H.
  cbv zeta in H. destruct H as (Hret & _).
  split; [exact H1|]. exact (f_equal returned (Hret H1)).
Defined.

Lemma calls_return_witness :
  _interacting (ia mouse_dragging) = true
  /\ returned (call (quiet 20) (OpDoMove None) mouse_dragging) = true.
Proof.
  assert (H1 : _interacting (ia mouse_dragging) = true) by (vm_compute; reflexivity).
  assert (H2 : target (ia mouse_dragging) = Some 3) by (vm_compute; reflexivity).
  assert (H3 : ie_event (move_event (ia mouse_dragging) None) <> None)
    by (vm_compute; discriminate).
  assert (Hb : bound_when_interacting (ia mouse_dragging)).
  { intros _. rewrite H2. discriminate. }
  split; [exact H1|].
  exact (proj1 (calls_return (quiet 20) (OpDoMove None) mouse_dragging (quiet_builds 20)
                  Hb I (conj H1 H3))).
Defined.

Lemma registry_has_no_hole_nor_duplicate_witness :
  reachable (run press_then_drag (constructor mouse []))
  /\ NoDup (pointerIds (ia (run press_then_drag (constructor mouse [])))).
Proof.
  assert (Hw : reachable (run press_then_drag (constructor mouse [])))
    by (by exists mouse, [], press_then_drag).
  split; [exact Hw|].
  exact (proj1 (proj2 (proj2 (registry_has_no_hole_nor_duplicate _ Hw)))).
Defined.

Lemma updatePointer_stores_witness :
  exists (i : nat) (w' : World),
    updatePointer (quiet 12) (ev_pointer touchstart_b) (Some touchstart_b) (Some 9) None
      one_touch = Ret i w'
    /\ pointers (ia w') !! i = Some (Some (ev_pointer touchstart_b)).
Proof.
  destruct (updatePointer_stores (quiet 12) (ev_pointer touchstart_b) (Some touchstart_b)
              (Some 9) None one_touch) as (i & w' & Heq & Hp & _).
  exists i, w'. split; [exact Heq|exact Hp].
Defined.

Lemma updatePointer_down_records_witness :
  is_down (Some touchstart_b) None = true
  /\ exists (i : nat) (w' : World),
       updatePointer (quiet 12) (ev_pointer touchstart_b) (Some touchstart_b) (Some 9) None
         one_touch = Ret i w'
       /\ pointerIsDown (ia w') = true.
Proof.
  assert (H1 : is_down (Some touchstart_b) None = true) by (vm_compute; reflexivity).
  split; [exact H1|].
  destruct (updatePointer_down_records (quiet 12) (ev_pointer touchstart_b)
              (Some touchstart_b) (Some 9) None one_touch)
    as (i & w' & Heq & _ & Hdown & _).
  exists i, w'. split; [exact Heq|]. exact (proj1 (Hdown H1)).
Defined.

Lemma touch_downs_in_order_witness :
  NoDup (pointerId <$> down_pointers two_touch_downs)
  /\ pointers (ia (run (downs two_touch_downs) (constructor touch [])))
     = Some <$> down_pointers two_touch_downs.
Proof.
  assert (H : NoDup (pointerId <$> down_pointers two_touch_downs))
    by (refine (bool_decide_unpack _ _); vm_compute; exact I).
  split; [exact H|].
  pose proof (touch_downs_in_order [] two_touch_downs H) as H'.
  cbv zeta in H'. exact (proj1 (proj2 H')).
Defined.

Lemma removePointer_shifts_indices_witness :
  getPointerIndex (ia two_touches) (ev_pointer touchstart_a) = Z.of_nat 0
  /\ getPointerIndex (ia two_touches) (ev_pointer touchstart_b) = Z.of_nat 1
  /\ getPointerIndex
       (ia (state_of (removePointer (quiet 20) (ev_pointer touchstart_a) None two_touches)))
       (ev_pointer touchstart_b)
     = Z.of_nat (if decide (1 < 0)%nat then 1 else 1 - 1).
Proof.
  assert (H1 : pointerType (ia two_touches) = touch) by (vm_compute; reflexivity).
  assert (H2 : NoDup (pointerIds (ia two_touches)))
    by (refine (bool_decide_unpack _ _); vm_compute; exact I).
  assert (H3 : getPointerIndex (ia two_touches) (ev_pointer touchstart_a) = Z.of_nat 0)
    by (vm_compute; reflexivity).
  assert (H4 : getPointerIndex (ia two_touches) (ev_pointer touchstart_b) = Z.of_nat 1)
    by (vm_compute; reflexivity).
  pose proof (removePointer_shifts_indices (quiet 20) (ev_pointer touchstart_a)
                (ev_pointer touchstart_b) None 0 1 two_touches H1 H2 H3) as H.
  cbv zeta in H. destruct H as (_ & Hq & _).
  split; [exact H3|]. split; [exact H4|].
  apply (Hq H4). discriminate.
Defined.

Lemma pointerUp_empties_mouse_registry_witness :
  reachable (run press_then_drag (constructor mouse []))
  /\ pointers
       (ia (state_of (pointerUp (quiet 30) (ev_pointer mouseup_far) mouseup_far (Some 7)
                        (Some 8) (run press_then_drag (constructor mouse [])))))
     = [].
Proof.
  assert (Hw : reachable (run press_then_drag (constructor mouse [])))
    by (by exists mouse, [], press_then_drag).
  assert (H1 : pointerType (ia (run press_then_drag (constructor mouse []))) <> touch)
    by (vm_compute; discriminate).
  assert (H2 : returned (pointerUp (quiet 30) (ev_pointer mouseup_far) mouseup_far (Some 7)
                           (Some 8) (run press_then_drag (constructor mouse []))) = true)
    by (vm_compute; reflexivity).
  pose proof (pointerUp_empties_mouse_registry (quiet 30) (ev_pointer mouseup_far)
                mouseup_far (Some 7) (Some 8) _ Hw H1 H2) as H.
  cbv zeta in H. split; [exact Hw|]. exact (proj1 H).
Defined.

Lemma lifecycle_is_well_formed_witness :
  returns_all drag_and_release (constructor mouse [])
  /\ exists st : Cycle,
       track None (drop (length (@nil LogEntry))
                     (log (run drag_and_release (constructor mouse [])))) = Some st
       /\ agrees st (ia (run drag_and_release (constructor mouse []))).
Proof.
  assert (H : returns_all drag_and_release (constructor mouse []))
    by (vm_compute; repeat split).
  split; [exact H|].
  exact (lifecycle_is_well_formed mouse [] drag_and_release H).
Defined.


Lemma other_events_are_never_dropped_witness :
  ev_timeStamp mousedown_unstamped = 0
  /\ collect_matches (desktop 1001) mousedown_unstamped after_touchstart
     = Ret [(ev_pointer mousedown_unstamped,
             fst (resolved (desktop 1001) mousedown_unstamped after_touchstart))]
           (snd (resolved (desktop 1001) mousedown_unstamped after_touchstart)).
Proof.
  assert (H1 : touch_branch (desktop 1001) mousedown_unstamped = false)
    by (vm_compute; reflexivity).
  assert (H2 : supportsPointerEvent (browser (desktop 1001)) = true)
    by (vm_compute; reflexivity).
  split; [reflexivity|].
  exact (other_events_are_never_dropped (desktop 1001) mousedown_unstamped
           after_touchstart H1 (or_introl H2)).
Defined.

Lemma mouse_event_after_touch_is_ignored_witness :
  doOnInteractions (phone 1300) m_pointerDown mousedown_simulated
    (state_of (doOnInteractions (phone 1000) m_pointerUp touchstart_two init_scope))
  = Ret tt (state_of (doOnInteractions (phone 1000) m_pointerUp touchstart_two init_scope)).
Proof.
  assert (H1 : touch_branch (phone 1000) touchstart_two = true)
    by (vm_compute; reflexivity).
  assert (H2 : touch_branch (phone 1300) mousedown_simulated = false)
    by (vm_compute; reflexivity).
  assert (H3 : supportsPointerEvent (browser (phone 1300)) = false)
    by (vm_compute; reflexivity).
  assert (H4 : is_mouse_type (ev_type mousedown_simulated) = true)
    by (vm_compute; reflexivity).
  assert (H5 : now (phone 1300) - now (phone 1000) < 500) by (vm_compute; reflexivity).
  exact (mouse_event_after_touch_is_ignored (phone 1000) (phone 1300) m_pointerUp
           m_pointerDown touchstart_two mousedown_simulated init_scope H1 H2 H3 H4 H5).
Defined.

Lemma windowBlur_listener_throws_witness :
  returned (doOnInteractions (desktop 20) m_windowBlur mousedown_at_origin init_scope)
  = false.
Proof.
  assert (H1 : collect_matches (desktop 20) mousedown_at_origin init_scope
               = Ret ((ev_pointer mousedown_at_origin, 0%nat) :: [])
                   (state_of (collect_matches (desktop 20) mousedown_at_origin init_scope)))
    by (vm_compute; reflexivity).
  assert (H2 : interactions
                 (state_of (collect_matches (desktop 20) mousedown_at_origin init_scope))
                 !! 0%nat = Some first_session)
    by (vm_compute; reflexivity).
  exact (f_equal returned
           (windowBlur_listener_throws (desktop 20) mousedown_at_origin init_scope _ _ _ _ _
              H1 H2)).
Defined.

Lemma blur_ends_every_session_witness :
  _interacting (ia mouse_dragging) = true
  /\ returned (blur_listener (phone 50) blur_event busy_pool) = true
  /\ Forall (fun s => _interacting s = false)
       (interactions (state_of (blur_listener (phone 50) blur_event busy_pool))).
Proof.
  assert (H1 : _interacting (ia mouse_dragging) = true) by (vm_compute; reflexivity).
  assert (H2 : target (ia mouse_dragging) = Some 3) by (vm_compute; reflexivity).
  assert (H3 : _interacting (ia one_touch) = false) by (vm_compute; reflexivity).
  assert (Hb : Forall bound_when_interacting (interactions busy_pool)).
  { change (Forall bound_when_interacting [ia mouse_dragging; ia one_touch]).
    repeat constructor.
    - intros _. rewrite H2. discriminate.
    - intros Hc. rewrite H3 in Hc. discriminate. }
  assert (Hv : end_unvetoed (session_env (phone 50))) by (intros arg s; reflexivity).
  pose proof (blur_ends_every_session (phone 50) blur_event busy_pool (quiet_builds 50)
                Hb) as H.
  cbv zeta in H. destruct H as (Hret & _ & _ & Hend).
  split; [exact H1|]. split; [exact Hret|exact (Hend Hv)].
Defined.
